(** * YOLOv5 TensorRT detection server: decoding, suppression, metrics, log

    A shallow embedding of [detect_trt_server.py] and
    [detect_trt_fp32_server.py].  The two files share the decoding loop of
    [postprocess_image]; they differ in the class-score threshold
    ([conf_th] reused in the first, a separate [score_th] in the second),
    in the label drawn, in the counter policy of [infer_single_image] and
    in the persisted outputs (a CSV detection log in the first, a text
    report in the second).

    Numbers are modelled as the code has them: Python floats are IEEE 754
    binary64 values ([spec_float] of the standard library with precision
    53 and maximal exponent 1024), Python ints are [Z] (coordinates) or
    [nat] (counters and lengths).  The entries of the raw output are
    single-precision values ([numpy.float32]); they appear as the binary64
    values they widen to, which is exact.  A comparison of such an entry
    with a Python float is made in single precision (NumPy 2 converts the
    Python float first), and so are the comparisons inside
    [cv2.dnn.NMSBoxes], whose scores, thresholds and overlaps are C
    floats ([Single]).  The detector engine, the clock, the image codec
    and the file system are external: their answers are inputs of the
    model ([world]). *)

From Stdlib Require Import ZArith QArith Bool Ascii Lia.
From Stdlib Require Import Floats.SpecFloat.
From stdpp Require Import gmap strings list fin_maps sorting.

Local Open Scope Z_scope.

(** ** Python floats *)

Module PyFloat.

Definition prec : Z := 53.
Definition emax : Z := 1024.

Abbreviation float := spec_float.

Definition nan : float := S754_nan.
Definition pinf : float := S754_infinity false.
Definition zero : float := S754_zero false.

(** [np.isnan] on one element. *)
Definition isnan (x : float) : bool :=
  match x with S754_nan => true | _ => false end.

(** [math.isfinite]. *)
Definition isfinite (x : float) : bool :=
  match x with
  | S754_zero _ | S754_finite _ _ _ => true
  | S754_infinity _ | S754_nan => false
  end.

Definition is_zero (x : float) : bool :=
  match x with S754_zero _ => true | _ => false end.

(** The comparisons [a < b], [a <= b], [a > b] and [a >= b]. *)
Definition lt (a b : float) : bool := SFltb a b.
Definition le (a b : float) : bool := SFleb a b.
Definition gt (a b : float) : bool := SFltb b a.
Definition ge (a b : float) : bool := SFleb b a.

Definition add (a b : float) : float := SFadd prec emax a b.
Definition sub (a b : float) : float := SFsub prec emax a b.
Definition mul (a b : float) : float := SFmul prec emax a b.

(** [float(z)] for an int [z], rounded to nearest even. *)
Definition of_Z (z : Z) : float := binary_normalize prec emax z 0 false.

(** The quotient [a / b] once [b] is known to be non-zero. *)
Definition div (a b : float) : float := SFdiv prec emax a b.

(** Truncation towards zero of a finite value, as [int(x)] computes it. *)
Definition trunc (s : bool) (m : positive) (e : Z) : Z :=
  cond_Zopp s (Z.shiftl (Zpos m) e).

(** The exact rational value of a finite float. *)
Definition to_Q (x : float) : Q :=
  match x with
  | S754_finite s m e => (inject_Z (cond_Zopp s (Zpos m)) * Qpower 2 e)%Q
  | _ => 0%Q
  end.

(** Decimal literals of the scenarios, rounded as Python rounds them. *)
Definition ratio (n d : Z) : float := div (of_Z n) (of_Z d).

End PyFloat.

Import PyFloat.

(** ** Single precision *)

(** IEEE 754 binary32, the [numpy.float32] of the raw output and the
    [float] of OpenCV.  A single-precision value is carried as the
    binary64 value it widens to. *)
Module Single.

Definition prec : Z := 24.
Definition emax : Z := 128.

(** The binary32 number nearest to a binary64 value, ties to even, in the
    representation of binary32. *)
Definition narrow (x : float) : spec_float :=
  match x with
  | S754_finite s m e => binary_normalize prec emax (cond_Zopp s (Zpos m)) e s
  | _ => x
  end.

(** The binary64 value of a binary32 number. *)
Definition widen (x : spec_float) : float :=
  match x with
  | S754_finite s m e =>
    binary_normalize PyFloat.prec PyFloat.emax (cond_Zopp s (Zpos m)) e s
  | _ => x
  end.

(** The conversion [(float)x] of C and of NumPy. *)
Definition round (x : float) : float := widen (narrow x).

(** [a - b] on two C floats. *)
Definition sub (a b : float) : float :=
  widen (SFsub prec emax (narrow a) (narrow b)).

End Single.

(** ** Exceptions and the state-and-error monad *)

Inductive exn : Type :=
| ValueError
| OverflowError
| ZeroDivisionError
| IndexError
| AttributeError
| KeyError
| CvError
| EngineError
| OSError.

Inductive result (A : Type) : Type :=
| Ok (a : A)
| Raise (e : exn).

Arguments Ok {A} a.
Arguments Raise {A} e.

(** [int(x)]: [ValueError] on a NaN, [OverflowError] on an infinity. *)
Definition py_int (x : float) : result Z :=
  match x with
  | S754_nan => Raise ValueError
  | S754_infinity _ => Raise OverflowError
  | S754_zero _ => Ok 0
  | S754_finite s m e => Ok (trunc s m e)
  end.

(** [a / b] with a float divisor: Python raises on a zero divisor instead
    of returning an infinity or a NaN.  An int operand is converted first. *)
Definition py_truediv (a b : float) : result float :=
  if is_zero b then Raise ZeroDivisionError else Ok (div a b).

(** [a / n] with an int divisor. *)
Definition py_truediv_int (a : float) (n : Z) : result float :=
  if n =? 0 then Raise ZeroDivisionError else Ok (div a (of_Z n)).

(** A computation of a method: it reads and updates the object's state and
    either returns or raises; the state reached persists in both cases, as
    attribute updates made before a Python exception do. *)
Definition M (S A : Type) : Type := S -> result A * S.

Definition ret {S A} (a : A) : M S A := fun s => (Ok a, s).

Definition raise {S A} (e : exn) : M S A := fun s => (Raise e, s).

Definition bind {S A B} (c : M S A) (k : A -> M S B) : M S B :=
  fun s =>
    match c s with
    | (Ok a, s') => k a s'
    | (Raise e, s') => (Raise e, s')
    end.

Definition get {S} : M S S := fun s => (Ok s, s).

Definition modify {S} (f : S -> S) : M S unit := fun s => (Ok tt, f s).

Definition lift {S A} (r : result A) : M S A := fun s => (r, s).

(** [try: c except Exception as e: h e]. *)
Definition try_catch {S A} (c : M S A) (h : exn -> M S A) : M S A :=
  fun s =>
    match c s with
    | (Ok a, s') => (Ok a, s')
    | (Raise e, s') => h e s'
    end.

Declare Scope py_scope.
Delimit Scope py_scope with py.
Notation "x <- c ;; k" := (bind c (fun x => k))
  (at level 100, c at next level, right associativity) : py_scope.
Notation "c ;;; k" := (bind c (fun _ => k))
  (at level 100, right associativity) : py_scope.

(** ** Data model *)

(** What [cv2] draws on an image.  Colours, fonts and line styles are fixed
    constants of the source and are left out. *)
Inductive piece : Type :=
| Str (s : string)
| Conf2 (c : float).   (* the confidence formatted with two decimals *)

Inductive draw_op : Type :=
| Rectangle (x1 y1 x2 y2 : Z) (thickness : Z)
| TextBackground (text : list piece) (x y : Z)
| PutText (text : list piece) (x y : Z).

(** A decoded image: its shape and what has been drawn over its pixels. *)
Record image : Type := {
  im_height : Z;
  im_width : Z;
  im_drawn : list draw_op
}.

Definition draw (op : draw_op) (im : image) : image :=
  {| im_height := im_height im; im_width := im_width im;
     im_drawn := im_drawn im ++ [op] |}.

(** One anchor row of the raw output: [cx, cy, w, h, objectness, scores...];
    the raw output [yolov5_output[0]] is the list of its rows. *)
Definition row : Type := list float.
Definition tensor : Type := list row.

Definition box : Type := (Z * Z * Z * Z)%type.

(** The parallel lists [class_ids], [confidences], [bboxes] and
    [yolo_bboxes] of the decoding loop, one record per appended entry. *)
Record candidate : Type := {
  cand_class : nat;
  cand_conf : float;
  cand_box : box;
  cand_yolo : float * float * float * float
}.

Record detection : Type := {
  det_class : string;
  det_confidence : float;
  det_bbox : box;
  det_yolo_bbox : option (float * float * float * float)
}.

(** The constructor arguments of [TRTInferenceYolov5].  [score_th] exists
    in [detect_trt_fp32_server.py] only, [show_labels] and [show_conf] in
    [detect_trt_server.py] only. *)
Record config : Type := {
  class_labels : list string;
  input_shape : list Z;
  conf_th : float;
  score_th : float;
  nms_th : float;
  show_labels : bool;
  show_conf : bool
}.

(** The dictionary built by [generate_metrics]. *)
Record metrics : Type := {
  m_num_frames : nat;
  m_total_time : float;
  m_inference_time : float;
  m_average_fps : float;
  m_average_inference_time : float;
  m_total_objects : nat;
  m_invalid_outputs : nat;
  m_objects_by_class : gmap string nat
}.

(** The text report of [save_logs]: the thresholds and the metrics it
    prints. *)
Record report : Type := {
  rep_conf_th : float;
  rep_score_th : float;
  rep_nms_th : float;
  rep_metrics : metrics
}.

(** The mutable attributes of the inferencer ([resized_img] holds
    [resized_img_w] and [resized_img_h], unset before the first
    preprocessing), followed by the files it has left on disk: at each
    path the image last written there by [cv2.imwrite], and the report
    last written there by [save_logs]. *)
Record state : Type := {
  total_objects : nat;
  objects_by_class : gmap string nat;
  invalid_outputs : nat;
  total_time : float;
  inference_time : float;
  num_frames : nat;
  resized_img : option (Z * Z);
  written : gmap string image;
  logs : gmap string report
}.

Definition set_total_objects (v : nat) (s : state) : state :=
  {| total_objects := v;
     objects_by_class := objects_by_class s;
     invalid_outputs := invalid_outputs s;
     total_time := total_time s;
     inference_time := inference_time s;
     num_frames := num_frames s;
     resized_img := resized_img s;
     written := written s;
     logs := logs s |}.

Definition set_objects_by_class (v : gmap string nat) (s : state) : state :=
  {| total_objects := total_objects s;
     objects_by_class := v;
     invalid_outputs := invalid_outputs s;
     total_time := total_time s;
     inference_time := inference_time s;
     num_frames := num_frames s;
     resized_img := resized_img s;
     written := written s;
     logs := logs s |}.

Definition set_invalid_outputs (v : nat) (s : state) : state :=
  {| total_objects := total_objects s;
     objects_by_class := objects_by_class s;
     invalid_outputs := v;
     total_time := total_time s;
     inference_time := inference_time s;
     num_frames := num_frames s;
     resized_img := resized_img s;
     written := written s;
     logs := logs s |}.

Definition set_total_time (v : float) (s : state) : state :=
  {| total_objects := total_objects s;
     objects_by_class := objects_by_class s;
     invalid_outputs := invalid_outputs s;
     total_time := v;
     inference_time := inference_time s;
     num_frames := num_frames s;
     resized_img := resized_img s;
     written := written s;
     logs := logs s |}.

Definition set_inference_time (v : float) (s : state) : state :=
  {| total_objects := total_objects s;
     objects_by_class := objects_by_class s;
     invalid_outputs := invalid_outputs s;
     total_time := total_time s;
     inference_time := v;
     num_frames := num_frames s;
     resized_img := resized_img s;
     written := written s;
     logs := logs s |}.

Definition set_num_frames (v : nat) (s : state) : state :=
  {| total_objects := total_objects s;
     objects_by_class := objects_by_class s;
     invalid_outputs := invalid_outputs s;
     total_time := total_time s;
     inference_time := inference_time s;
     num_frames := v;
     resized_img := resized_img s;
     written := written s;
     logs := logs s |}.

Definition set_resized_img (v : option (Z * Z)) (s : state) : state :=
  {| total_objects := total_objects s;
     objects_by_class := objects_by_class s;
     invalid_outputs := invalid_outputs s;
     total_time := total_time s;
     inference_time := inference_time s;
     num_frames := num_frames s;
     resized_img := v;
     written := written s;
     logs := logs s |}.

Definition set_written (v : gmap string image) (s : state) : state :=
  {| total_objects := total_objects s;
     objects_by_class := objects_by_class s;
     invalid_outputs := invalid_outputs s;
     total_time := total_time s;
     inference_time := inference_time s;
     num_frames := num_frames s;
     resized_img := resized_img s;
     written := v;
     logs := logs s |}.

Definition set_logs (v : gmap string report) (s : state) : state :=
  {| total_objects := total_objects s;
     objects_by_class := objects_by_class s;
     invalid_outputs := invalid_outputs s;
     total_time := total_time s;
     inference_time := inference_time s;
     num_frames := num_frames s;
     resized_img := resized_img s;
     written := written s;
     logs := v |}.

(** What [cv2.imwrite] does with a file name: it writes the file, it
    returns [False] without writing (the file cannot be opened), or it
    raises [cv2.error] because OpenCV has no encoder for the extension of
    the name. *)
Inductive imwrite_answer : Type :=
| Writes
| WritesNothing
| NoEncoder.

(** What the environment answers: whether a path exists; whether
    [os.listdir] returns for a path (it raises for a path that is missing
    or is no directory) and the entries it returns, in its order; whether
    [os.makedirs(path, exist_ok=True)] returns; for an image path the
    decoded file ([None] when [cv2.imread] cannot read it); what
    [cv2.imwrite] does with a file name; whether [open(path, "w")]
    returns; the two measured durations, and the raw output of the engine
    ([None] when the engine call raises). *)
Record world : Type := {
  path_exists : string -> bool;
  can_listdir : string -> bool;
  listdir : string -> list string;
  can_makedirs : string -> bool;
  imread : string -> option image;
  cv_imwrite : string -> imwrite_answer;
  can_open : string -> bool;
  preprocess_time : string -> float;
  engine_output : string -> option tensor;
  engine_time : string -> float
}.

(** [os.makedirs(path, exist_ok=True)]: it raises on the empty path on
    every machine, and elsewhere when the directory is missing and cannot
    be created or the path is taken by a file. *)
Definition makedirs {S : Type} (w : world) (path : string) : M S unit :=
  if String.eqb path "" then raise OSError
  else if can_makedirs w path then ret tt
  else raise OSError.

(** [os.listdir(path)]. *)
Definition os_listdir (w : world) (path : string) : result (list string) :=
  if can_listdir w path then Ok (listdir w path) else Raise OSError.

(** [cv2.imwrite(output_path, image)]; a file already at the path is
    replaced. *)
Definition imwrite (w : world) (output_path : string) (im : image)
  : M state unit :=
  match cv_imwrite w output_path with
  | Writes => modify (fun s => set_written (<[output_path := im]> (written s)) s)
  | WritesNothing => ret tt
  | NoEncoder => raise CvError
  end.

(** [reset_counters]. *)
Definition reset_counters (cfg : config) : M state unit :=
  modify (fun s =>
    set_num_frames 0
      (set_inference_time zero
        (set_total_time zero
          (set_invalid_outputs 0
            (set_objects_by_class
               (list_to_map ((fun label => (label, 0%nat)) <$> class_labels cfg))
               (set_total_objects 0 s)))))).

(** ** The Decoder: the per-row loop of [postprocess_image] *)

(** [np.isnan(a).any()] on a row and on the whole raw output. *)
Definition row_has_nan (detect : row) : bool := existsb isnan detect.

Definition has_nan (yolov5_output : tensor) : bool :=
  existsb row_has_nan yolov5_output.

(** [np.argmax]: the first index of the largest entry; [ValueError] on an
    empty sequence.  It only runs on rows without a NaN. *)
Fixpoint argmax_from (best_i : nat) (best : float) (i : nat) (l : list float)
  : nat :=
  match l with
  | [] => best_i
  | x :: l' =>
      if gt x best then argmax_from i x (S i) l'
      else argmax_from best_i best (S i) l'
  end.

Definition argmax (l : list float) : result nat :=
  match l with
  | [] => Raise ValueError
  | x :: l' => Ok (argmax_from 0 x 1 l')
  end.

(** The body of the [try] block: the four coordinates of the box in the
    original image.  [width] and [height] are the original dimensions. *)
Definition scaled_box (width height : Z) (scale_x scale_y : float)
    (cx cy w h : float) : result box :=
  match py_int (mul (sub cx (div w (of_Z 2))) scale_x) with
  | Raise e => Raise e
  | Ok ix =>
    let top_left_x := Z.max 0 ix in
    match py_int (mul (sub cy (div h (of_Z 2))) scale_y) with
    | Raise e => Raise e
    | Ok iy =>
      let top_left_y := Z.max 0 iy in
      match py_int (mul w scale_x) with
      | Raise e => Raise e
      | Ok iw =>
        let width_scaled := Z.min (width - top_left_x) iw in
        match py_int (mul h scale_y) with
        | Raise e => Raise e
        | Ok ih =>
          let height_scaled := Z.min (height - top_left_y) ih in
          Ok (top_left_x, top_left_y, width_scaled, height_scaled)
        end
      end
    end
  end.

(** What one iteration of the loop does with its row: [continue], append a
    candidate to the lists, or let an exception escape the method. *)
Inductive row_outcome : Type :=
| Skip
| Emit (c : candidate)
| Fail (e : exn).

(** One iteration of [for detect in yolov5_output[0]].  [cth] is the
    confidence threshold and [sth] the threshold of the class score.
    [conf] is the Python float [float(detect[4])], compared with [cth] as
    a Python float; the class score stays a [numpy.float32], so the
    threshold is converted to single precision for its comparison. *)
Definition decode_row (cth sth : float) (width height : Z)
    (scale_x scale_y : float) (detect : row) : row_outcome :=
  if row_has_nan detect then Skip else
  match detect !! 4%nat with
  | None => Fail IndexError
  | Some conf =>
    if lt conf cth then Skip else
    let class_score := drop 5 detect in
    match argmax class_score with
    | Raise e => Fail e
    | Ok class_idx =>
      if lt (nth class_idx class_score nan) (Single.round sth) then Skip else
      match detect with
      | cx :: cy :: w :: h :: _ =>
        if negb (forallb isfinite [cx; cy; w; h]) then Skip else
        match scaled_box width height scale_x scale_y cx cy w h with
        | Raise _ => Skip   (* except (ValueError, OverflowError): continue *)
        | Ok (top_left_x, top_left_y, width_scaled, height_scaled) =>
          if (width_scaled <=? 0) || (height_scaled <=? 0) then Skip
          else Emit {| cand_class := class_idx; cand_conf := conf;
                       cand_box := (top_left_x, top_left_y,
                                    width_scaled, height_scaled);
                       cand_yolo := (cx, cy, w, h) |}
        end
      | _ => Fail IndexError
      end
    end
  end.

(** The whole loop: the candidates in row order, or the first exception. *)
Fixpoint decode_rows (cth sth : float) (width height : Z)
    (scale_x scale_y : float) (rows : tensor) : result (list candidate) :=
  match rows with
  | [] => Ok []
  | detect :: rest =>
    match decode_row cth sth width height scale_x scale_y detect with
    | Fail e => Raise e
    | Skip => decode_rows cth sth width height scale_x scale_y rest
    | Emit c =>
      match decode_rows cth sth width height scale_x scale_y rest with
      | Ok cs => Ok (c :: cs)
      | Raise e => Raise e
      end
    end
  end.

(** ** The Suppressor: [cv2.dnn.NMSBoxes]

    The routine belongs to OpenCV, not to the repository.  It is modelled
    after the library's code ([NMSBoxes], [NMSFast_], [GetMaxScoreIndex],
    [rectOverlap] and [jaccardDistance]), with the default [eta = 1] and
    [top_k = 0] of the call: the scores and the two thresholds are
    converted to C floats; the call raises [cv2.error] unless both
    thresholds are at least 0; the indices whose score is strictly
    greater than [score_threshold] are ordered by descending score with a
    stable sort, and an index is retained when its overlap with every
    index retained so far is at most [nms_threshold].  The rectangles
    hold the ints of the boxes, which lie in the image, so that the int
    arithmetic of the library does not overflow. *)

Definition rect_area (b : box) : Z :=
  let '(_, _, w, h) := b in w * h.

Definition rect_inter (a b : box) : box :=
  let '(ax, ay, aw, ah) := a in
  let '(bx, by_, bw, bh) := b in
  let x1 := Z.max ax bx in
  let y1 := Z.max ay by_ in
  let w := Z.min (ax + aw) (bx + bw) - x1 in
  let h := Z.min (ay + ah) (by_ + bh) - y1 in
  if (w <=? 0) || (h <=? 0) then (0, 0, 0, 0) else (x1, y1, w, h).

(** [jaccardDistance]: one minus the intersection over union, in double
    precision; 0 for two empty rectangles. *)
Definition jaccardDistance (a b : box) : float :=
  let Aa := rect_area a in
  let Ab := rect_area b in
  if Aa + Ab <=? 0 then zero
  else
    let Aab := of_Z (rect_area (rect_inter a b)) in
    sub (of_Z 1) (div Aab (sub (of_Z (Aa + Ab)) Aab)).

(** [rectOverlap]: [1.f - static_cast<float>(jaccardDistance(a, b))]. *)
Definition rectOverlap (a b : box) : float :=
  Single.sub (of_Z 1) (jaccardDistance a b).

(** Insertion of a scored index into a list sorted by descending score:
    behind every entry of strictly greater score, before the others. *)
Fixpoint insert_desc (p : float * nat) (l : list (float * nat))
  : list (float * nat) :=
  match l with
  | [] => [p]
  | q :: l' => if gt (fst q) (fst p) then q :: insert_desc p l' else p :: q :: l'
  end.

Definition stable_sort_desc (l : list (float * nat)) : list (float * nat) :=
  foldr insert_desc [] l.

Definition GetMaxScoreIndex (scores : list float) (threshold : float)
  : list (float * nat) :=
  stable_sort_desc
    (List.filter (fun p => gt (fst p) threshold)
       (imap (fun i sc => (sc, i)) scores)).

(** The loop of [NMSFast_]: [keep = overlap <= adaptive_threshold] against
    every index retained so far. *)
Fixpoint nms_loop (bboxes : list box) (thr : float) (order : list nat)
    (indices : list nat) : list nat :=
  match order with
  | [] => indices
  | idx :: rest =>
    let keep :=
      forallb (fun kept_idx =>
                 le (rectOverlap (nth idx bboxes (0, 0, 0, 0))
                                 (nth kept_idx bboxes (0, 0, 0, 0))) thr)
              indices in
    nms_loop bboxes thr rest (if keep then indices ++ [idx] else indices)
  end.

(** [cv2.dnn.NMSBoxes(bboxes, scores, score_threshold, nms_threshold)] on
    Python floats. *)
Definition NMSBoxes (bboxes : list box) (scores : list float)
    (score_threshold nms_threshold : float) : result (list nat) :=
  let scores := Single.round <$> scores in
  let score_threshold := Single.round score_threshold in
  let nms_threshold := Single.round nms_threshold in
  if ge score_threshold zero && ge nms_threshold zero then
    Ok (nms_loop bboxes nms_threshold
          (snd <$> GetMaxScoreIndex scores score_threshold) [])
  else Raise CvError.

(** ** [postprocess_image]: counting and rendering the survivors *)

Local Open Scope py_scope.

(** Truth value of a label string: it is non-empty. *)
Definition text_nonempty (t : list piece) : bool :=
  existsb (fun p => match p with
                    | Str s => negb (String.eqb s "")
                    | Conf2 _ => true
                    end) t.

(** How a variant builds the result entry and the drawing of a survivor,
    from its class name and the entries of the parallel lists. *)
Definition renderer : Type := string -> candidate -> detection * list draw_op.

(** The counter updates of one survivor: [total_objects += 1], then the
    class name, and [objects_by_class[class_name] += 1] when the index is
    in the label table. *)
Definition count_survivor (cfg : config) (c : candidate) : M state string :=
  modify (fun s => set_total_objects (S (total_objects s)) s) ;;;
  match class_labels cfg !! cand_class c with
  | Some class_name =>
    s <- get ;;
    match objects_by_class s !! class_name with
    | Some n =>
      modify (set_objects_by_class (<[class_name := S n]> (objects_by_class s))) ;;;
      ret class_name
    | None => raise KeyError
    end
  | None => ret "Unknown"%string
  end.

(** The loop [for i in indices_nms]. *)
Fixpoint survivors_loop (cfg : config) (render : renderer)
    (cands : list candidate) (indices_nms : list nat)
    (detections : list detection) (im : image)
  : M state (list detection * image) :=
  match indices_nms with
  | [] => ret (detections, im)
  | i :: rest =>
    match cands !! i with
    | None =>
      modify (fun s => set_total_objects (S (total_objects s)) s) ;;;
      raise IndexError
    | Some c =>
      class_name <- count_survivor cfg c ;;
      let '(d, ops) := render class_name c in
      survivors_loop cfg render cands rest (detections ++ [d])
        (foldl (fun im' op => draw op im') im ops)
    end
  end.

Definition nan_caption : list piece :=
  [Str "No valid detections (NaN output)"].

(** The method, with the class-score threshold [sth] and the rendering of
    the variant left open.  [original_dimensions] is (height, width). *)
Definition postprocess_with (sth : float) (render : renderer)
    (cfg : config) (w : world) (image_path : string)
    (yolov5_output : tensor) (original_dimensions : Z * Z)
    (output_path : string) : M state (list detection) :=
  if has_nan yolov5_output then
    modify (fun s => set_invalid_outputs (S (invalid_outputs s)) s) ;;;
    match imread w image_path with
    | None => raise AttributeError
    | Some im =>
      imwrite w output_path
        (draw (PutText nan_caption (im_width im / 10) (im_height im / 2)) im) ;;;
      ret []
    end
  else
    match imread w image_path with
    | None => ret []
    | Some im =>
      let '(height, width) := original_dimensions in
      s <- get ;;
      match resized_img s with
      | None => raise AttributeError
      | Some (resized_img_w, resized_img_h) =>
        scale_x <- lift (py_truediv_int (of_Z width) resized_img_w) ;;
        scale_y <- lift (py_truediv_int (of_Z height) resized_img_h) ;;
        cands <- lift (decode_rows (conf_th cfg) sth width height
                         scale_x scale_y yolov5_output) ;;
        drawn <-
          (if (0 <? length cands)%nat then
             let indices_nms :=
               match NMSBoxes (cand_box <$> cands) (cand_conf <$> cands)
                       (conf_th cfg) (nms_th cfg) with
               | Ok indices => indices
               | Raise _ => []   (* except cv2.error: indices_nms = [] *)
               end in
             survivors_loop cfg render cands indices_nms [] im
           else ret ([], im)) ;;
        imwrite w output_path (snd drawn) ;;;
        ret (fst drawn)
      end
    end.

Definition box_rectangle (b : box) : draw_op :=
  let '(x, y, w, h) := b in Rectangle x y (x + w) (y + h) 3.

Definition label_ops (label : list piece) (b : box) : list draw_op :=
  let '(x, y, _, _) := b in [TextBackground label x y; PutText label x (y - 5)].

(** ** Paths and file names *)

Definition is_slash (c : ascii) : bool := Ascii.eqb c "/"%char.

(** [os.path.basename]: what follows the last slash. *)
Fixpoint basename_from (acc p : string) : string :=
  match p with
  | EmptyString => acc
  | String c rest =>
    if is_slash c then basename_from EmptyString rest
    else basename_from (acc +:+ String c EmptyString) rest
  end.

Definition basename (p : string) : string := basename_from EmptyString p.

Definition last_is_slash (p : string) : bool :=
  match String.rev p with
  | String c _ => is_slash c
  | EmptyString => false
  end.

(** [os.path.join] of two components. *)
Definition path_join (a b : string) : string :=
  match b with
  | String c _ =>
    if is_slash c then b
    else if String.eqb a "" || last_is_slash a then a +:+ b
    else a +:+ "/" +:+ b
  | EmptyString =>
    if String.eqb a "" || last_is_slash a then a else a +:+ "/"
  end.

(** [str.lower] on the ASCII letters. *)
Definition lower_char (c : ascii) : ascii :=
  let n := nat_of_ascii c in
  if (65 <=? n)%nat && (n <=? 90)%nat then ascii_of_nat (n + 32) else c.

Fixpoint lower (s : string) : string :=
  match s with
  | EmptyString => EmptyString
  | String c rest => String (lower_char c) (lower rest)
  end.

(** [str.endswith]. *)
Definition endswith (s ext : string) : bool :=
  String.prefix (String.rev ext) (String.rev s).

Definition image_extensions : list string :=
  [".jpg"; ".jpeg"; ".png"; ".bmp"]%string.

Definition is_image_name (filename : string) : bool :=
  existsb (fun ext => endswith (lower filename) ext) image_extensions.

(** [get_images_from_folder]: the entries of the folder that carry an image
    extension, joined to the folder path, in the order of [os.listdir];
    the exception of [os.listdir] is not caught. *)
Definition get_images_from_folder (w : world) (folder_path : string)
  : result (list string) :=
  match os_listdir w folder_path with
  | Raise e => Raise e
  | Ok names =>
    Ok (path_join folder_path <$> List.filter is_image_name names)
  end.

(** ** Preprocessing, metrics and the two inference entry points *)

(** [preprocess_image], up to the tensor handed to the engine: it returns
    the original dimensions (height, width) and records the shape of the
    resized image, whose rows are [input_shape[3]] and columns
    [input_shape[2]]. *)
Definition preprocess_image (cfg : config) (w : world) (image_path : string)
  : M state (Z * Z) :=
  match imread w image_path with
  | None => raise ValueError
  | Some img =>
    match input_shape cfg !! 2%nat, input_shape cfg !! 3%nat with
    | Some d2, Some d3 =>
      if (d2 <=? 0) || (d3 <=? 0) then raise CvError
      else
        modify (set_resized_img (Some (d3, d2))) ;;;
        ret (im_height img, im_width img)
    | _, _ => raise IndexError
    end
  end.

(** [generate_metrics]: [None] is the empty dictionary. *)
Definition generate_metrics : M state (option metrics) :=
  s <- get ;;
  if (0 <? num_frames s)%nat then
    average_fps <-
      lift (py_truediv (of_Z (Z.of_nat (num_frames s))) (total_time s)) ;;
    average_inference_time <-
      lift (py_truediv_int (inference_time s) (Z.of_nat (num_frames s))) ;;
    ret (Some {| m_num_frames := num_frames s;
                 m_total_time := total_time s;
                 m_inference_time := inference_time s;
                 m_average_fps := average_fps;
                 m_average_inference_time := average_inference_time;
                 m_total_objects := total_objects s;
                 m_invalid_outputs := invalid_outputs s;
                 m_objects_by_class := objects_by_class s |})
  else ret None.

Inductive image_result : Type :=
| ImageOk (input_path output_path : string) (detections : list detection)
| ImageFailed (input_path : string) (error : exn).

Inductive folder_result : Type :=
| FolderOk (m : option metrics) (results : list image_result)
| FolderEmpty.

Definition is_failed (r : image_result) : bool :=
  match r with ImageFailed _ _ => true | ImageOk _ _ _ => false end.

Definition result_path (r : image_result) : string :=
  match r with ImageOk p _ _ => p | ImageFailed p _ => p end.

Definition result_detections (r : image_result) : list detection :=
  match r with ImageOk _ _ d => d | ImageFailed _ _ => [] end.

Definition add_total_time (dt : float) : M state unit :=
  modify (fun s => set_total_time (add (total_time s) dt) s).

Definition add_inference_time (dt : float) : M state unit :=
  modify (fun s => set_inference_time (add (inference_time s) dt) s).

(** The body of the [try] block shared by [infer_single_image] of
    [detect_trt_server.py] and by the loop of [infer_folder] of
    [detect_trt_fp32_server.py]: preprocess, run the engine, account the
    two durations, postprocess. *)
Definition run_image
    (postprocess : world -> string -> tensor -> Z * Z -> string ->
                   M state (list detection))
    (cfg : config) (w : world) (image_path save_dir_path : string)
  : M state image_result :=
  original_dimensions <- preprocess_image cfg w image_path ;;
  add_total_time (preprocess_time w image_path) ;;;
  match engine_output w image_path with
  | None => raise EngineError
  | Some output =>
    add_inference_time (engine_time w image_path) ;;;
    add_total_time (engine_time w image_path) ;;;
    let output_path := path_join save_dir_path (basename image_path) in
    detections <- postprocess w image_path output original_dimensions
                    output_path ;;
    ret (ImageOk image_path output_path detections)
  end.

(** The loop over [image_paths] of [infer_folder]. *)
Fixpoint folder_loop (process : string -> M state image_result)
    (image_paths : list string) (results : list image_result)
  : M state (list image_result) :=
  match image_paths with
  | [] => ret results
  | image_path :: rest =>
    r <- try_catch (process image_path)
           (fun e => ret (ImageFailed image_path e)) ;;
    folder_loop process rest (results ++ [r])
  end.

(** The attributes after [__init__]: the counters are reset, no image has
    been preprocessed and nothing has been written. *)
Definition new_inferencer (cfg : config) : state :=
  snd (reset_counters cfg
         {| total_objects := 0; objects_by_class := ∅; invalid_outputs := 0;
            total_time := zero; inference_time := zero; num_frames := 0;
            resized_img := None; written := ∅; logs := ∅ |}).

(** ** [detect_trt_server.py] *)

Module Server.

(** [detect_trt_server.py]: the label follows [show_labels] and
    [show_conf]; the entry keeps the box in model-input coordinates. *)
Definition make_label (cfg : config) (class_name : string) (conf : float)
  : list piece :=
  let label := if show_labels cfg then [Str class_name] else [] in
  if show_conf cfg then
    if text_nonempty label then label ++ [Str ", conf: "; Conf2 conf]
    else [Str "conf: "; Conf2 conf]
  else label.

Definition render (cfg : config) : renderer :=
  fun class_name c =>
    let label := make_label cfg class_name (cand_conf c) in
    ({| det_class := class_name; det_confidence := cand_conf c;
        det_bbox := cand_box c; det_yolo_bbox := Some (cand_yolo c) |},
     box_rectangle (cand_box c) ::
       (if text_nonempty label then label_ops label (cand_box c) else [])).

(** The class score is compared with [conf_th]. *)
Definition postprocess_image (cfg : config) :=
  postprocess_with (conf_th cfg) (render cfg) cfg.

(** [infer_single_image]: the output directory is created before the
    [try] block, so the exception of [os.makedirs] escapes the method. *)
Definition infer_single_image (cfg : config) (w : world)
    (image_path save_dir_path : string) (reset : bool)
  : M state image_result :=
  makedirs w save_dir_path ;;;
  (if reset then reset_counters cfg ;;; modify (set_num_frames 1)
   else ret tt) ;;;
  try_catch
    (run_image (postprocess_image cfg) cfg w image_path save_dir_path)
    (fun e => ret (ImageFailed image_path e)).

(** [infer_folder]: the exceptions of [os.makedirs], of [os.listdir] and
    of [generate_metrics] escape the method. *)
Definition infer_folder (cfg : config) (w : world)
    (folder_path save_dir_path : string) : M state folder_result :=
  makedirs w save_dir_path ;;;
  reset_counters cfg ;;;
  image_paths <- lift (get_images_from_folder w folder_path) ;;
  modify (set_num_frames (length image_paths)) ;;;
  match image_paths with
  | [] => ret FolderEmpty
  | _ :: _ =>
    results <-
      folder_loop
        (fun image_path =>
           infer_single_image cfg w image_path save_dir_path false)
        image_paths [] ;;
    m <- generate_metrics ;;
    ret (FolderOk m results)
  end.

(** *** [YOLOv5Server]: the detection log *)

Inductive cell : Type :=
| CStr (s : string)
| CInt (z : Z)
| CFloat (x : float).

(** The server: its inferencer and the file at [csv_path], [None] while
    the file does not exist, else its rows, first row first. *)
Record server : Type := {
  inferencer : state;
  csv_file : option (list (list cell))
}.

Definition set_inferencer (v : state) (sv : server) : server :=
  {| inferencer := v; csv_file := csv_file sv |}.

Definition set_csv_file (v : option (list (list cell))) (sv : server)
  : server :=
  {| inferencer := inferencer sv; csv_file := v |}.

(** A method of the inferencer called through [self.inferencer]. *)
Definition on_inferencer {A} (c : M state A) : M server A :=
  fun sv =>
    let '(r, s') := c (inferencer sv) in (r, set_inferencer s' sv).

Definition csv_header : list cell :=
  CStr <$> ["image_file"; "class"; "confidence"; "x"; "y"; "width"; "height";
            "center_x_norm"; "center_y_norm"; "width_norm";
            "height_norm"]%string.

(** [_init_csv_file]: mode ['w'] behind an existence test. *)
Definition _init_csv_file : M server unit :=
  modify (fun sv =>
    match csv_file sv with
    | None => set_csv_file (Some [csv_header]) sv
    | Some _ => sv
    end).

(** The row of one detection; a missing ['yolo_bbox'] key raises. *)
Definition detection_row (image_filename : string) (d : detection)
  : result (list cell) :=
  match det_yolo_bbox d with
  | None => Raise KeyError
  | Some (cxn, cyn, wn, hn) =>
    let '(x, y, width, height) := det_bbox d in
    Ok [CStr image_filename; CStr (det_class d); CFloat (det_confidence d);
        CInt x; CInt y; CInt width; CInt height;
        CFloat cxn; CFloat cyn; CFloat wn; CFloat hn]
  end.

(** [writer.writerow] on a file opened in mode ['a']. *)
Definition writerow (r : list cell) : M server unit :=
  modify (fun sv => set_csv_file (Some (default [] (csv_file sv) ++ [r])) sv).

Fixpoint write_rows (image_filename : string) (detections : list detection)
  : M server unit :=
  match detections with
  | [] => ret tt
  | d :: rest =>
    r <- lift (detection_row image_filename d) ;;
    writerow r ;;;
    write_rows image_filename rest
  end.

(** [_write_detections_to_csv]: opening in mode ['a'] creates a missing
    file and keeps the content of an existing one. *)
Definition _write_detections_to_csv (image_path : string)
    (detections : list detection) : M server unit :=
  match detections with
  | [] => ret tt
  | _ :: _ =>
    let image_filename := basename image_path in
    modify (fun sv => set_csv_file (Some (default [] (csv_file sv))) sv) ;;;
    write_rows image_filename detections
  end.

(** [_process_single_image]. *)
Definition _process_single_image (cfg : config) (w : world)
    (output_dir image_path : string) : M server unit :=
  try_catch
    (if negb (path_exists w image_path) then ret tt
     else
       r <- on_inferencer
              (infer_single_image cfg w image_path output_dir true) ;;
       match r with
       | ImageOk _ _ detections =>
         _write_detections_to_csv image_path detections
       | ImageFailed _ _ => ret tt
       end)
    (fun _ => ret tt).

Fixpoint write_results (results : list image_result) : M server unit :=
  match results with
  | [] => ret tt
  | img_result :: rest =>
    match img_result with
    | ImageOk input_path _ detections =>
      _write_detections_to_csv input_path detections
    | ImageFailed _ _ => ret tt
    end ;;;
    write_results rest
  end.

(** [_process_folder]. *)
Definition _process_folder (cfg : config) (w : world)
    (output_dir folder_path : string) : M server unit :=
  try_catch
    (if negb (path_exists w folder_path) then ret tt
     else
       r <- on_inferencer (infer_folder cfg w folder_path output_dir) ;;
       match r with
       | FolderOk _ results => write_results results
       | FolderEmpty => ret tt
       end)
    (fun _ => ret tt).

(** The commands of [_process_commands] that reach the pipeline. *)
Inductive command : Type :=
| ImageCommand (image_path : string)
| FolderCommand (folder_path : string).

Definition process_command (cfg : config) (w : world) (output_dir : string)
    (c : command) : M server unit :=
  match c with
  | ImageCommand image_path => _process_single_image cfg w output_dir image_path
  | FolderCommand folder_path => _process_folder cfg w output_dir folder_path
  end.

Fixpoint process_commands (cfg : config) (w : world) (output_dir : string)
    (cs : list command) : M server unit :=
  match cs with
  | [] => ret tt
  | c :: rest =>
    process_command cfg w output_dir c ;;;
    process_commands cfg w output_dir rest
  end.

End Server.

(** ** [detect_trt_fp32_server.py] *)

Module Fp32Server.

(** [detect_trt_fp32_server.py]: the label always holds the class name and
    the confidence; the [astype(np.float32)] of a half-precision output
    is exact and does not appear. *)
Definition render : renderer :=
  fun class_name c =>
    let label := [Str class_name; Str ", conf: "; Conf2 (cand_conf c)] in
    ({| det_class := class_name; det_confidence := cand_conf c;
        det_bbox := cand_box c; det_yolo_bbox := None |},
     box_rectangle (cand_box c) :: label_ops label (cand_box c)).

(** The class score is compared with [score_th]. *)
Definition postprocess_image (cfg : config) :=
  postprocess_with (score_th cfg) render cfg.

(** [save_logs]: nothing is written for an empty dictionary; otherwise
    [open(log_file, "w")] raises, or the report replaces the file. *)
Definition save_logs (cfg : config) (w : world) (m : option metrics)
    (log_file : string) : M state unit :=
  match m with
  | None => ret tt
  | Some mt =>
    if can_open w log_file then
      modify (fun s =>
        set_logs (<[log_file := {| rep_conf_th := conf_th cfg;
                                   rep_score_th := score_th cfg;
                                   rep_nms_th := nms_th cfg;
                                   rep_metrics := mt |}]> (logs s)) s)
    else raise OSError
  end.

(** [infer_folder]: the loop body repeats the steps of the single-image
    path without resetting the counters.  The exceptions of
    [os.makedirs], [os.listdir], [generate_metrics] and [save_logs] escape
    the method. *)
Definition infer_folder (cfg : config) (w : world)
    (folder_path save_dir_path : string) : M state folder_result :=
  makedirs w save_dir_path ;;;
  reset_counters cfg ;;;
  image_paths <- lift (get_images_from_folder w folder_path) ;;
  modify (set_num_frames (length image_paths)) ;;;
  match image_paths with
  | [] => ret FolderEmpty
  | _ :: _ =>
    results <-
      folder_loop
        (fun image_path =>
           run_image (postprocess_image cfg) cfg w image_path save_dir_path)
        image_paths [] ;;
    m <- generate_metrics ;;
    save_logs cfg w m (path_join save_dir_path "inference_logs.txt") ;;;
    ret (FolderOk m results)
  end.

End Fp32Server.

(** ** Strings of the command line *)

(** The methods of [str] that the command loop and the scripts call, on
    ASCII text: the console lines and the file names are taken as
    sequences of characters below 128, on which [str.isspace] holds of the
    codes 9 to 13 and 28 to 32. *)
Module PyStr.

Definition is_space (c : ascii) : bool :=
  let n := nat_of_ascii c in
  ((9 <=? n)%nat && (n <=? 13)%nat) || ((28 <=? n)%nat && (n <=? 32)%nat).

Fixpoint lstrip (s : string) : string :=
  match s with
  | EmptyString => EmptyString
  | String c rest => if is_space c then lstrip rest else s
  end.

Definition rstrip (s : string) : string :=
  String.rev (lstrip (String.rev s)).

(** [str.strip()]. *)
Definition strip (s : string) : string := rstrip (lstrip s).

(** [str.split()]: the maximal runs of characters that are not white
    space, in order; [cur] is the run being read. *)
Fixpoint split_from (cur s : string) : list string :=
  match s with
  | EmptyString => if String.eqb cur "" then [] else [cur]
  | String c rest =>
    if is_space c then
      if String.eqb cur "" then split_from "" rest
      else cur :: split_from "" rest
    else split_from (cur +:+ String c EmptyString) rest
  end.

Definition split (s : string) : list string := split_from "" s.

(** [str.startswith]. *)
Definition startswith (s prefix : string) : bool := String.prefix prefix s.

(** [list.index]: the first position of [x]; [None] is [ValueError]. *)
Fixpoint index (x : string) (l : list string) : option nat :=
  match l with
  | [] => None
  | y :: rest => if String.eqb y x then Some 0%nat else S <$> index x rest
  end.

End PyStr.

(** [os.path.dirname]: the path up to its last slash, without the slashes
    that end it unless it consists of slashes only. *)
Fixpoint drop_until_slash (reversed : string) : string :=
  match reversed with
  | EmptyString => EmptyString
  | String c rest => if is_slash c then reversed else drop_until_slash rest
  end.

Fixpoint lstrip_slashes (reversed : string) : string :=
  match reversed with
  | EmptyString => EmptyString
  | String c rest => if is_slash c then lstrip_slashes rest else reversed
  end.

Definition dirname (p : string) : string :=
  let head := drop_until_slash (String.rev p) in
  match lstrip_slashes head with
  | EmptyString => String.rev head
  | String c rest => String.rev (String c rest)
  end.

(** ** The console of [detect_trt_server.py] *)

Module ServerConsole.

(** [YOLOv5Server.__init__]: the choice of [self.output_dir].  [timestamp]
    is what [time.strftime] answers; [output_dir] is the constructor
    argument, [None] or the empty string when no name is given. *)
Definition detections_dir : string := "Detections".

Definition choose_output_dir (w : world) (timestamp : string)
    (output_dir : option string) : string :=
  match output_dir with
  | Some (String c rest) =>
    let temp_output_dir := path_join detections_dir (String c rest) in
    if path_exists w temp_output_dir then
      path_join detections_dir (String c rest +:+ "_" +:+ timestamp)
    else temp_output_dir
  | _ => path_join detections_dir ("results_" +:+ timestamp)
  end.

Definition csv_path (output_dir : string) : string :=
  path_join output_dir "detections.csv".

(** What one line typed at the prompt asks for. *)
Inductive request : Type :=
| Dispatch (c : Server.command)
| Quit
| Ignored.

(** The argument that follows [flag] in [args]: none when there are fewer
    than three words, when [flag] is not a word ([ValueError]) or when it
    is the last word. *)
Definition flag_argument (flag : string) (args : list string)
  : option string :=
  if (length args <? 3)%nat then None
  else
    match PyStr.index flag args with
    | None => None
    | Some i => args !! (i + 1)%nat
    end.

(** The body of the loop of [_process_commands] up to the call it makes. *)
Definition read_command (line : string) : request :=
  let command := lower (PyStr.strip line) in
  if PyStr.startswith command "image" then
    match flag_argument "--image" (PyStr.split command) with
    | Some image_path => Dispatch (Server.ImageCommand image_path)
    | None => Ignored
    end
  else if PyStr.startswith command "folder" then
    match flag_argument "--folder" (PyStr.split command) with
    | Some folder_path => Dispatch (Server.FolderCommand folder_path)
    | None => Ignored
    end
  else if String.eqb command "quit" then Quit
  else Ignored.

(** [_process_commands] on the lines typed at the prompt, first line
    first.  It returns [self.running]: [false] once [quit] has been read,
    [true] when the lines are used up and the loop waits for the next
    one. *)
Fixpoint _process_commands (cfg : config) (w : world) (output_dir : string)
    (lines : list string) : M Server.server bool :=
  match lines with
  | [] => ret true
  | line :: rest =>
    match read_command line with
    | Quit => ret false
    | Ignored => _process_commands cfg w output_dir rest
    | Dispatch c =>
      try_catch (Server.process_command cfg w output_dir c)
        (fun _ => ret tt) ;;;
      _process_commands cfg w output_dir rest
    end
  end.

End ServerConsole.

(** ** The single-image path of [detect_trt_fp32_server.py] *)

Module Fp32Single.

(** The dictionary returned by [infer_single_image]. *)
Inductive single_result : Type :=
| SingleOk (input_path output_path : string) (m : option metrics)
           (detections : list detection)
| SingleFailed (input_path : string) (error : exn).

(** The body of the [try] block.  The inference time is assigned, not
    accumulated, and the metrics and the log are produced inside the
    block. *)
Definition run_single (cfg : config) (w : world)
    (image_path save_dir_path : string) : M state single_result :=
  original_dimensions <- preprocess_image cfg w image_path ;;
  add_total_time (preprocess_time w image_path) ;;;
  match engine_output w image_path with
  | None => raise EngineError
  | Some output =>
    modify (set_inference_time (engine_time w image_path)) ;;;
    add_total_time (engine_time w image_path) ;;;
    let output_path := path_join save_dir_path (basename image_path) in
    detections <- Fp32Server.postprocess_image cfg w image_path output
                    original_dimensions output_path ;;
    m <- generate_metrics ;;
    Fp32Server.save_logs cfg w m
      (path_join save_dir_path "inference_logs.txt") ;;;
    ret (SingleOk image_path output_path m detections)
  end.

(** [infer_single_image]: the output directory is created before the
    [try] block, so the exception of [os.makedirs] escapes the method. *)
Definition infer_single_image (cfg : config) (w : world)
    (image_path save_dir_path : string) : M state single_result :=
  makedirs w save_dir_path ;;;
  reset_counters cfg ;;;
  modify (set_num_frames 1) ;;;
  try_catch (run_single cfg w image_path save_dir_path)
    (fun e => ret (SingleFailed image_path e)).

(** [_handle_image_command] on the parsed arguments [--image] and
    [--output], up to the result it reports; the optional JSON copy of the
    result is left out. *)
Definition _handle_image_command (cfg : config) (w : world)
    (image output : string) : M state single_result :=
  infer_single_image cfg w image (dirname output).

End Fp32Single.

(** ** [utils/compare_detections.py] *)

Module CompareDetections.

(** What the script finds on disk: the entries of a folder and, for a
    path, the size (width, height) of the image [Image.open] returns,
    [None] when it raises. *)
Record disk : Type := {
  entries_of : string -> list string;
  size_of : string -> option (Z * Z)
}.

(** Why the script stops: an image could not be opened, or an exception
    of the arithmetic or of [resize]. *)
Inductive abort : Type :=
| CannotOpen (path : string)
| Raised (e : exn).

(** A combined image: the sizes of the two halves as pasted, the second
    at the right of the first, and the size of the canvas. *)
Record side_by_side : Type := {
  left_size : Z * Z;
  right_size : Z * Z;
  canvas : Z * Z
}.

(** [sorted([img for img in os.listdir(folder)
            if img.lower().endswith('.jpg')])]. *)
Definition jpg_images (d : disk) (folder : string) : list string :=
  merge_sort String.le
    (List.filter (fun img => endswith (lower img) ".jpg") (entries_of d folder)).

(** [int(width * new_height / height)]: the quotient of two ints is the
    float nearest to it, which is the quotient of the two floats as long
    as the ints are below 2^53, as sizes of images are. *)
Definition scaled_width (width new_height height : Z) : result Z :=
  match py_truediv (of_Z (width * new_height)) (of_Z height) with
  | Raise e => Raise e
  | Ok q => py_int q
  end.

(** [img.resize((width, new_height))] of an image of the given size:
    Pillow refuses a side below one pixel. *)
Definition resize (size : Z * Z) (new_height : Z) : result (Z * Z) :=
  match scaled_width (fst size) new_height (snd size) with
  | Raise e => Raise e
  | Ok width =>
    if (width <? 1) || (new_height <? 1) then Raise ValueError
    else Ok (width, new_height)
  end.

(** The two images brought to a common height and placed side by side. *)
Definition combine (size1 size2 : Z * Z) : result side_by_side :=
  let paste img1 img2 :=
    {| left_size := img1; right_size := img2;
       canvas := (fst img1 + fst img2, snd img1) |} in
  if negb (snd size1 =? snd size2) then
    let new_height := Z.min (snd size1) (snd size2) in
    match resize size1 new_height with
    | Raise e => Raise e
    | Ok img1 =>
      match resize size2 new_height with
      | Raise e => Raise e
      | Ok img2 => Ok (paste img1 img2)
      end
    end
  else Ok (paste size1 size2).

(** The loop over [images1]: the files saved, oldest first, and the
    exception that stopped it, if any. *)
Fixpoint compare_loop (d : disk) (folder1 folder2 save_folder : string)
    (images2 images1 : list string)
    (saved : list (string * side_by_side))
  : list (string * side_by_side) * option abort :=
  match images1 with
  | [] => (saved, None)
  | img_name :: rest =>
    if bool_decide (img_name ∈ images2) then
      let img1_path := path_join folder1 img_name in
      let img2_path := path_join folder2 img_name in
      match size_of d img1_path with
      | None => (saved, Some (CannotOpen img1_path))
      | Some size1 =>
        match size_of d img2_path with
        | None => (saved, Some (CannotOpen img2_path))
        | Some size2 =>
          match combine size1 size2 with
          | Raise e => (saved, Some (Raised e))
          | Ok combined_img =>
            compare_loop d folder1 folder2 save_folder images2 rest
              (saved ++ [(path_join save_folder img_name, combined_img)])
          end
        end
      end
    else compare_loop d folder1 folder2 save_folder images2 rest saved
  end.

(** [compare_images], for folders that can be listed and an output folder
    that exists or can be created. *)
Definition compare_images (d : disk) (folder1 folder2 save_folder : string)
  : list (string * side_by_side) * option abort :=
  compare_loop d folder1 folder2 save_folder
    (jpg_images d folder2) (jpg_images d folder1) [].

End CompareDetections.

(** ** The download scripts *)

Module DownloadModels.

(** The address and the file name of each model file. *)
Definition model_files : list (string * string) :=
  [("https://drive.google.com/uc?id=199GTyTxzaTxSp6QhKvgdIbYYgs9LpD7t",
    "petris_yolov5x.pt");
   ("https://drive.google.com/uc?id=1qx567W8z4xtbN3X9JhmRZiMmEBLb7f0T",
    "petris_yolov5x_fp16.onnx");
   ("https://drive.google.com/uc?id=1PsMTw9vmfGM7j5LLFFiZadvA7_rBWhN0",
    "petris_yolov5x_fp32.onnx");
   ("https://drive.google.com/uc?id=1KNQwq29hXc4nyMnTsmccHBOGq4hsTdfO",
    "petris_yolov5x_fp16.engine");
   ("https://drive.google.com/uc?id=1CIql-aBZStBnAjMO6jrzQnri_WhoeTS6",
    "petris_yolov5x_fp32.engine");
   ("https://drive.google.com/uc?id=1580AgoYQuoL2BKhLW0fB8fQAibn9YffK",
    "petris_data.yaml")]%string.

(** [files] of [Models/download_models.py]: the bare file names. *)
Definition files : list (string * string) := model_files.







End DownloadModels.

(** ** Concrete scenarios *)

Module Scenario.

(** Two classes, a 640 by 640 model input, the default thresholds 0.25 and
    0.45. *)
Definition cfg : config :=
  {| class_labels := ["person"; "car"]%string;
     input_shape := [1; 3; 640; 640];
     conf_th := ratio 1 4;
     score_th := ratio 1 4;
     nms_th := ratio 45 100;
     show_labels := true;
     show_conf := true |}.

Definition picture : image :=
  {| im_height := 640; im_width := 640; im_drawn := [] |}.

(** A decimal literal as an entry of the raw output: the single-precision
    number nearest to it. *)
Definition f32 (n d : Z) : float := Single.round (ratio n d).

(** A 100 by 100 box at the origin, objectness 0.9, class 0. *)
Definition row_a : row :=
  [of_Z 50; of_Z 50; of_Z 100; of_Z 100; f32 9 10; f32 9 10; f32 1 10].

(** A 100 by 70 box at the origin, objectness 0.8, class 0: its
    intersection over union with [row_a] is 0.7. *)
Definition row_b : row :=
  [of_Z 50; of_Z 35; of_Z 100; of_Z 70; f32 8 10; f32 9 10; f32 1 10].

(** The box of [row_b] with class 1. *)
Definition row_b_car : row :=
  [of_Z 50; of_Z 35; of_Z 100; of_Z 70; f32 8 10; f32 1 10; f32 9 10].

(** Objectness and class score exactly at the threshold 0.25. *)
Definition row_boundary : row :=
  [of_Z 50; of_Z 50; of_Z 100; of_Z 100; ratio 1 4; ratio 1 4; f32 1 10].




(** No NaN, but an infinite class score. *)
Definition row_inf : row :=
  [of_Z 50; of_Z 50; of_Z 100; of_Z 100; f32 9 10; pinf; f32 1 10].

Definition row_nan : row :=
  [nan; nan; nan; nan; nan; nan; nan].

(** A third class score: index 2 is outside the two-entry label table. *)
Definition row_unlabelled : row :=
  [of_Z 300; of_Z 300; of_Z 100; of_Z 100; f32 9 10;
   f32 1 10; f32 1 10; f32 9 10].

(** Every path exists and decodes to [picture], except ["in/2.jpg"], which
    cannot be read; every directory can be listed and created and every
    file written; the engine answers [output] for every image. *)
Definition world_with (names : list string) (output : tensor) : world :=
  {| path_exists := fun _ => true;
     can_listdir := fun _ => true;
     listdir := fun _ => names;
     can_makedirs := fun _ => true;
     imread := fun p => if String.eqb p "in/2.jpg" then None else Some picture;
     cv_imwrite := fun _ => Writes;
     can_open := fun _ => true;
     preprocess_time := fun _ => ratio 1 100;
     engine_output := fun _ => Some output;
     engine_time := fun _ => ratio 2 100 |}.

(** A file name with an extension. *)
Fixpoint has_dot (name : string) : bool :=
  match name with
  | EmptyString => false
  | String c rest => Ascii.eqb c "."%char || has_dot rest
  end.

(** The same machine, on which OpenCV has no encoder for a file name
    without an extension. *)
Definition codec_world (names : list string) (output : tensor) : world :=
  {| path_exists := fun _ => true;
     can_listdir := fun _ => true;
     listdir := fun _ => names;
     can_makedirs := fun _ => true;
     imread := fun p => if String.eqb p "in/2.jpg" then None else Some picture;
     cv_imwrite := fun p => if has_dot (basename p) then Writes else NoEncoder;
     can_open := fun _ => true;
     preprocess_time := fun _ => ratio 1 100;
     engine_output := fun _ => Some output;
     engine_time := fun _ => ratio 2 100 |}.

Definition three_images : list string := ["1.jpg"; "2.jpg"; "3.jpg"]%string.

(** A folder whose entries are listed out of lexicographic order, with a
    file that is not an image. *)
Definition unsorted_images : list string :=
  ["b.jpg"; "notes.txt"; "a.jpg"]%string.

(** The candidate decoded from [row_a]. *)
Definition cand_a : candidate :=
  {| cand_class := 0; cand_conf := f32 9 10; cand_box := (0, 0, 100, 100);
     cand_yolo := (of_Z 50, of_Z 50, of_Z 100, of_Z 100) |}.

(** The candidate decoded from [row_b]. *)
Definition cand_b : candidate :=
  {| cand_class := 0; cand_conf := f32 8 10; cand_box := (0, 0, 100, 70);
     cand_yolo := (of_Z 50, of_Z 35, of_Z 100, of_Z 70) |}.

(** Two candidates of an image of 1817 by 1823 pixels: the whole image
    and a box of 944 by 1579 pixels in its corner.  Their intersection
    over union is 1490576 / 3312391 = 0.450000015..., above 0.45. *)
Definition cand_whole : candidate :=
  {| cand_class := 0; cand_conf := f32 9 10; cand_box := (0, 0, 1817, 1823);
     cand_yolo := (of_Z 320, of_Z 320, of_Z 640, of_Z 640) |}.

Definition cand_corner : candidate :=
  {| cand_class := 0; cand_conf := f32 8 10; cand_box := (0, 0, 944, 1579);
     cand_yolo := (of_Z 166, of_Z 277, of_Z 332, of_Z 554) |}.

(** The candidate decoded from [row_boundary]. *)
Definition cand_boundary : candidate :=
  {| cand_class := 0; cand_conf := ratio 1 4; cand_box := (0, 0, 100, 100);
     cand_yolo := (of_Z 50, of_Z 50, of_Z 100, of_Z 100) |}.

Definition fresh : state := new_inferencer cfg.

(** The state once ["in/1.jpg"] has been preprocessed. *)
Definition prepared : state :=
  snd (preprocess_image cfg (world_with three_images []) "in/1.jpg" fresh).

(** Three frames counted while no time has been accumulated. *)
Definition zero_time : state := set_num_frames 3 fresh.

(** One frame processed in 0.03 seconds, 0.02 of them in the engine. *)
Definition timed : state :=
  set_num_frames 1
    (set_inference_time (ratio 2 100) (set_total_time (ratio 3 100) fresh)).

Definition fresh_server : Server.server :=
  {| Server.inferencer := fresh; Server.csv_file := None |}.

(** The server after [__init__]: the log holds its header. *)
Definition started_server : Server.server :=
  snd (Server._init_csv_file fresh_server).

End Scenario.


(** ** Further scenarios *)

Module Desk.

(** A machine on which no path exists. *)
Definition nothing_there : world :=
  {| path_exists := fun _ => false;
     can_listdir := fun _ => false;
     listdir := fun _ => [];
     can_makedirs := fun _ => true;
     imread := fun _ => None;
     cv_imwrite := fun _ => Writes;
     can_open := fun _ => true;
     preprocess_time := fun _ => zero;
     engine_output := fun _ => None;
     engine_time := fun _ => zero |}.

(** An earlier run has left [Detections/run1] behind. *)
Definition second_run : world :=
  {| path_exists := fun p => String.eqb p "Detections/run1";
     can_listdir := fun _ => false;
     listdir := fun _ => [];
     can_makedirs := fun _ => true;
     imread := fun _ => None;
     cv_imwrite := fun _ => Writes;
     can_open := fun _ => true;
     preprocess_time := fun _ => zero;
     engine_output := fun _ => None;
     engine_time := fun _ => zero |}.

(** Lines typed at the prompt. *)
Definition typed : list string :=
  ["  Image --image In/1.JPG "; "help"; "QUIT"; "folder --folder in"]%string.

End Desk.

(** Two result folders with different listings, and images of two sizes. *)
Module Shelf.

Definition disk : CompareDetections.disk :=
  {| CompareDetections.entries_of := fun folder =>
       if String.eqb folder "old" then ["b.jpg"; "a.JPG"; "notes.txt"]
       else ["a.JPG"; "c.jpg"; "b.jpg"];
     CompareDetections.size_of := fun p =>
       if String.eqb p "old/b.jpg" then Some (200, 100) else Some (100, 50) |}.



End Shelf.

(** ** Predicates and reference functions of the statements *)

(** What an emitted candidate says about its row. *)
Record emitted_from (cth sth : float) (width height : Z)
    (scale_x scale_y : float) (detect : row) (c : candidate) : Prop := {
  ef_no_nan : row_has_nan detect = false;
  ef_conf : detect !! 4%nat = Some (cand_conf c);
  ef_conf_th : lt (cand_conf c) cth = false;
  ef_class : argmax (drop 5 detect) = Ok (cand_class c);
  ef_score_th : lt (nth (cand_class c) (drop 5 detect) nan) (Single.round sth)
                = false;
  ef_yolo : let '(cx, cy, w, h) := cand_yolo c in
            take 4 detect = [cx; cy; w; h] /\
            forallb isfinite [cx; cy; w; h] = true /\
            scaled_box width height scale_x scale_y cx cy w h = Ok (cand_box c);
  ef_positive : let '(_, _, w, h) := cand_box c in 0 < w /\ 0 < h
}.

(** The box invariant of a candidate, for an image of the given size. *)
Definition box_within (width height : Z) (b : box) : Prop :=
  let '(x, y, w, h) := b in
  0 <= x /\ 0 <= y /\ x + w <= width /\ y + h <= height /\ 0 < w /\ 0 < h.


(** Every label of the table is a key of [objects_by_class], as
    [reset_counters] leaves it. *)
Definition labels_counted (cfg : config) (s : state) : Prop :=
  forall name, name ∈ class_labels cfg -> is_Some (objects_by_class s !! name).

(** The sum of all counts in [objects_by_class]. *)
Definition class_sum (s : state) : nat :=
  map_fold (fun _ n acc => (n + acc)%nat) 0%nat (objects_by_class s).

(** The class name given to a survivor. *)
Definition class_name_of (cfg : config) (c : candidate) : string :=
  default "Unknown"%string (class_labels cfg !! cand_class c).

Definition in_label_table (cfg : config) (c : candidate) : bool :=
  bool_decide (cand_class c < length (class_labels cfg))%nat.

(** The state after the counter updates of one survivor, and of a list of
    survivors, when no lookup fails. *)
Definition count_one (cfg : config) (c : candidate) (s : state) : state :=
  let s1 := set_total_objects (S (total_objects s)) s in
  match class_labels cfg !! cand_class c with
  | Some name =>
    set_objects_by_class
      (<[name := S (default 0%nat (objects_by_class s1 !! name))]>
         (objects_by_class s1)) s1
  | None => s1
  end.

Definition count_all (cfg : config) (cs : list candidate) (s : state) : state :=
  foldl (fun s' c => count_one cfg c s') s cs.

Definition render_one (cfg : config) (render : renderer) (c : candidate)
  : detection * list draw_op :=
  render (class_name_of cfg c) c.

Definition draw_all (cfg : config) (render : renderer) (cs : list candidate)
    (im : image) : image :=
  foldl (fun im' c =>
           foldl (fun im'' op => draw op im'') im' (snd (render_one cfg render c)))
        im cs.

(** The result entries of a list of survivors. *)
Definition entries (cfg : config) (render : renderer) (cs : list candidate)
  : list detection :=
  (fun c => fst (render_one cfg render c)) <$> cs.

(** The fields the survivor loop leaves alone. *)
Definition same_run (s s' : state) : Prop :=
  invalid_outputs s' = invalid_outputs s /\
  total_time s' = total_time s /\
  inference_time s' = inference_time s /\
  num_frames s' = num_frames s /\
  resized_img s' = resized_img s /\
  written s' = written s /\
  logs s' = logs s.

(** The entries of a variant keep the confidence and the box of the
    candidate. *)
Definition faithful (render : renderer) : Prop :=
  forall name c,
    det_confidence (fst (render name c)) = cand_conf c /\
    det_bbox (fst (render name c)) = cand_box c /\
    det_class (fst (render name c)) = name.

(** Descending order of two scored indices: the second is not strictly
    greater than the first. *)
Definition not_above (p q : float * nat) : Prop := gt (fst q) (fst p) = false.


(** The indices the suppression routine retains among the candidates of a
    frame, and the candidates they select. *)
Definition retained_indices (cfg : config) (cands : list candidate) : list nat :=
  match NMSBoxes (cand_box <$> cands) (cand_conf <$> cands)
          (conf_th cfg) (nms_th cfg) with
  | Ok indices => indices
  | Raise _ => []
  end.

Definition retained (cfg : config) (cands : list candidate) : list candidate :=
  omap (fun i => cands !! i) (retained_indices cfg cands).

(** The image files after a call of [cv2.imwrite]: the image is at the
    path when the call writes, and nothing has changed when it does not. *)
Definition stored (w : world) (output_path : string) (im : image)
    (files : gmap string image) : gmap string image :=
  match cv_imwrite w output_path with
  | Writes => <[output_path := im]> files
  | WritesNothing | NoEncoder => files
  end.

(** The state a call of [cv2.imwrite] leaves. *)
Definition with_written (w : world) (output_path : string) (im : image)
    (s : state) : state :=
  set_written (stored w output_path im (written s)) s.

(** What a call of [cv2.imwrite] returns to [postprocess_image], which
    goes on to return [dets]. *)
Definition after_imwrite {A : Type} (w : world) (output_path : string)
    (dets : A) : result A :=
  match cv_imwrite w output_path with
  | NoEncoder => Raise CvError
  | Writes | WritesNothing => Ok dets
  end.

(** What a call of [postprocess_image] on one frame does to the state, in
    terms of the candidates [survivors] that are counted and rendered. *)
Record frame_effect (sth : float) (cfg : config) (render : renderer)
    (output : tensor) (dims : Z * Z)
    (s : state) (r : result (list detection)) (s' : state)
    (survivors : list candidate) : Prop := {
  fe_result : match r with
              | Ok dets => dets = entries cfg render survivors
              | Raise e => survivors = [] \/ e = CvError
              end;
  fe_total : total_objects s' = (total_objects s + length survivors)%nat;
  fe_classes : class_sum s'
               = (class_sum s
                  + length (List.filter (in_label_table cfg) survivors))%nat;
  fe_invalid : invalid_outputs s'
               = (invalid_outputs s + if has_nan output then 1 else 0)%nat;
  fe_nan : has_nan output = true -> survivors = [];
  fe_source : forall c, c ∈ survivors ->
              exists detect scale_x scale_y,
                detect ∈ output /\
                decode_row (conf_th cfg) sth (snd dims) (fst dims)
                  scale_x scale_y detect = Emit c;
  fe_labels : labels_counted cfg s';
  fe_times : total_time s' = total_time s /\
             inference_time s' = inference_time s /\
             num_frames s' = num_frames s /\
             resized_img s' = resized_img s
}.

(** The image of the frame whose raw output holds a NaN: the image read,
    with the warning caption as its only annotation. *)
Definition captioned (im : image) : image :=
  {| im_height := im_height im; im_width := im_width im;
     im_drawn := im_drawn im ++
       [PutText [Str "No valid detections (NaN output)"]
          (im_width im / 10) (im_height im / 2)] |}.

(** The outcome of the frame whose raw output holds a NaN: one more
    invalid output and no object counted, whatever follows.  When the
    image can be read and OpenCV has an encoder for the output name, the
    result is empty and the captioned image is the file at the output
    path (unless [cv2.imwrite] gives up without writing); when the image
    cannot be read or there is no encoder, the call raises and the files
    are as they were. *)
Definition nan_frame_outcome (w : world) (image_path output_path : string)
    (s : state) (run : result (list detection) * state) : Prop :=
  invalid_outputs (snd run) = S (invalid_outputs s) /\
  total_objects (snd run) = total_objects s /\
  objects_by_class (snd run) = objects_by_class s /\
  match imread w image_path with
  | None => fst run = Raise AttributeError /\ written (snd run) = written s
  | Some im =>
    match cv_imwrite w output_path with
    | Writes =>
      fst run = Ok [] /\
      written (snd run) = <[output_path := captioned im]> (written s)
    | WritesNothing => fst run = Ok [] /\ written (snd run) = written s
    | NoEncoder => fst run = Raise CvError /\ written (snd run) = written s
    end
  end.

(** A raw output with a non-finite entry: a NaN or an infinity. *)
Definition has_non_finite (output : tensor) : bool :=
  existsb (existsb (fun x => negb (isfinite x))) output.

(** The counters after a call of [postprocess_image] that counted the
    candidates [survivors]: a call that returns, returns their entries; a
    call that raises may have counted survivors before. *)
Definition counts_outcome (cfg : config) (render : renderer) (s : state)
    (r : result (list detection)) (s' : state) : Prop :=
  exists survivors : list candidate,
    (forall dets, r = Ok dets -> dets = entries cfg render survivors) /\
    total_objects s' = (total_objects s + length survivors)%nat /\
    class_sum s'
    = (class_sum s + length (List.filter (in_label_table cfg) survivors))%nat /\
    Forall (fun c =>
              det_class (fst (render_one cfg render c))
              = if in_label_table cfg c
                then nth (cand_class c) (class_labels cfg) ""%string
                else "Unknown"%string) survivors /\
    (class_sum s <= total_objects s -> class_sum s' <= total_objects s')%nat /\
    (class_sum s = total_objects s ->
     (class_sum s' = total_objects s' <->
      Forall (fun c => in_label_table cfg c = true) survivors)).

(** A value of the raw output: a single-precision number. *)
Definition is_single (x : float) : Prop := Single.round x = x.



(** A raw output whose rows all hold a NaN (they are skipped) or at least
    the four box parameters, the objectness and one class score. *)
Definition rows_shaped (output : tensor) : bool :=
  forallb (fun detect : row => row_has_nan detect || (6 <=? length detect)%nat)
          output.

(** An image that goes through the pipeline: it can be read, the model
    input has positive dimensions, and the engine answers a well-shaped
    raw output. *)
Definition frame_ok (cfg : config) (w : world) (image_path : string) : bool :=
  match imread w image_path, input_shape cfg !! 2%nat, input_shape cfg !! 3%nat,
        engine_output w image_path with
  | Some _, Some d2, Some d3, Some output =>
    (0 <? d2) && (0 <? d3) && rows_shaped output
  | _, _, _, _ => false
  end.

(** The state once the two durations of an image are accounted. *)
Definition timed_state (w : world) (image_path : string) (s : state) : state :=
  set_total_time
    (add (add (total_time s) (preprocess_time w image_path))
         (engine_time w image_path))
    (set_inference_time (add (inference_time s) (engine_time w image_path)) s).

(** One step of a folder loop: the pipeline on one image, an exception
    turned into a failed entry. *)
Definition guarded_run (sth : float) (render : renderer) (cfg : config)
    (w : world) (save_dir_path image_path : string) : M state image_result :=
  try_catch
    (run_image (postprocess_with sth render cfg) cfg w image_path save_dir_path)
    (fun e => ret (ImageFailed image_path e)).

(** The number of entries marked failed in a result list. *)
Definition failed_count (results : list image_result) : nat :=
  length (List.filter is_failed results).

(** The outcome of a folder command over three images of which the second
    cannot be read: three entries, the second one failed, and metrics that
    count three frames and the objects of the two processed images. *)
Definition three_image_outcome (w : world) (p1 p2 p3 : string)
    (run : result folder_result * state) : Prop :=
  exists m o1 d1 o3 d3,
    fst run = Ok (FolderOk (Some m)
                    [ImageOk p1 o1 d1; ImageFailed p2 ValueError;
                     ImageOk p3 o3 d3]) /\
    failed_count [ImageOk p1 o1 d1; ImageFailed p2 ValueError;
                  ImageOk p3 o3 d3] = 1%nat /\
    m_num_frames m = 3%nat /\
    m_total_objects m = (length d1 + length d3)%nat /\
    m_total_time m
    = add (add (add (add zero (preprocess_time w p1)) (engine_time w p1))
               (preprocess_time w p3)) (engine_time w p3).

(** [os.makedirs(path, exist_ok=True)] returns. *)
Definition creatable (w : world) (path : string) : bool :=
  negb (String.eqb path "") && can_makedirs w path.

(** OpenCV has an encoder for the name under which the annotated image of
    [image_path] is written. *)
Definition encodable (w : world) (save_dir_path image_path : string) : bool :=
  match cv_imwrite w (path_join save_dir_path (basename image_path)) with
  | NoEncoder => false
  | Writes | WritesNothing => true
  end.

(** The candidates [survivors] that a call has counted, against the entry
    it returns: a successful entry lists them, one detection each; a
    failed entry lists none, and survivors were counted before the
    failure only when it is the [cv2.error] of the final [cv2.imwrite]. *)
Definition counted_in (cfg : config) (render : renderer) (r : image_result)
    (survivors : list candidate) : Prop :=
  match r with
  | ImageOk _ _ detections =>
    detections = entries cfg render survivors /\
    length detections = length survivors
  | ImageFailed _ e => survivors = [] \/ e = CvError
  end.

(** Two images processed one after the other without a reset, from the
    state [s]: both calls return an entry, the frame counter is left as it
    was, and the object counter grows by the two numbers of surviving
    detections counted, which a successful entry lists. *)
Definition two_calls_outcome (cfg : config) (w : world)
    (save_dir_path p1 p2 : string) (s : state) : Prop :=
  exists r1 s1 r2 s2 v1 v2,
    Server.infer_single_image cfg w p1 save_dir_path false s = (Ok r1, s1) /\
    Server.infer_single_image cfg w p2 save_dir_path false s1 = (Ok r2, s2) /\
    result_path r1 = p1 /\ result_path r2 = p2 /\
    counted_in cfg (Server.render cfg) r1 v1 /\
    counted_in cfg (Server.render cfg) r2 v2 /\
    num_frames s2 = num_frames s /\
    total_objects s2 = (total_objects s + length v1 + length v2)%nat.

(** A folder command over two images: the state it leaves counts two
    frames and the surviving detections of the two images, and so do the
    metrics when they are returned. *)
Definition two_image_folder_outcome (cfg : config) (p1 p2 : string)
    (run : result folder_result * state) : Prop :=
  exists r1 r2 v1 v2,
    result_path r1 = p1 /\ result_path r2 = p2 /\
    counted_in cfg (Server.render cfg) r1 v1 /\
    counted_in cfg (Server.render cfg) r2 v2 /\
    num_frames (snd run) = 2%nat /\
    total_objects (snd run) = (length v1 + length v2)%nat /\
    forall m results,
      fst run = Ok (FolderOk m results) ->
      results = [r1; r2] /\
      exists mt, m = Some mt /\ m_num_frames mt = 2%nat /\
                 m_total_objects mt = (length v1 + length v2)%nat.

(** The CSV row of a detection that carries its normalised box, and the
    rows of a per-image result, one per detection, in their order. *)
Definition csv_row (image_filename : string) (d : detection) : list Server.cell :=
  match Server.detection_row image_filename d with
  | Ok r => r
  | Raise _ => []
  end.

Definition result_rows (r : image_result) : list (list Server.cell) :=
  csv_row (basename (result_path r)) <$> result_detections r.

Definition has_yolo (d : detection) : Prop := is_Some (det_yolo_bbox d).

(** A data row of the log: the row of some detection. *)
Definition data_row (r : list Server.cell) : Prop :=
  exists image_filename d, has_yolo d /\ r = csv_row image_filename d.


(** What a command does to the log: it returns, the rows already in the
    file are kept and [rows] are appended behind them. *)
Definition appends (sv : Server.server) (run : result unit * Server.server)
    (rows : list (list Server.cell)) : Prop :=
  fst run = Ok tt /\
  default [] (Server.csv_file (snd run))
  = default [] (Server.csv_file sv) ++ rows /\
  (is_Some (Server.csv_file sv) -> is_Some (Server.csv_file (snd run))).

(** The box at an index of the list handed to the suppression routine. *)
Definition box_at (bboxes : list box) (i : nat) : box :=
  nth i bboxes (0, 0, 0, 0).

(** The exact intersection over union of two boxes. *)
Definition iou (a b : box) : Q :=
  let Aa := rect_area a in
  let Ab := rect_area b in
  if Aa + Ab <=? 0 then 1%Q
  else
    let Aab := rect_area (rect_inter a b) in
    Qmake Aab (Z.to_pos (Aa + Ab - Aab)).

(** The overlap of the boxes at two indices, as the library computes it in
    single precision, exceeds the threshold converted to single
    precision. *)
Definition overlap_exceeds (bboxes : list box) (thr : float) (i j : nat)
  : Prop :=
  le (rectOverlap (box_at bboxes i) (box_at bboxes j)) (Single.round thr)
  = false.

(** ** Invariants of the inferencer *)

(** A computation keeps a relation between the state it starts from and
    the state it leaves, whatever it returns or raises. *)
Definition preserves {S A : Type} (R : S -> S -> Prop) (c : M S A) : Prop :=
  forall s, R s (snd (c s)).

(** What the pipeline never undoes: the keys of [objects_by_class] and
    the two event counters. *)
Definition grows (s s' : state) : Prop :=
  dom (objects_by_class s') = dom (objects_by_class s) /\
  (total_objects s <= total_objects s')%nat /\
  (invalid_outputs s <= invalid_outputs s')%nat.

(** The keys of [objects_by_class] are exactly the class labels. *)
Definition keyed_by_labels (cfg : config) (s : state) : Prop :=
  forall name,
    is_Some (objects_by_class s !! name) <-> name ∈ class_labels cfg.

(** ** Paths of a folder command *)

Fixpoint has_slash (s : string) : bool :=
  match s with
  | EmptyString => false
  | String c rest => is_slash c || has_slash rest
  end.

(** Every value a computation returns satisfies [Q]. *)
Definition returns_only {S A : Type} (Q : A -> Prop) (c : M S A) : Prop :=
  forall s a, fst (c s) = Ok a -> Q a.

(** A successful entry names its output after its input: the file goes to
    the output directory under the base name of the input path. *)
Definition output_named (save_dir_path : string) (r : image_result) : Prop :=
  match r with
  | ImageOk input_path output_path _ =>
    output_path = path_join save_dir_path (basename input_path)
  | ImageFailed _ _ => True
  end.

(** The entry of the listed file [name] of the folder. *)
Definition entry_of_listing (w : world) (folder_path save_dir_path : string)
    (r : image_result) : Prop :=
  exists name,
    name ∈ listdir w folder_path /\
    is_image_name name = true /\
    result_path r = path_join folder_path name /\
    basename (result_path r) = name /\
    forall output_path detections,
      r = ImageOk (result_path r) output_path detections ->
      output_path = path_join save_dir_path name /\
      basename output_path = name.

(** ** What an image command leaves on disk *)

Definition is_rectangle (op : draw_op) : bool :=
  match op with Rectangle _ _ _ _ _ => true | _ => false end.

(** The number of rectangles drawn on an image. *)
Definition rectangles (im : image) : nat :=
  length (List.filter is_rectangle (im_drawn im)).

(** A variant draws one rectangle for each survivor. *)
Definition one_rectangle (render : renderer) : Prop :=
  forall name c,
    length (List.filter is_rectangle (snd (render name c))) = 1%nat.

(** [im] is [im0] with the annotations of [n] detections: the shape is
    kept, what was drawn is kept, and [n] rectangles are added. *)
Definition annotated (im0 im : image) (n : nat) : Prop :=
  im_height im = im_height im0 /\
  im_width im = im_width im0 /\
  im_drawn im0 `prefix_of` im_drawn im /\
  rectangles im = (rectangles im0 + n)%nat.

(** The files behind a per-image entry: a failed entry has written
    nothing; a successful entry has passed one image to [cv2.imwrite]
    under a name that has an encoder, for its output path, which is the
    input image annotated with one rectangle per detection, and every
    detection lies inside that image. *)
Definition image_outcome (w : world) (s s' : state) (r : image_result) : Prop :=
  match r with
  | ImageOk input_path output_path detections =>
    exists im0 im,
      imread w input_path = Some im0 /\
      cv_imwrite w output_path <> NoEncoder /\
      written s' = stored w output_path im (written s) /\
      annotated im0 im (length detections) /\
      Forall (fun d => box_within (im_width im0) (im_height im0) (det_bbox d))
             detections
  | ImageFailed _ _ => written s' = written s
  end.

(** What [postprocess_image] leaves on disk, in terms of the candidates
    [survivors] it renders. *)
Definition frame_written (sth : float) (cfg : config) (render : renderer)
    (w : world) (image_path : string) (output : tensor) (dims : Z * Z)
    (output_path : string) (s : state) (r : result (list detection))
    (s' : state) : Prop :=
  match r with
  | Raise _ => written s' = written s
  | Ok dets =>
    match imread w image_path with
    | None => dets = [] /\ written s' = written s
    | Some im0 =>
      exists survivors,
        dets = entries cfg render survivors /\
        cv_imwrite w output_path <> NoEncoder /\
        written s'
        = stored w output_path
            (if has_nan output
             then draw (PutText nan_caption (im_width im0 / 10)
                          (im_height im0 / 2)) im0
             else draw_all cfg render survivors im0)
            (written s) /\
        (has_nan output = true -> survivors = []) /\
        (exists cands, survivors = retained cfg cands) /\
        Forall (fun c => exists detect scale_x scale_y,
                  decode_row (conf_th cfg) sth (snd dims) (fst dims)
                    scale_x scale_y detect = Emit c) survivors
    end
  end.

(** The output path of a successful entry. *)
Definition output_of (r : image_result) : option string :=
  match r with
  | ImageOk _ output_path _ => Some output_path
  | ImageFailed _ _ => None
  end.

(** The total number of detections of a list of entries. *)
Definition detections_total (results : list image_result) : nat :=
  sum_list (length <$> (result_detections <$> results)).

(** ** The outcome of a folder command *)

(** The report of [save_logs] for the metrics [mt]. *)
Definition report_of (cfg : config) (mt : metrics) : report :=
  {| rep_conf_th := conf_th cfg; rep_score_th := score_th cfg;
     rep_nms_th := nms_th cfg; rep_metrics := mt |}.

(** The image files after the calls of [cv2.imwrite] for [ims], first
    call first. *)
Definition stored_all (w : world) (ims : list (string * image))
    (files : gmap string image) : gmap string image :=
  foldl (fun fs f => stored w (fst f) (snd f) fs) files ims.

(** An entry that failed in the final [cv2.imwrite]. *)
Definition failed_writing (r : image_result) : Prop :=
  exists input_path, r = ImageFailed input_path CvError.

(** What a call of [infer_folder] from the state [s] has done, by its
    outcome; [log_file] is the report the variant writes, if it writes
    one.  An empty folder resets the counters and writes nothing.
    Otherwise there is one entry per listed image, in the order of the
    listing; the frame counter is the number of listed images; the object
    counter is at least the number of detections of all entries, and
    equal to it unless an entry failed in its final [cv2.imwrite]; one
    image has been passed to [cv2.imwrite] per successful entry, in order,
    for its output path; and the metrics report the two counters.  The
    exceptions that escape are those of [os.makedirs] (nothing has
    changed), of [os.listdir], of the division by an accumulated time of
    zero and of opening the report. *)
Definition folder_outcome (cfg : config) (w : world)
    (folder_path save_dir_path : string) (log_file : option string)
    (s : state) (run : result folder_result * state) : Prop :=
  match fst run with
  | Ok FolderEmpty =>
    creatable w save_dir_path = true /\
    get_images_from_folder w folder_path = Ok [] /\
    written (snd run) = written s /\ logs (snd run) = logs s /\
    num_frames (snd run) = 0%nat /\ total_objects (snd run) = 0%nat
  | Ok (FolderOk m results) =>
    creatable w save_dir_path = true /\
    get_images_from_folder w folder_path = Ok (result_path <$> results) /\
    results <> [] /\
    num_frames (snd run) = length results /\
    (detections_total results <= total_objects (snd run))%nat /\
    (Forall (fun r => ~ failed_writing r) results ->
     total_objects (snd run) = detections_total results) /\
    (exists ims,
       written (snd run) = stored_all w ims (written s) /\
       fst <$> ims = omap output_of results) /\
    exists mt,
      m = Some mt /\ m_num_frames mt = length results /\
      m_total_objects mt = total_objects (snd run) /\
      match log_file with
      | Some f =>
        can_open w f = true /\
        logs (snd run) = <[f := report_of cfg mt]> (logs s)
      | None => logs (snd run) = logs s
      end
  | Raise e =>
    logs (snd run) = logs s /\
    (e = OSError /\ creatable w save_dir_path = false /\ snd run = s \/
     e = OSError /\ creatable w save_dir_path = true /\
     can_listdir w folder_path = false /\ written (snd run) = written s \/
     creatable w save_dir_path = true /\
     (exists p paths,
        get_images_from_folder w folder_path = Ok (p :: paths)) /\
     (e = ZeroDivisionError /\ is_zero (total_time (snd run)) = true \/
      e = OSError /\ exists f, log_file = Some f /\ can_open w f = false))
  end.

(** ** Lines typed at the prompt *)

(** The commands the loop dispatches before it reads [quit], and whether
    it is still running when the lines are used up. *)
Fixpoint dispatched (lines : list string) : list Server.command * bool :=
  match lines with
  | [] => ([], true)
  | line :: rest =>
    match ServerConsole.read_command line with
    | ServerConsole.Quit => ([], false)
    | ServerConsole.Ignored => dispatched rest
    | ServerConsole.Dispatch c =>
      (c :: fst (dispatched rest), snd (dispatched rest))
    end
  end.

(** Every character of a string passes a test. *)
Fixpoint all_chars (P : ascii -> bool) (s : string) : bool :=
  match s with
  | EmptyString => true
  | String c rest => P c && all_chars P rest
  end.

Definition not_space (c : ascii) : bool := negb (PyStr.is_space c).

Definition lower_case (c : ascii) : bool := Ascii.eqb (lower_char c) c.

(** A word: a non-empty string without white space. *)
Definition word (s : string) : Prop :=
  s <> EmptyString /\ all_chars not_space s = true.

(** The path a command carries. *)
Definition command_path (c : Server.command) : string :=
  match c with
  | Server.ImageCommand p => p
  | Server.FolderCommand p => p
  end.

(** Words separated by single spaces. *)
Fixpoint unwords (ws : list string) : string :=
  match ws with
  | [] => EmptyString
  | w :: rest =>
    match rest with
    | [] => w
    | _ :: _ => w +:+ " " +:+ unwords rest
    end
  end.

(** ** The single-image path of [detect_trt_fp32_server.py] *)

(** The reports written so far are left alone. *)
Definition same_logs (s s' : state) : Prop := logs s' = logs s.

(** What a call of [infer_single_image] of [detect_trt_fp32_server.py]
    from the state [s] has done, by its outcome.  The only exception that
    escapes is that of [os.makedirs], and nothing has changed then.  On
    success the annotated image has been passed to [cv2.imwrite] under
    the base name of the input, the metrics count one frame, the
    detections of the result and the time of this engine call, and the
    report is the file beside the image.  On failure no report is
    written, and no image either, unless the failure is the division by
    an accumulated time of zero or that of opening the report, which
    happen after the image is written. *)
Definition single_outcome (cfg : config) (w : world)
    (image_path save_dir_path : string) (s : state)
    (run : result Fp32Single.single_result * state) : Prop :=
  let s' := snd run in
  let output_path := path_join save_dir_path (basename image_path) in
  let log_file := path_join save_dir_path "inference_logs.txt" in
  let spent := add (add zero (preprocess_time w image_path))
                   (engine_time w image_path) in
  match fst run with
  | Raise e => e = OSError /\ creatable w save_dir_path = false /\ s' = s
  | Ok (Fp32Single.SingleOk input_path output m detections) =>
    creatable w save_dir_path = true /\
    input_path = image_path /\ output = output_path /\
    (exists im0 im,
       imread w image_path = Some im0 /\
       cv_imwrite w output_path <> NoEncoder /\
       written s' = stored w output_path im (written s) /\
       annotated im0 im (length detections)) /\
    exists mt,
      m = Some mt /\
      m_num_frames mt = 1%nat /\
      m_total_objects mt = length detections /\
      m_inference_time mt = engine_time w image_path /\
      m_total_time mt = spent /\
      can_open w log_file = true /\
      logs s' = <[log_file := report_of cfg mt]> (logs s)
  | Ok (Fp32Single.SingleFailed input_path e) =>
    creatable w save_dir_path = true /\
    input_path = image_path /\ logs s' = logs s /\
    (written s' = written s \/
     (e = ZeroDivisionError /\ is_zero spent = true \/
      e = OSError /\ can_open w log_file = false) /\
     exists im, written s' = stored w output_path im (written s))
  end.

(** ** The comparison script *)

(** The names the loop of [compare_images] reaches: the [.jpg] names of
    the first folder, sorted, that are also [.jpg] names of the second. *)
Definition common_images (d : CompareDetections.disk)
    (folder1 folder2 : string) : list string :=
  List.filter
    (fun img_name =>
       bool_decide (img_name ∈ CompareDetections.jpg_images d folder2))
    (CompareDetections.jpg_images d folder1).

(** The file saved for the name [name]: it carries that name in the output
    folder and combines the two images of that name. *)
Definition combined_from (d : CompareDetections.disk)
    (folder1 folder2 save_folder : string) (name : string)
    (file : string * CompareDetections.side_by_side) : Prop :=
  fst file = path_join save_folder name /\
  exists size1 size2,
    CompareDetections.size_of d (path_join folder1 name) = Some size1 /\
    CompareDetections.size_of d (path_join folder2 name) = Some size2 /\
    CompareDetections.combine size1 size2 = Ok (snd file).

(** The file name is a [.jpg] name, in any case. *)
Definition is_jpg (name : string) : bool := endswith (lower name) ".jpg".

(** ** The download scripts *)



(** ** Suppression, seen from the result *)

(** Two entries of a result, the first of which was retained before the
    second: the overlap of their boxes, as the library computes it in
    single precision, is at most the threshold converted to single
    precision. *)
Definition apart (thr : float) (d1 d2 : detection) : Prop :=
  le (rectOverlap (det_bbox d2) (det_bbox d1)) (Single.round thr) = true.

(** The same for two retained indices. *)
Definition indices_apart (bboxes : list box) (thr : float) (i j : nat) : Prop :=
  le (rectOverlap (box_at bboxes j) (box_at bboxes i)) (Single.round thr)
  = true.

(** ** The log and the files *)

(** The file name a row of the log carries in its first cell. *)
Definition row_file (row : list Server.cell) : option string :=
  match row with
  | Server.CStr name :: _ => Some name
  | _ => None
  end.

(** * Properties *)

(** ** Facts on the executable definitions *)

Example of_Z_one : of_Z 1 = S754_finite false 4503599627370496 (-52).
Proof. reflexivity. Qed.

Example quarter_is_exact : to_Q (ratio 1 4) == (1 # 4).
Proof. vm_compute. reflexivity. Qed.

Example trunc_down : trunc false 7 (-1) = 3 /\ trunc true 7 (-1) = -3.
Proof. split; reflexivity. Qed.

Example basename_ex : basename "Detections/run/a.jpg" = "a.jpg"%string.
Proof. reflexivity. Qed.

Example path_join_ex : path_join "imgs" "B.JPG" = "imgs/B.JPG"%string.
Proof. reflexivity. Qed.

Example is_image_name_ex :
  is_image_name "B.JPG" = true /\ is_image_name "notes.txt" = false.
Proof. split; reflexivity. Qed.

(** [np.float32(0.45)] is 15099494 / 2^25 = 0.449999988..., below the
    Python float 0.45; 0.25 is a single-precision number. *)
Example single_045 :
  Single.round (ratio 45 100) = S754_finite false 8106479114518528 (-54) /\
  to_Q (Single.round (ratio 45 100)) == (15099494 # 33554432) /\
  lt (Single.round (ratio 45 100)) (ratio 45 100) = true /\
  Single.round (ratio 1 4) = ratio 1 4.
Proof. repeat split; vm_compute; reflexivity. Qed.

(** The overlap of two boxes whose intersection over union is 0.7, as
    [rectOverlap] returns it: [np.float32(0.7)]. *)
Example rectOverlap_ex :
  rectOverlap (0, 0, 100, 100) (0, 0, 100, 70) = Single.round (ratio 7 10).
Proof. vm_compute. reflexivity. Qed.

Example decode_row_a :
  decode_row (ratio 1 4) (ratio 1 4) 640 640 (of_Z 1) (of_Z 1) Scenario.row_a
  = Emit Scenario.cand_a.
Proof. vm_compute. reflexivity. Qed.

(** ** Comparisons of floats *)

Lemma SFcompare_antisym (a b : float) :
  SFcompare b a = CompOpp <$> SFcompare a b.
Proof.
  destruct a as [sa|sa| |sa ma ea], b as [sb|sb| |sb mb eb]; simpl;
    try reflexivity; try (destruct sa; reflexivity);
    try (destruct sb; reflexivity);
    try (destruct sa, sb; reflexivity).
  destruct sa, sb; simpl; try reflexivity;
    rewrite (Z.compare_antisym ea eb);
    destruct (ea ?= eb)%Z; simpl; try reflexivity;
    pose proof (Pos.compare_cont_antisym ma mb Eq) as H; simpl in H;
    rewrite <- H, ?CompOpp_involutive; reflexivity.
Qed.

Lemma SFcompare_defined (a b : float) :
  isnan a = false -> isnan b = false -> SFcompare a b <> None.
Proof.
  destruct a as [sa|sa| |sa ma ea], b as [sb|sb| |sb mb eb]; simpl;
    congruence.
Qed.

(** A value that is not strictly below a threshold is at or above it, as
    soon as neither is a NaN. *)
Lemma lt_false_ge (a b : float) :
  isnan a = false -> isnan b = false -> lt a b = false -> ge a b = true.
Proof.
  intros Ha Hb. pose proof (SFcompare_defined a b Ha Hb) as Hd.
  unfold lt, ge, SFltb, SFleb. rewrite (SFcompare_antisym a b).
  destruct (SFcompare a b) as [[]|]; simpl; congruence.
Qed.

Lemma ge_lt_false (a b : float) : ge a b = true -> lt a b = false.
Proof.
  unfold lt, ge, SFltb, SFleb. rewrite (SFcompare_antisym a b).
  destruct (SFcompare a b) as [[]|]; simpl; congruence.
Qed.

Lemma lt_asym (a b : float) : lt a b = true -> lt b a = false.
Proof.
  unfold lt, SFltb. rewrite (SFcompare_antisym a b).
  destruct (SFcompare a b) as [[]|]; simpl; congruence.
Qed.

Lemma ge_refl (a : float) : isnan a = false -> ge a a = true.
Proof.
  intros H. apply lt_false_ge; try assumption.
  destruct (lt a a) eqn:E; [|reflexivity].
  pose proof (lt_asym _ _ E). congruence.
Qed.

(** ** Rounding never produces a NaN *)

Section RoundingNotNan.

Variables (p e0 : Z).







End RoundingNotNan.


(** ** The decoding loop *)




Lemma decode_row_emit cth sth width height scale_x scale_y detect c :
  decode_row cth sth width height scale_x scale_y detect = Emit c ->
  emitted_from cth sth width height scale_x scale_y detect c.
Proof.
  unfold decode_row.
  destruct (row_has_nan detect) eqn:Hnan; [discriminate|].
  destruct (detect !! 4%nat) as [conf|] eqn:Hconf; [|discriminate].
  destruct (lt conf cth) eqn:Hlt; [discriminate|].
  destruct (argmax (drop 5 detect)) as [class_idx|] eqn:Harg; [|discriminate].
  destruct (lt (nth class_idx (drop 5 detect) nan) (Single.round sth)) eqn:Hsc;
    [discriminate|].
  destruct detect as [|cx [|cy [|w [|h rest]]]]; try discriminate.
  destruct (negb (forallb isfinite [cx; cy; w; h])) eqn:Hfin; [discriminate|].
  destruct (scaled_box width height scale_x scale_y cx cy w h)
    as [[[[x y] bw] bh]|] eqn:Hbox; [|discriminate].
  destruct ((bw <=? 0) || (bh <=? 0)) eqn:Hpos; [discriminate|].
  intros [= <-]. apply orb_false_iff in Hpos as [Hw Hh].
  apply Z.leb_gt in Hw, Hh. apply negb_false_iff in Hfin.
  split; simpl; auto.
Qed.

Lemma decode_rows_emitted cth sth width height scale_x scale_y rows :
  forall cs,
    decode_rows cth sth width height scale_x scale_y rows = Ok cs ->
    Forall (fun c => exists detect,
              detect ∈ rows /\
              decode_row cth sth width height scale_x scale_y detect = Emit c)
           cs.
Proof.
  induction rows as [|detect rest IH]; simpl; intros cs.
  - intros [= <-]. constructor.
  - destruct (decode_row cth sth width height scale_x scale_y detect)
      as [|c|e] eqn:Hrow; [| |discriminate].
    + intros H. eapply Forall_impl; [apply IH, H|].
      intros c' (d & Hd & He). exists d. split; [set_solver|assumption].
    + destruct (decode_rows cth sth width height scale_x scale_y rest)
        as [cs'|] eqn:Hrest; [|discriminate].
      intros [= <-]. constructor.
      * exists detect. split; [set_solver|assumption].
      * eapply Forall_impl; [apply IH; reflexivity|].
        intros c' (d & Hd & He). exists d. split; [set_solver|assumption].
Qed.

Lemma scaled_box_clamped width height scale_x scale_y cx cy w h x y bw bh :
  scaled_box width height scale_x scale_y cx cy w h = Ok (x, y, bw, bh) ->
  0 <= x /\ 0 <= y /\ x + bw <= width /\ y + bh <= height.
Proof.
  unfold scaled_box.
  destruct (py_int (mul (sub cx (div w (of_Z 2))) scale_x)); [|discriminate].
  destruct (py_int (mul (sub cy (div h (of_Z 2))) scale_y)); [|discriminate].
  destruct (py_int (mul w scale_x)); [|discriminate].
  destruct (py_int (mul h scale_y)); [|discriminate].
  intros [= <- <- <- <-]. lia.
Qed.

(** C6.  Every candidate appended by the decoding loop has its top-left
    corner at non-negative coordinates, lies inside the image
    ([x + width <= image_width], [y + height <= image_height]) and has a
    positive width and height; the loop is the same in both files. *)
Theorem C6_candidate_boxes_clamped
    (cth sth : float) (width height : Z) (scale_x scale_y : float)
    (rows : tensor) (cs : list candidate) :
  decode_rows cth sth width height scale_x scale_y rows = Ok cs ->
  Forall (fun c => box_within width height (cand_box c)) cs.
Proof.
  intros H. eapply Forall_impl; [apply (decode_rows_emitted _ _ _ _ _ _ _ _ H)|].
  intros c (detect & _ & Hrow). apply decode_row_emit in Hrow.
  destruct Hrow as [_ _ _ _ _ Hy Hp]. unfold box_within.
  destruct (cand_yolo c) as [[[cx cy] w] h].
  destruct (cand_box c) as [[[x y] bw] bh].
  destruct Hy as (_ & _ & Hbox). apply scaled_box_clamped in Hbox. lia.
Qed.

Lemma C6_witness :
  decode_rows (ratio 1 4) (ratio 1 4) 640 640 (of_Z 1) (of_Z 1)
    [Scenario.row_nan; Scenario.row_a] = Ok [Scenario.cand_a] /\
  Forall (fun c => box_within 640 640 (cand_box c)) [Scenario.cand_a].
Proof.
  split; [vm_compute; reflexivity|].
  apply (C6_candidate_boxes_clamped (ratio 1 4) (ratio 1 4) 640 640
           (of_Z 1) (of_Z 1) [Scenario.row_nan; Scenario.row_a]).
  vm_compute. reflexivity.
Defined.

(** ** Counting the survivors *)

Lemma class_sum_bump (m : gmap string nat) (name : string) (n : nat) :
  m !! name = Some n ->
  map_fold (fun _ k acc => (k + acc)%nat) 0%nat (<[name := S n]> m)
  = S (map_fold (fun _ k acc => (k + acc)%nat) 0%nat m).
Proof.
  intros Hn.
  rewrite (map_fold_delete_L _ _ name n m); [|intros; lia|assumption].
  rewrite <- (insert_delete_eq m).
  rewrite map_fold_insert_L; [lia|intros; lia|apply lookup_delete_eq].
Qed.

Section Counting.

Variable cfg : config.

Lemma count_survivor_ok c s :
  labels_counted cfg s ->
  count_survivor cfg c s = (Ok (class_name_of cfg c), count_one cfg c s).
Proof.
  intros Hwf. unfold count_survivor, count_one, class_name_of, bind, modify, get.
  simpl. destruct (class_labels cfg !! cand_class c) as [name|] eqn:Hl; simpl.
  - destruct (Hwf name) as [n Hn].
    + apply list_elem_of_lookup. eauto.
    + rewrite Hn. reflexivity.
  - reflexivity.
Qed.

Lemma count_one_labels_counted c s :
  labels_counted cfg s -> labels_counted cfg (count_one cfg c s).
Proof.
  intros Hwf name Hname. unfold count_one.
  destruct (class_labels cfg !! cand_class c) as [name'|]; simpl.
  - destruct (decide (name' = name)) as [->|Hne].
    + rewrite lookup_insert_eq. eauto.
    + rewrite lookup_insert_ne by assumption. apply Hwf, Hname.
  - apply Hwf, Hname.
Qed.

Lemma count_all_labels_counted cs :
  forall s, labels_counted cfg s -> labels_counted cfg (count_all cfg cs s).
Proof.
  induction cs as [|c cs IH]; intros s Hwf; simpl; [assumption|].
  apply IH, count_one_labels_counted, Hwf.
Qed.

Lemma count_one_total c s :
  total_objects (count_one cfg c s) = S (total_objects s).
Proof.
  unfold count_one. destruct (class_labels cfg !! cand_class c); reflexivity.
Qed.

Lemma count_one_class_sum c s :
  labels_counted cfg s ->
  class_sum (count_one cfg c s)
  = (class_sum s + if in_label_table cfg c then 1 else 0)%nat.
Proof.
  intros Hwf. unfold count_one, class_sum, in_label_table.
  destruct (class_labels cfg !! cand_class c) as [name|] eqn:Hl; simpl.
  - rewrite bool_decide_eq_true_2 by (eapply lookup_lt_Some, Hl).
    destruct (Hwf name) as [n Hn]; [apply list_elem_of_lookup; eauto|].
    rewrite Hn. simpl. rewrite (class_sum_bump _ _ _ Hn). lia.
  - rewrite bool_decide_eq_false_2; [lia|].
    apply lookup_ge_None in Hl. lia.
Qed.

Lemma count_one_same_run c s : same_run s (count_one cfg c s).
Proof.
  unfold count_one, same_run.
  destruct (class_labels cfg !! cand_class c); simpl; tauto.
Qed.

Lemma count_all_total cs :
  forall s, total_objects (count_all cfg cs s)
            = (total_objects s + length cs)%nat.
Proof.
  induction cs as [|c cs IH]; intros s; simpl; [lia|].
  rewrite IH, count_one_total. lia.
Qed.

Lemma count_all_class_sum cs :
  forall s, labels_counted cfg s ->
    class_sum (count_all cfg cs s)
    = (class_sum s + length (List.filter (in_label_table cfg) cs))%nat.
Proof.
  induction cs as [|c cs IH]; intros s Hwf; simpl; [lia|].
  rewrite IH by (apply count_one_labels_counted, Hwf).
  rewrite count_one_class_sum by assumption.
  destruct (in_label_table cfg c); simpl; lia.
Qed.

Lemma count_all_same_run cs :
  forall s, same_run s (count_all cfg cs s).
Proof.
  induction cs as [|c cs IH]; intros s; simpl.
  - unfold same_run. tauto.
  - specialize (IH (count_one cfg c s)).
    pose proof (count_one_same_run c s) as H1.
    unfold same_run in *. intuition congruence.
Qed.

(** The survivor loop on indices that are all in range, from a state in
    which every label is counted: it returns, and its effect is that of
    [count_all] and [draw_all] on the candidates the indices select. *)
Lemma survivors_loop_ok render cands idxs survivors :
  Forall2 (fun i c => cands !! i = Some c) idxs survivors ->
  forall dets im s,
    labels_counted cfg s ->
    survivors_loop cfg render cands idxs dets im s
    = (Ok (dets ++ entries cfg render survivors,
           draw_all cfg render survivors im),
       count_all cfg survivors s).
Proof.
  induction 1 as [|i c idxs survivors Hi _ IH]; intros dets im s Hwf; simpl.
  - rewrite app_nil_r. reflexivity.
  - rewrite Hi. unfold bind at 1. rewrite count_survivor_ok by assumption.
    destruct (render (class_name_of cfg c) c) as [d ops] eqn:Hr.
    rewrite IH by (apply count_one_labels_counted, Hwf).
    rewrite <- app_assoc. simpl. unfold render_one. rewrite Hr. reflexivity.
Qed.

End Counting.

(** ** The suppression routine *)

Lemma insert_desc_perm (p : float * nat) (l : list (float * nat)) :
  insert_desc p l ≡ₚ p :: l.
Proof.
  induction l as [|q l IH]; simpl; [reflexivity|].
  destruct (gt (fst q) (fst p)); [|reflexivity].
  rewrite IH. apply Permutation_swap.
Qed.

Lemma stable_sort_desc_perm (l : list (float * nat)) :
  stable_sort_desc l ≡ₚ l.
Proof.
  induction l as [|p l IH]; simpl; [reflexivity|].
  rewrite insert_desc_perm. f_equiv. exact IH.
Qed.

Lemma insert_desc_sorted (p : float * nat) (l : list (float * nat)) :
  Sorted not_above l -> Sorted not_above (insert_desc p l).
Proof.
  induction l as [|q l IH]; simpl; intros Hs.
  - repeat constructor.
  - destruct (gt (fst q) (fst p)) eqn:Hq.
    + apply Sorted_inv in Hs as [Hs Hhd]. constructor; [apply IH, Hs|].
      destruct l as [|q' l]; simpl.
      * constructor. unfold not_above, gt in *. apply lt_asym, Hq.
      * destruct (gt (fst q') (fst p)).
        -- constructor. apply HdRel_inv in Hhd. exact Hhd.
        -- constructor. unfold not_above, gt in *. apply lt_asym, Hq.
    + constructor; [exact Hs|]. constructor. exact Hq.
Qed.

Lemma stable_sort_desc_sorted (l : list (float * nat)) :
  Sorted not_above (stable_sort_desc l).
Proof.
  induction l as [|p l IH]; simpl; [constructor|].
  apply insert_desc_sorted, IH.
Qed.

Lemma elem_of_scored (scores : list float) (threshold : float) sc i :
  (sc, i) ∈ GetMaxScoreIndex scores threshold <->
  scores !! i = Some sc /\ gt sc threshold = true.
Proof.
  unfold GetMaxScoreIndex. rewrite stable_sort_desc_perm.
  rewrite list_elem_of_In, filter_In, <- list_elem_of_In, elem_of_lookup_imap.
  simpl. split.
  - intros [(j & y & [= -> ->] & Hj) Hgt]. auto.
  - intros [Hi Hgt]. split; [|exact Hgt]. exists i, sc. auto.
Qed.

Lemma scored_indices_NoDup (scores : list float) (threshold : float) :
  NoDup (snd <$> GetMaxScoreIndex scores threshold).
Proof.
  unfold GetMaxScoreIndex. rewrite stable_sort_desc_perm.
  assert (Hgen : forall (l : list float) k,
             NoDup (snd <$> List.filter (fun p => gt (fst p) threshold)
                      (imap (fun i sc => (sc, (k + i)%nat)) l)) /\
             forall j, j ∈ (snd <$> List.filter (fun p => gt (fst p) threshold)
                      (imap (fun i sc => (sc, (k + i)%nat)) l)) -> (k <= j)%nat).
  { induction l as [|x l IH]; intros k; simpl.
    - split; [constructor|]. intros j Hj. inversion Hj.
    - assert (Heq : imap ((fun i sc => (sc, (k + i)%nat)) ∘ S) l
                    = imap (fun i sc => (sc, (S k + i)%nat)) l).
      { apply imap_ext. intros. simpl. f_equal. lia. }
      rewrite Heq. destruct (IH (S k)) as [IH1 IH2].
      destruct (gt x threshold); simpl.
      + split.
        * constructor; [|exact IH1]. intros Hin. apply IH2 in Hin. lia.
        * intros j Hj. apply elem_of_cons in Hj as [->|Hj]; [lia|].
          apply IH2 in Hj. lia.
      + split; [exact IH1|]. intros j Hj. apply IH2 in Hj. lia. }
  apply (Hgen scores 0%nat).
Qed.

Lemma elem_of_order (scores : list float) (threshold : float) i :
  i ∈ (snd <$> GetMaxScoreIndex scores threshold) <->
  exists sc, scores !! i = Some sc /\ gt sc threshold = true.
Proof.
  rewrite list_elem_of_fmap. split.
  - intros ([sc j] & -> & Hin). exists sc. apply elem_of_scored, Hin.
  - intros (sc & H). exists (sc, i). split; [reflexivity|].
    apply elem_of_scored, H.
Qed.

Lemma order_sorted (scores : list float) (threshold : float) :
  Sorted (fun i j => gt (nth j scores nan) (nth i scores nan) = false)
         (snd <$> GetMaxScoreIndex scores threshold).
Proof.
  pose proof (stable_sort_desc_sorted
    (List.filter (fun p => gt (fst p) threshold)
       (imap (fun i sc => (sc, i)) scores))) as Hs.
  fold (GetMaxScoreIndex scores threshold) in Hs.
  assert (Hel : forall p, p ∈ GetMaxScoreIndex scores threshold ->
                          fst p = nth (snd p) scores nan).
  { intros [sc i] Hp. apply elem_of_scored in Hp as [Hi _]. simpl.
    symmetry. apply nth_lookup_Some with (d := nan) in Hi. exact Hi. }
  induction (GetMaxScoreIndex scores threshold) as [|p l IH]; simpl.
  - constructor.
  - apply Sorted_inv in Hs as [Hs Hhd]. constructor.
    + apply IH; [exact Hs|]. intros q Hq. apply Hel. set_solver.
    + destruct l as [|q l]; simpl; constructor.
      apply HdRel_inv in Hhd. unfold not_above in Hhd.
      rewrite <- (Hel p), <- (Hel q) by set_solver. exact Hhd.
Qed.

Lemma prefix_subseteq_elem {A} (l k : list A) (x : A) :
  l `prefix_of` k -> x ∈ l -> x ∈ k.
Proof. intros [r ->] H. set_solver. Qed.

Lemma nms_loop_app bboxes thr pre post :
  forall acc,
    nms_loop bboxes thr (pre ++ post) acc
    = nms_loop bboxes thr post (nms_loop bboxes thr pre acc).
Proof.
  induction pre as [|i pre IH]; intros acc; simpl; [reflexivity|].
  apply IH.
Qed.

Lemma nms_loop_prefix bboxes thr order :
  forall acc, acc `prefix_of` nms_loop bboxes thr order acc.
Proof.
  induction order as [|i order IH]; intros acc; simpl; [reflexivity|].
  etransitivity; [|apply IH].
  destruct (forallb _ acc); [apply prefix_app_r|]; reflexivity.
Qed.

Lemma nms_loop_elem bboxes thr order :
  forall acc i, i ∈ nms_loop bboxes thr order acc -> i ∈ acc \/ i ∈ order.
Proof.
  induction order as [|j order IH]; intros acc i; simpl; [auto|].
  intros H. apply IH in H as [H1|H1]; [|right; set_solver].
  destruct (forallb _ acc); [|auto].
  apply elem_of_app in H1 as [H2|H2]; [auto|].
  apply list_elem_of_singleton in H2 as ->. right. apply elem_of_cons. auto.
Qed.

(** The indices returned by the suppression routine address its inputs. *)
Lemma NMSBoxes_in_range bboxes scores score_threshold nms_threshold kept i :
  NMSBoxes bboxes scores score_threshold nms_threshold = Ok kept ->
  i ∈ kept -> (i < length scores)%nat.
Proof.
  unfold NMSBoxes.
  destruct (ge (Single.round score_threshold) zero
            && ge (Single.round nms_threshold) zero); [|discriminate].
  intros [= <-] H. apply nms_loop_elem in H as [H|H];
    [apply elem_of_nil in H; contradiction|].
  apply elem_of_order in H as (sc & Hi & _).
  apply lookup_lt_Some in Hi. rewrite length_fmap in Hi. exact Hi.
Qed.

(** The call raises exactly when a threshold, as a C float, is not at
    least 0. *)
Lemma NMSBoxes_cases bboxes scores score_threshold nms_threshold :
  NMSBoxes bboxes scores score_threshold nms_threshold
  = if ge (Single.round score_threshold) zero
       && ge (Single.round nms_threshold) zero
    then Ok (nms_loop bboxes (Single.round nms_threshold)
               (snd <$> GetMaxScoreIndex (Single.round <$> scores)
                          (Single.round score_threshold)) [])
    else Raise CvError.
Proof. reflexivity. Qed.

(** An index is retained exactly when it overlaps none of the indices
    retained before it by more than the threshold. *)
Lemma nms_loop_greedy bboxes thr pre i post :
  NoDup (pre ++ i :: post) ->
  i ∈ nms_loop bboxes thr (pre ++ i :: post) [] <->
  forallb (fun kept_idx =>
             le (rectOverlap (nth i bboxes (0, 0, 0, 0))
                             (nth kept_idx bboxes (0, 0, 0, 0))) thr)
          (nms_loop bboxes thr pre []) = true.
Proof.
  intros Hnd. rewrite nms_loop_app. simpl.
  set (K := nms_loop bboxes thr pre []).
  apply NoDup_app in Hnd as (_ & Hdisj & Hnd').
  apply NoDup_cons in Hnd' as [Hpost _].
  assert (HK : i ∉ K).
  { intros Hin. apply nms_loop_elem in Hin as [Hin|Hin];
      [apply elem_of_nil in Hin; contradiction|].
    apply (Hdisj i Hin). set_solver. }
  destruct (forallb _ K) eqn:Hkeep.
  - split; [reflexivity|]. intros _.
    apply (prefix_subseteq_elem _ _ i (nms_loop_prefix bboxes thr post (K ++ [i]))).
    set_solver.
  - split; [|discriminate]. intros Hin.
    apply nms_loop_elem in Hin as [Hin|Hin]; contradiction.
Qed.

(** ** [postprocess_image] *)

Lemma retained_indices_nil cfg : retained_indices cfg [] = [].
Proof.
  unfold retained_indices. rewrite NMSBoxes_cases.
  destruct (_ && _); reflexivity.
Qed.

Lemma retained_indices_in_range cfg cands i :
  i ∈ retained_indices cfg cands -> (i < length cands)%nat.
Proof.
  unfold retained_indices.
  destruct (NMSBoxes _ _ _ _) as [kept|e] eqn:E.
  - intros Hi. eapply NMSBoxes_in_range in Hi; [|exact E].
    rewrite length_fmap in Hi. exact Hi.
  - intros Hi. apply elem_of_nil in Hi. contradiction.
Qed.

Lemma retained_selects cfg cands :
  Forall2 (fun i c => cands !! i = Some c)
          (retained_indices cfg cands) (retained cfg cands).
Proof.
  unfold retained.
  pose proof (retained_indices_in_range cfg cands) as Hr.
  induction (retained_indices cfg cands) as [|i idxs IH]; simpl.
  - constructor.
  - destruct (lookup_lt_is_Some_2 cands i) as [c Hc]; [apply Hr; set_solver|].
    rewrite Hc. constructor; [exact Hc|]. apply IH.
    intros j Hj. apply Hr. set_solver.
Qed.

Lemma retained_subset cfg cands c :
  c ∈ retained cfg cands -> c ∈ cands.
Proof.
  unfold retained. rewrite list_elem_of_omap.
  intros (i & _ & Hi). eapply list_elem_of_lookup_2, Hi.
Qed.

(** [cv2.imwrite] followed by the return of [dets]. *)
Lemma imwrite_then_ret {A} w out im (dets : A) s :
  (imwrite w out im ;;; ret dets)%py s
  = (after_imwrite w out dets, with_written w out im s).
Proof.
  unfold bind, imwrite, after_imwrite, with_written, stored.
  destruct (cv_imwrite w out); simpl; [|destruct s|destruct s]; reflexivity.
Qed.

(** The frame with a NaN somewhere in the raw output. *)
Lemma postprocess_with_nan sth render cfg w image_path output dims out s :
  has_nan output = true ->
  postprocess_with sth render cfg w image_path output dims out s
  = match imread w image_path with
    | None =>
      (Raise AttributeError, set_invalid_outputs (S (invalid_outputs s)) s)
    | Some im =>
      (after_imwrite w out [],
       with_written w out
         (draw (PutText nan_caption (im_width im / 10) (im_height im / 2)) im)
         (set_invalid_outputs (S (invalid_outputs s)) s))
    end.
Proof.
  intros Hnan. unfold postprocess_with. rewrite Hnan.
  destruct (imread w image_path); [|reflexivity].
  unfold bind at 1. unfold modify at 1. apply imwrite_then_ret.
Qed.

(** The frame without a NaN, once the image is read, the scale factors are
    defined, the decoding loop has returned its candidates and every label
    is counted: the entries are those of the retained candidates. *)
Lemma postprocess_with_ok sth render cfg w image_path output height width out
    s im rw rh cands :
  has_nan output = false ->
  imread w image_path = Some im ->
  resized_img s = Some (rw, rh) ->
  rw <> 0 -> rh <> 0 ->
  decode_rows (conf_th cfg) sth width height
    (div (of_Z width) (of_Z rw)) (div (of_Z height) (of_Z rh)) output
  = Ok cands ->
  labels_counted cfg s ->
  postprocess_with sth render cfg w image_path output (height, width) out s
  = (after_imwrite w out (entries cfg render (retained cfg cands)),
     with_written w out (draw_all cfg render (retained cfg cands) im)
       (count_all cfg (retained cfg cands) s)).
Proof.
  intros Hnan Him Hres Hrw Hrh Hdec Hwf.
  unfold postprocess_with. rewrite Hnan, Him.
  unfold bind at 1. unfold get at 1. rewrite Hres.
  unfold py_truediv_int.
  rewrite (proj2 (Z.eqb_neq rw 0) Hrw), (proj2 (Z.eqb_neq rh 0) Hrh).
  unfold bind at 1. unfold lift at 1.
  unfold bind at 1. unfold lift at 1.
  unfold bind at 1. unfold lift at 1. rewrite Hdec.
  destruct cands as [|c0 cands'] eqn:Hc.
  - unfold retained. rewrite retained_indices_nil.
    change ((imwrite w out im ;;; ret [])%py s
            = (after_imwrite w out (entries cfg render []),
               with_written w out (draw_all cfg render [] im)
                 (count_all cfg [] s))).
    apply imwrite_then_ret.
  - rewrite <- Hc. replace (0 <? length cands)%nat with true
      by (subst cands; reflexivity).
    unfold bind at 1. cbv zeta.
    fold (retained_indices cfg cands).
    rewrite (survivors_loop_ok cfg render cands _ _ (retained_selects cfg cands))
      by assumption.
    cbn [fst snd]. apply imwrite_then_ret.
Qed.

(** Every call from a state in which every label is counted, whatever its
    outcome. *)
Lemma postprocess_with_effect sth render cfg w image_path output dims out
    s r s' :
  labels_counted cfg s ->
  postprocess_with sth render cfg w image_path output dims out s = (r, s') ->
  exists survivors, frame_effect sth cfg render output dims s r s' survivors.
Proof.
  intros Hwf Hrun.
  assert (Hnone : forall e s0,
            total_objects s0 = total_objects s ->
            objects_by_class s0 = objects_by_class s ->
            invalid_outputs s0
            = (invalid_outputs s + if has_nan output then 1 else 0)%nat ->
            total_time s0 = total_time s ->
            inference_time s0 = inference_time s ->
            num_frames s0 = num_frames s ->
            resized_img s0 = resized_img s ->
            match e with Ok dets => dets = [] | Raise _ => True end ->
            frame_effect sth cfg render output dims s e s0 []).
  { intros e s0 Ht Hc Hi Htt Hit Hn Hr He. split; simpl; auto.
    - destruct e; [exact He|left; reflexivity].
    - lia.
    - unfold class_sum. rewrite Hc. lia.
    - intros c Hc'. apply elem_of_nil in Hc'. contradiction.
    - intros name Hname. rewrite Hc. apply Hwf, Hname. }
  destruct (has_nan output) eqn:Hnan.
  - rewrite postprocess_with_nan in Hrun by assumption.
    exists []. destruct (imread w image_path); injection Hrun as <- <-;
      apply Hnone; simpl; auto; try lia.
    unfold after_imwrite. destruct (cv_imwrite w out); auto.
  - destruct (imread w image_path) as [im|] eqn:Him.
    2:{ unfold postprocess_with in Hrun. rewrite Hnan, Him in Hrun.
        injection Hrun as <- <-. exists []. apply Hnone; auto; lia. }
    destruct dims as [height width].
    destruct (resized_img s) as [[rw rh]|] eqn:Hres.
    2:{ unfold postprocess_with, bind, get in Hrun.
        rewrite Hnan, Him, Hres in Hrun.
        injection Hrun as <- <-. exists []. apply Hnone; auto; lia. }
    destruct (Z.eq_dec rw 0) as [->|Hrw].
    { unfold postprocess_with, bind, get, lift in Hrun.
      rewrite Hnan, Him, Hres in Hrun. simpl in Hrun.
      injection Hrun as <- <-. exists []. apply Hnone; auto; lia. }
    destruct (Z.eq_dec rh 0) as [->|Hrh].
    { unfold postprocess_with, bind, get, lift, py_truediv_int in Hrun.
      rewrite Hnan, Him, Hres in Hrun.
      rewrite (proj2 (Z.eqb_neq rw 0) Hrw) in Hrun. simpl in Hrun.
      injection Hrun as <- <-. exists []. apply Hnone; auto; lia. }
    destruct (decode_rows (conf_th cfg) sth width height
                (div (of_Z width) (of_Z rw)) (div (of_Z height) (of_Z rh))
                output) as [cands|e] eqn:Hdec.
    2:{ unfold postprocess_with, bind, get, lift, py_truediv_int in Hrun.
        rewrite Hnan, Him, Hres in Hrun.
        rewrite (proj2 (Z.eqb_neq rw 0) Hrw),
                (proj2 (Z.eqb_neq rh 0) Hrh), Hdec in Hrun.
        injection Hrun as <- <-. exists []. apply Hnone; auto; lia. }
    rewrite (postprocess_with_ok _ _ _ _ _ _ _ _ _ _ _ _ _ _
               Hnan Him Hres Hrw Hrh Hdec Hwf) in Hrun.
    injection Hrun as <- <-. exists (retained cfg cands).
    pose proof (count_all_same_run cfg (retained cfg cands) s)
      as (Hi & Htt & Hit & Hn & Hr & _).
    split; simpl.
    + unfold after_imwrite. destruct (cv_imwrite w out); auto.
    + apply count_all_total.
    + unfold class_sum at 1. simpl. fold (class_sum (count_all cfg (retained cfg cands) s)).
      apply count_all_class_sum, Hwf.
    + rewrite Hi, Hnan. lia.
    + congruence.
    + intros c Hc. apply retained_subset in Hc.
      pose proof (decode_rows_emitted _ _ _ _ _ _ _ _ Hdec) as Hall.
      rewrite Forall_forall in Hall. destruct (Hall c Hc) as (d & Hd & He).
      eauto.
    + intros name Hname. simpl. apply count_all_labels_counted; assumption.
    + auto.
Qed.

(** ** The frame with an invalid raw output *)

Lemma postprocess_with_nan_outcome sth render cfg w image_path output dims
    out s :
  has_nan output = true ->
  nan_frame_outcome w image_path out s
    (postprocess_with sth render cfg w image_path output dims out s).
Proof.
  intros Hnan. rewrite postprocess_with_nan by assumption.
  unfold nan_frame_outcome.
  destruct (imread w image_path) as [im|].
  - unfold after_imwrite, with_written, stored.
    destruct (cv_imwrite w out); simpl; repeat split; reflexivity.
  - simpl. repeat split; reflexivity.
Qed.

(** C1 (amended).  For every raw output that contains at least one NaN,
    [postprocess_image] of both files adds exactly 1 to the invalid-output
    counter and counts no object.  When the image is readable and OpenCV
    has an encoder for the output name, it returns no detection and
    passes the image with the warning caption as its only annotation to
    [cv2.imwrite], which leaves it at the output path; when the image is
    unreadable or the output name has no encoder, the call raises
    ([AttributeError], [cv2.error]) and writes nothing.  The rows are not
    decoded: two raw outputs with a NaN give the same outcome. *)
Theorem C1_nan_frame (cfg : config) (w : world) (image_path : string)
    (output : tensor) (dims : Z * Z) (out : string) (s : state) :
  has_nan output = true ->
  nan_frame_outcome w image_path out s
    (Server.postprocess_image cfg w image_path output dims out s) /\
  nan_frame_outcome w image_path out s
    (Fp32Server.postprocess_image cfg w image_path output dims out s) /\
  forall output', has_nan output' = true ->
    Server.postprocess_image cfg w image_path output' dims out s
    = Server.postprocess_image cfg w image_path output dims out s /\
    Fp32Server.postprocess_image cfg w image_path output' dims out s
    = Fp32Server.postprocess_image cfg w image_path output dims out s.
Proof.
  intros Hnan. split; [|split].
  - apply postprocess_with_nan_outcome, Hnan.
  - apply postprocess_with_nan_outcome, Hnan.
  - intros output' Hnan'. unfold Server.postprocess_image,
      Fp32Server.postprocess_image.
    rewrite !postprocess_with_nan by assumption. split; reflexivity.
Qed.

Lemma C1_witness :
  has_nan [Scenario.row_a; Scenario.row_nan] = true /\
  nan_frame_outcome (Scenario.world_with Scenario.three_images [])
    "in/1.jpg" "out/1.jpg" Scenario.prepared
    (Server.postprocess_image Scenario.cfg
       (Scenario.world_with Scenario.three_images []) "in/1.jpg"
       [Scenario.row_a; Scenario.row_nan] (640, 640) "out/1.jpg"
       Scenario.prepared).
Proof.
  split; [reflexivity|].
  apply (C1_nan_frame Scenario.cfg
           (Scenario.world_with Scenario.three_images []) "in/1.jpg"
           [Scenario.row_a; Scenario.row_nan] (640, 640) "out/1.jpg"
           Scenario.prepared).
  reflexivity.
Defined.

(** C1 as stated fails: a raw output whose only non-finite entry is an
    infinite class score has no NaN; the row is decoded, one detection is
    returned and the invalid-output counter stays at 0. *)
Lemma C1_counterexample :
  has_non_finite [Scenario.row_inf] = true /\
  (exists d,
     fst (Server.postprocess_image Scenario.cfg
            (Scenario.world_with Scenario.three_images []) "in/1.jpg"
            [Scenario.row_inf] (640, 640) "out/1.jpg" Scenario.prepared)
     = Ok [d]) /\
  invalid_outputs
    (snd (Server.postprocess_image Scenario.cfg
            (Scenario.world_with Scenario.three_images []) "in/1.jpg"
            [Scenario.row_inf] (640, 640) "out/1.jpg" Scenario.prepared))
  = 0%nat /\
  invalid_outputs Scenario.prepared = 0%nat.
Proof.
  split; [reflexivity|]. split; [|split; vm_compute; reflexivity].
  eexists. vm_compute. reflexivity.
Qed.

(** An output name without an extension: the frame with a NaN is counted
    as invalid, [cv2.imwrite] raises and no file is written. *)
Example nan_frame_without_encoder :
  let run :=
    Server.postprocess_image Scenario.cfg
      (Scenario.codec_world Scenario.three_images []) "in/pic"
      [Scenario.row_a; Scenario.row_nan] (640, 640) "out/pic"
      Scenario.prepared in
  fst run = Raise CvError /\
  invalid_outputs (snd run) = 1%nat /\
  written (snd run) = written Scenario.prepared.
Proof. vm_compute. auto. Qed.

(** ** [generate_metrics] *)

Lemma generate_metrics_no_frame (s : state) :
  num_frames s = 0%nat -> generate_metrics s = (Ok None, s).
Proof.
  intros H. unfold generate_metrics, bind, get. rewrite H. reflexivity.
Qed.

Lemma generate_metrics_zero_time (s : state) :
  num_frames s <> 0%nat -> is_zero (total_time s) = true ->
  generate_metrics s = (Raise ZeroDivisionError, s).
Proof.
  intros Hn Hz. unfold generate_metrics, bind, get, lift, py_truediv.
  destruct (num_frames s) as [|n] eqn:E; [contradiction|].
  simpl Nat.ltb. cbv iota. rewrite Hz. reflexivity.
Qed.

Lemma generate_metrics_frames (s : state) :
  num_frames s <> 0%nat -> is_zero (total_time s) = false ->
  generate_metrics s
  = (Ok (Some {| m_num_frames := num_frames s;
                 m_total_time := total_time s;
                 m_inference_time := inference_time s;
                 m_average_fps :=
                   div (of_Z (Z.of_nat (num_frames s))) (total_time s);
                 m_average_inference_time :=
                   div (inference_time s) (of_Z (Z.of_nat (num_frames s)));
                 m_total_objects := total_objects s;
                 m_invalid_outputs := invalid_outputs s;
                 m_objects_by_class := objects_by_class s |}), s).
Proof.
  intros Hn Hz.
  unfold generate_metrics, bind, get, lift, py_truediv, py_truediv_int.
  destruct (num_frames s) as [|n] eqn:E; [contradiction|].
  simpl Nat.ltb. cbv iota. rewrite Hz.
  replace (Z.of_nat (S n) =? 0) with false by (symmetry; apply Z.eqb_neq; lia).
  reflexivity.
Qed.

(** C2 (amended).  [generate_metrics], the same in both files, does not
    fail without frames: with [num_frames == 0] it returns the empty
    dictionary.  With [num_frames > 0] and [total_time == 0] it fails with
    [ZeroDivisionError].  The only guard of the derivation is
    [num_frames > 0]: whenever a dictionary with an average FPS is
    returned, [total_time] is not zero and the average is the quotient
    [num_frames / total_time], so no infinity or NaN arises from a zero
    divisor.  The counters are never changed. *)
Theorem C2_generate_metrics (s : state) :
  (num_frames s = 0%nat -> generate_metrics s = (Ok None, s)) /\
  (num_frames s <> 0%nat -> is_zero (total_time s) = true ->
   generate_metrics s = (Raise ZeroDivisionError, s)) /\
  (forall m s', generate_metrics s = (Ok (Some m), s') ->
     s' = s /\ num_frames s <> 0%nat /\ is_zero (total_time s) = false /\
     m_num_frames m = num_frames s /\
     m_average_fps m = div (of_Z (Z.of_nat (num_frames s))) (total_time s) /\
     m_average_inference_time m
     = div (inference_time s) (of_Z (Z.of_nat (num_frames s)))) /\
  snd (generate_metrics s) = s.
Proof.
  split; [apply generate_metrics_no_frame|].
  split; [apply generate_metrics_zero_time|].
  destruct (Nat.eq_dec (num_frames s) 0%nat) as [Hn|Hn].
  - rewrite generate_metrics_no_frame by assumption.
    split; [discriminate|reflexivity].
  - destruct (is_zero (total_time s)) eqn:Hz.
    + rewrite generate_metrics_zero_time by assumption.
      split; [discriminate|reflexivity].
    + rewrite generate_metrics_frames by assumption.
      split; [|reflexivity]. intros m s' [= <- <-]. simpl. repeat split; auto.
Qed.

Lemma C2_witness :
  fst (generate_metrics Scenario.zero_time) = Raise ZeroDivisionError /\
  fst (generate_metrics Scenario.fresh) = Ok None /\
  forall m, fst (generate_metrics Scenario.timed) = Ok (Some m) ->
            m_average_fps m = div (of_Z 1) (ratio 3 100).
Proof.
  destruct (C2_generate_metrics Scenario.zero_time) as (_ & Hz & _).
  destruct (C2_generate_metrics Scenario.fresh) as (Hf & _).
  destruct (C2_generate_metrics Scenario.timed) as (_ & _ & Ht & _).
  split; [|split].
  - rewrite Hz; [reflexivity|discriminate|reflexivity].
  - rewrite Hf; reflexivity.
  - intros m Hm.
    destruct (generate_metrics Scenario.timed) as [r s'] eqn:E.
    simpl in Hm. subst r. destruct (Ht m s' eq_refl) as (_ & _ & _ & _ & Hfps & _).
    exact Hfps.
Defined.

(** C2 as stated fails: called with [num_frames == 0] the method returns
    the empty dictionary instead of failing. *)
Lemma C2_counterexample :
  num_frames Scenario.fresh = 0%nat /\
  generate_metrics Scenario.fresh = (Ok None, Scenario.fresh).
Proof. split; reflexivity. Qed.

(** ** The thresholds of the decoding loop *)







Lemma server_render_faithful cfg : faithful (Server.render cfg).
Proof. intros name c. simpl. auto. Qed.

Lemma fp32_render_faithful : faithful Fp32Server.render.
Proof. intros name c. simpl. auto. Qed.





(** ** The object counters *)

Lemma class_sum_zero (m : gmap string nat) :
  (forall name n, m !! name = Some n -> n = 0%nat) ->
  map_fold (fun _ n acc => (n + acc)%nat) 0%nat m = 0%nat.
Proof.
  apply (map_fold_weak_ind
           (fun r (m' : gmap string nat) =>
              (forall name n, m' !! name = Some n -> n = 0%nat) -> r = 0%nat)).
  - reflexivity.
  - intros i x m' r Hi IH Hall.
    rewrite (Hall i x) by apply lookup_insert_eq.
    rewrite IH; [reflexivity|].
    intros name n Hn. apply (Hall name).
    rewrite lookup_insert_ne; [exact Hn|]. congruence.
Qed.

Lemma reset_counters_state cfg s :
  let s' := snd (reset_counters cfg s) in
  total_objects s' = 0%nat /\ class_sum s' = 0%nat /\
  invalid_outputs s' = 0%nat /\ num_frames s' = 0%nat /\
  total_time s' = zero /\ inference_time s' = zero /\
  labels_counted cfg s' /\
  resized_img s' = resized_img s /\ written s' = written s /\
  logs s' = logs s.
Proof.
  simpl. repeat split.
  - unfold class_sum. simpl. apply class_sum_zero. intros name n Hn.
    apply elem_of_list_to_map_2, list_elem_of_fmap in Hn.
    destruct Hn as (l & [= _ ->] & _). reflexivity.
  - intros name Hname. simpl.
    destruct (list_to_map ((fun label => (label, 0%nat)) <$> class_labels cfg)
              !! name) as [n|] eqn:E; [eauto|].
    apply not_elem_of_list_to_map_2 in E. exfalso. apply E.
    rewrite <- list_fmap_compose. apply list_elem_of_fmap.
    exists name. split; [reflexivity|exact Hname].
Qed.

Lemma filter_length_all {A} (f : A -> bool) (l : list A) :
  length (List.filter f l) = length l <-> Forall (fun x => f x = true) l.
Proof.
  induction l as [|x l IH]; simpl.
  - split; [constructor|reflexivity].
  - pose proof (List.filter_length_le f l) as Hle.
    destruct (f x) eqn:E; simpl.
    + split.
      * intros [= H]. constructor; [exact E|]. apply IH, H.
      * intros H. apply Forall_cons in H as [_ H]. f_equal. apply IH, H.
    + split; [lia|]. intros H. apply Forall_cons in H as [H _]. congruence.
Qed.

Lemma class_name_in_table cfg c :
  class_name_of cfg c
  = if in_label_table cfg c
    then nth (cand_class c) (class_labels cfg) ""%string
    else "Unknown"%string.
Proof.
  unfold class_name_of, in_label_table.
  destruct (class_labels cfg !! cand_class c) as [name|] eqn:E; simpl.
  - rewrite bool_decide_eq_true_2 by (eapply lookup_lt_Some, E).
    symmetry. apply nth_lookup_Some with (d := ""%string) in E. exact E.
  - rewrite bool_decide_eq_false_2; [reflexivity|].
    apply lookup_ge_None in E. lia.
Qed.

Lemma postprocess_with_counts sth render cfg w image_path output dims out
    s r s' :
  faithful render ->
  labels_counted cfg s ->
  postprocess_with sth render cfg w image_path output dims out s = (r, s') ->
  counts_outcome cfg render s r s'.
Proof.
  intros Hf Hwf Hrun.
  destruct (postprocess_with_effect _ _ _ _ _ _ _ _ _ _ _ Hwf Hrun)
    as (survivors & [Hres Htot Hcls _ _ _ _ _]).
  exists survivors.
  pose proof (List.filter_length_le (in_label_table cfg) survivors) as Hle.
  split; [intros dets ->; exact Hres|]. split; [exact Htot|].
  split; [exact Hcls|].
  split; [|split].
  - apply Forall_forall. intros c _. unfold render_one.
    destruct (Hf (class_name_of cfg c) c) as (_ & _ & ->).
    apply class_name_in_table.
  - lia.
  - intros Heq. rewrite <- filter_length_all. lia.
Qed.

(** C10.  From a state in which every label of the table is counted (as
    after [reset_counters], where both counters are 0), a call of
    [postprocess_image] of either file, whether it returns or raises,
    adds one to [total_objects] for every surviving candidate and one to
    [objects_by_class] only for those whose class index is in the label
    table; the others are named "Unknown".  So [total_objects >= sum of
    objects_by_class] is preserved and, starting from equality, equality
    holds after the call exactly when every survivor's class index is in
    range.  A call that returns, returns the entries of the survivors it
    counted; a call whose final [cv2.imwrite] raises has counted them all
    the same. *)
Theorem C10_total_bounds_class_counts (cfg : config) (w : world)
    (image_path : string) (output : tensor) (dims : Z * Z) (out : string)
    (s : state) :
  labels_counted cfg s ->
  (forall r s',
     Server.postprocess_image cfg w image_path output dims out s = (r, s') ->
     counts_outcome cfg (Server.render cfg) s r s') /\
  (forall r s',
     Fp32Server.postprocess_image cfg w image_path output dims out s = (r, s') ->
     counts_outcome cfg Fp32Server.render s r s') /\
  (let s0 := snd (reset_counters cfg s) in
   labels_counted cfg s0 /\ total_objects s0 = 0%nat /\ class_sum s0 = 0%nat).
Proof.
  intros Hwf. split; [|split].
  - intros r s'. apply postprocess_with_counts;
      [apply server_render_faithful|exact Hwf].
  - intros r s'. apply postprocess_with_counts;
      [apply fp32_render_faithful|exact Hwf].
  - pose proof (reset_counters_state cfg s) as H. cbv zeta in *. tauto.
Qed.

Lemma scenario_labels_counted (s : state) :
  objects_by_class s = objects_by_class Scenario.fresh ->
  labels_counted Scenario.cfg s.
Proof.
  intros Hs name Hn. rewrite Hs.
  repeat (apply elem_of_cons in Hn as [->|Hn]);
    [eexists; vm_compute; reflexivity ..|].
  apply elem_of_nil in Hn. contradiction.
Qed.

Lemma C10_witness :
  labels_counted Scenario.cfg Scenario.prepared /\
  let run :=
    Server.postprocess_image Scenario.cfg
      (Scenario.world_with Scenario.three_images []) "in/1.jpg"
      [Scenario.row_a; Scenario.row_unlabelled] (640, 640) "out/1.jpg"
      Scenario.prepared in
  counts_outcome Scenario.cfg (Server.render Scenario.cfg) Scenario.prepared
    (fst run) (snd run) /\
  det_class <$> match fst run with Ok dets => dets | Raise _ => [] end
  = ["person"; "Unknown"]%string /\
  total_objects (snd run) = 2%nat /\ class_sum (snd run) = 1%nat.
Proof.
  split; [apply scenario_labels_counted; reflexivity|].
  cbv zeta. split; [|vm_compute; auto].
  destruct (C10_total_bounds_class_counts Scenario.cfg
              (Scenario.world_with Scenario.three_images []) "in/1.jpg"
              [Scenario.row_a; Scenario.row_unlabelled] (640, 640) "out/1.jpg"
              Scenario.prepared
              (scenario_labels_counted _ eq_refl)) as (H & _).
  apply H. apply surjective_pairing.
Defined.

(** An output name without an extension: the two survivors are counted,
    one of them under its label, and then [cv2.imwrite] raises. *)
Example counted_before_imwrite_raises :
  let run :=
    Server.postprocess_image Scenario.cfg
      (Scenario.codec_world Scenario.three_images []) "in/pic"
      [Scenario.row_a; Scenario.row_unlabelled] (640, 640) "out/pic"
      Scenario.prepared in
  fst run = Raise CvError /\
  total_objects (snd run) = 2%nat /\ class_sum (snd run) = 1%nat.
Proof. vm_compute. auto. Qed.

(** ** One image through the pipeline *)

Lemma decode_row_shaped cth sth width height scale_x scale_y (detect : row) :
  row_has_nan detect || (6 <=? length detect)%nat = true ->
  forall e, decode_row cth sth width height scale_x scale_y detect <> Fail e.
Proof.
  intros Hs e. unfold decode_row.
  destruct (row_has_nan detect); [discriminate|].
  rewrite orb_false_l in Hs. apply Nat.leb_le in Hs.
  destruct detect as [|cx [|cy [|w [|h [|conf [|sc rest]]]]]];
    simpl in Hs; try lia.
  simpl. destruct (lt conf cth); [discriminate|].
  destruct (lt _ (Single.round sth)); [discriminate|].
  destruct (negb _); [discriminate|].
  destruct (scaled_box _ _ _ _ _ _ _ _) as [[[[x y] bw] bh]|]; [|discriminate].
  destruct ((bw <=? 0) || (bh <=? 0)); discriminate.
Qed.

Lemma decode_rows_shaped cth sth width height scale_x scale_y output :
  rows_shaped output = true ->
  exists cands,
    decode_rows cth sth width height scale_x scale_y output = Ok cands.
Proof.
  unfold rows_shaped. induction output as [|detect rest IH]; simpl.
  - eauto.
  - intros H. apply andb_true_iff in H as [Hd Hrest].
    destruct (IH Hrest) as (cands & ->).
    pose proof (decode_row_shaped cth sth width height scale_x scale_y
                  detect Hd) as Hnf.
    destruct (decode_row cth sth width height scale_x scale_y detect);
      [eauto|eauto|].
    exfalso. eapply Hnf. reflexivity.
Qed.

Lemma run_image_unreadable postprocess cfg w image_path save_dir_path s :
  imread w image_path = None ->
  run_image postprocess cfg w image_path save_dir_path s = (Raise ValueError, s).
Proof.
  intros H. unfold run_image, bind, preprocess_image. rewrite H. reflexivity.
Qed.

(** The outcome of one image from a state in which every label is
    counted: the frame counter is left alone and the object counter grows
    by the number of survivors counted, which are the returned entries
    when the image goes through. *)
Lemma run_image_effect sth render cfg w image_path save_dir_path s r s' :
  labels_counted cfg s ->
  run_image (postprocess_with sth render cfg) cfg w image_path save_dir_path s
  = (r, s') ->
  exists survivors,
    match r with
    | Ok ir =>
      ir = ImageOk image_path (path_join save_dir_path (basename image_path))
             (entries cfg render survivors)
    | Raise e => survivors = [] \/ e = CvError
    end /\
    total_objects s' = (total_objects s + length survivors)%nat /\
    num_frames s' = num_frames s /\
    labels_counted cfg s'.
Proof.
  intros Hwf Hrun.
  assert (Hnone : forall e s0,
            total_objects s0 = total_objects s ->
            objects_by_class s0 = objects_by_class s ->
            num_frames s0 = num_frames s ->
            exists survivors : list candidate,
              (survivors = [] \/ e = CvError) /\
              total_objects s0 = (total_objects s + length survivors)%nat /\
              num_frames s0 = num_frames s /\ labels_counted cfg s0).
  { intros e s0 Ht Hc Hn. exists []. split; [left; reflexivity|].
    split; [simpl; lia|]. split; [exact Hn|].
    intros name Hname. rewrite Hc. apply Hwf, Hname. }
  unfold run_image, preprocess_image in Hrun.
  destruct (imread w image_path) as [img|] eqn:Him.
  2:{ unfold bind, raise in Hrun. injection Hrun as <- <-. apply Hnone; auto. }
  destruct (input_shape cfg !! 2%nat) as [d2|];
    [|unfold bind, raise in Hrun; injection Hrun as <- <-; apply Hnone; auto].
  destruct (input_shape cfg !! 3%nat) as [d3|];
    [|unfold bind, raise in Hrun; injection Hrun as <- <-; apply Hnone; auto].
  destruct ((d2 <=? 0) || (d3 <=? 0));
    [unfold bind, raise in Hrun; injection Hrun as <- <-; apply Hnone; auto|].
  destruct (engine_output w image_path) as [output|] eqn:Heng.
  2:{ cbv [bind modify ret raise add_total_time] in Hrun.
      injection Hrun as <- <-. apply Hnone; auto. }
  cbv [bind modify ret add_total_time add_inference_time] in Hrun.
  match type of Hrun with
  | context [postprocess_with _ _ _ _ _ _ _ _ ?s2] => set (s2' := s2) in Hrun
  end.
  assert (Hwf2 : labels_counted cfg s2') by exact Hwf.
  destruct (postprocess_with sth render cfg w image_path output
              (im_height img, im_width img)
              (path_join save_dir_path (basename image_path)) s2')
    as [r2 s3] eqn:Hpost.
  destruct (postprocess_with_effect _ _ _ _ _ _ _ _ _ _ _ Hwf2 Hpost)
    as (survivors & [Hres Htot _ _ _ _ Hlab (_ & _ & Hnf & _)]).
  exists survivors. destruct r2 as [dets|e]; cbn in Hres.
  - subst dets. unfold ret in Hrun. injection Hrun as <- <-.
    split; [reflexivity|]. split; [exact Htot|].
    split; [exact Hnf|exact Hlab].
  - injection Hrun as <- <-. split; [exact Hres|].
    split; [exact Htot|]. split; [exact Hnf|exact Hlab].
Qed.

Lemma after_imwrite_ok {A} w out (dets : A) :
  cv_imwrite w out <> NoEncoder -> after_imwrite w out dets = Ok dets.
Proof.
  unfold after_imwrite. destruct (cv_imwrite w out); congruence.
Qed.

Lemma postprocess_with_returns sth render cfg w image_path output height
    width out s im rw rh :
  imread w image_path = Some im ->
  resized_img s = Some (rw, rh) -> rw <> 0 -> rh <> 0 ->
  rows_shaped output = true ->
  cv_imwrite w out <> NoEncoder ->
  labels_counted cfg s ->
  exists dets s',
    postprocess_with sth render cfg w image_path output (height, width) out s
    = (Ok dets, s').
Proof.
  intros Him Hres Hrw Hrh Hshape Henc Hwf.
  destruct (has_nan output) eqn:Hnan.
  - rewrite postprocess_with_nan, Him by assumption.
    rewrite after_imwrite_ok by assumption. eauto.
  - destruct (decode_rows_shaped (conf_th cfg) sth width height
                (div (of_Z width) (of_Z rw)) (div (of_Z height) (of_Z rh))
                output Hshape) as (cands & Hdec).
    rewrite (postprocess_with_ok _ _ _ _ _ _ _ _ _ _ _ _ _ _
               Hnan Him Hres Hrw Hrh Hdec Hwf).
    rewrite after_imwrite_ok by assumption. eauto.
Qed.

Lemma encodable_spec w save_dir_path image_path :
  encodable w save_dir_path image_path = true ->
  cv_imwrite w (path_join save_dir_path (basename image_path)) <> NoEncoder.
Proof.
  unfold encodable. destruct (cv_imwrite w _); congruence.
Qed.

(** An image that goes through: a successful entry, the two durations
    accounted, one object counted per entry. *)
Lemma run_image_ok sth render cfg w image_path save_dir_path s :
  frame_ok cfg w image_path = true ->
  encodable w save_dir_path image_path = true ->
  labels_counted cfg s ->
  exists survivors s',
    run_image (postprocess_with sth render cfg) cfg w image_path
      save_dir_path s
    = (Ok (ImageOk image_path (path_join save_dir_path (basename image_path))
             (entries cfg render survivors)), s') /\
    total_objects s' = (total_objects s + length survivors)%nat /\
    total_time s'
    = add (add (total_time s) (preprocess_time w image_path))
          (engine_time w image_path) /\
    inference_time s' = add (inference_time s) (engine_time w image_path) /\
    num_frames s' = num_frames s /\
    labels_counted cfg s'.
Proof.
  intros Hok Henc Hwf. unfold frame_ok in Hok. apply encodable_spec in Henc.
  destruct (imread w image_path) as [img|] eqn:Him; [|discriminate].
  destruct (input_shape cfg !! 2%nat) as [d2|] eqn:H2; [|discriminate].
  destruct (input_shape cfg !! 3%nat) as [d3|] eqn:H3; [|discriminate].
  destruct (engine_output w image_path) as [output|] eqn:Heng; [|discriminate].
  apply andb_true_iff in Hok as [Hok Hshape].
  apply andb_true_iff in Hok as [Hd2 Hd3].
  apply Z.ltb_lt in Hd2, Hd3.
  unfold run_image, preprocess_image. rewrite Him, H2, H3, Heng.
  replace ((d2 <=? 0) || (d3 <=? 0)) with false
    by (symmetry; apply orb_false_iff; split; apply Z.leb_gt; lia).
  cbv [bind modify ret add_total_time add_inference_time].
  match goal with
  | |- context [postprocess_with _ _ _ _ _ _ _ _ ?s2] => set (s2' := s2)
  end.
  assert (Hwf2 : labels_counted cfg s2') by exact Hwf.
  destruct (postprocess_with_returns sth render cfg w image_path output
              (im_height img) (im_width img)
              (path_join save_dir_path (basename image_path)) s2' img d3 d2
              Him eq_refl ltac:(lia) ltac:(lia) Hshape Henc Hwf2)
    as (dets & s3 & Hpost).
  rewrite Hpost.
  destruct (postprocess_with_effect _ _ _ _ _ _ _ _ _ _ _ Hwf2 Hpost)
    as (survivors & [Hres Htot _ _ _ _ Hlab (Htt & Hit & Hnf & _)]).
  cbn in Hres. subst dets. exists survivors, s3.
  split; [reflexivity|]. split; [exact Htot|].
  split; [rewrite Htt; reflexivity|]. split; [rewrite Hit; reflexivity|].
  split; [exact Hnf|exact Hlab].
Qed.

Lemma guarded_run_ok sth render cfg w save_dir_path image_path s :
  frame_ok cfg w image_path = true ->
  encodable w save_dir_path image_path = true ->
  labels_counted cfg s ->
  exists survivors s',
    guarded_run sth render cfg w save_dir_path image_path s
    = (Ok (ImageOk image_path (path_join save_dir_path (basename image_path))
             (entries cfg render survivors)), s') /\
    total_objects s' = (total_objects s + length survivors)%nat /\
    total_time s'
    = add (add (total_time s) (preprocess_time w image_path))
          (engine_time w image_path) /\
    inference_time s' = add (inference_time s) (engine_time w image_path) /\
    num_frames s' = num_frames s /\
    labels_counted cfg s'.
Proof.
  intros Hok Henc Hwf.
  destruct (run_image_ok sth render cfg w image_path save_dir_path s Hok Henc
              Hwf)
    as (survivors & s' & Hrun & H).
  exists survivors, s'. split; [|exact H].
  unfold guarded_run, try_catch. rewrite Hrun. reflexivity.
Qed.

Lemma guarded_run_unreadable sth render cfg w save_dir_path image_path s :
  imread w image_path = None ->
  guarded_run sth render cfg w save_dir_path image_path s
  = (Ok (ImageFailed image_path ValueError), s).
Proof.
  intros H. unfold guarded_run, try_catch.
  rewrite run_image_unreadable by assumption. reflexivity.
Qed.

Lemma entries_length cfg render survivors :
  length (entries cfg render survivors) = length survivors.
Proof. unfold entries. apply length_fmap. Qed.

(** A step never raises; its entry carries the path of its image, and the
    survivors it has counted are those its entry lists, unless the final
    [cv2.imwrite] raised. *)
Lemma guarded_run_effect sth render cfg w save_dir_path image_path s r s' :
  labels_counted cfg s ->
  guarded_run sth render cfg w save_dir_path image_path s = (r, s') ->
  exists ir survivors,
    r = Ok ir /\ result_path ir = image_path /\
    counted_in cfg render ir survivors /\
    total_objects s' = (total_objects s + length survivors)%nat /\
    num_frames s' = num_frames s /\
    labels_counted cfg s'.
Proof.
  intros Hwf Hrun. unfold guarded_run, try_catch in Hrun.
  destruct (run_image _ cfg w image_path save_dir_path s) as [r1 s1] eqn:E.
  destruct (run_image_effect _ _ _ _ _ _ _ _ _ Hwf E)
    as (survivors & Hres & Htot & Hnf & Hlab).
  destruct r1 as [ir|e].
  - subst ir. injection Hrun as <- <-. eexists _, survivors.
    split; [reflexivity|]. split; [reflexivity|].
    split; [split; [reflexivity|apply entries_length]|]. auto.
  - cbv [ret] in Hrun. injection Hrun as <- <-.
    eexists _, survivors. split; [reflexivity|]. split; [reflexivity|].
    split; [exact Hres|]. auto.
Qed.

(** The detections of an entry are the entries of some candidates. *)
Lemma counted_in_detections cfg render ir survivors :
  counted_in cfg render ir survivors ->
  exists v, result_detections ir = entries cfg render v.
Proof.
  destruct ir as [p o dets|p e]; simpl.
  - intros [-> _]. eauto.
  - intros _. exists []. reflexivity.
Qed.

(** [os.makedirs], by the answer of the machine. *)
Lemma makedirs_run {S : Type} w path (s : S) :
  makedirs w path s
  = (if creatable w path then Ok tt else Raise OSError, s).
Proof.
  unfold makedirs, creatable.
  destruct (String.eqb path ""); [reflexivity|].
  destruct (can_makedirs w path); reflexivity.
Qed.

(** [infer_single_image] stops before anything has changed when the
    output directory cannot be created. *)
Lemma infer_single_image_not_created cfg w image_path save_dir_path reset s :
  creatable w save_dir_path = false ->
  Server.infer_single_image cfg w image_path save_dir_path reset s
  = (Raise OSError, s).
Proof.
  intros H. unfold Server.infer_single_image, bind.
  rewrite makedirs_run, H. reflexivity.
Qed.

Lemma infer_single_image_created cfg w image_path save_dir_path reset s :
  creatable w save_dir_path = true ->
  Server.infer_single_image cfg w image_path save_dir_path reset s
  = ((if reset then reset_counters cfg ;;; modify (set_num_frames 1)
      else ret tt) ;;;
     guarded_run (conf_th cfg) (Server.render cfg) cfg w save_dir_path
       image_path)%py s.
Proof.
  intros H. unfold Server.infer_single_image.
  unfold bind at 1. rewrite makedirs_run, H. reflexivity.
Qed.

Lemma try_catch_guarded sth render cfg w save_dir_path image_path s :
  try_catch (guarded_run sth render cfg w save_dir_path image_path)
    (fun e => ret (ImageFailed image_path e)) s
  = guarded_run sth render cfg w save_dir_path image_path s.
Proof.
  unfold guarded_run, try_catch.
  destruct (run_image _ cfg w image_path save_dir_path s) as [[ir|e] s1];
    reflexivity.
Qed.

Lemma folder_loop_ext (f g : string -> M state image_result) paths :
  (forall p s, try_catch (f p) (fun e => ret (ImageFailed p e)) s
               = try_catch (g p) (fun e => ret (ImageFailed p e)) s) ->
  forall acc s, folder_loop f paths acc s = folder_loop g paths acc s.
Proof.
  intros Hfg. induction paths as [|p paths IH]; intros acc s; simpl.
  - reflexivity.
  - unfold bind. rewrite Hfg.
    destruct (try_catch (g p) _ s) as [[ir|e] s1]; [apply IH|reflexivity].
Qed.

(** The loop of either file in terms of the guarded step. *)
Lemma server_folder_loop cfg w save_dir_path paths acc s :
  creatable w save_dir_path = true ->
  folder_loop
    (fun image_path =>
       Server.infer_single_image cfg w image_path save_dir_path false)
    paths acc s
  = folder_loop
      (guarded_run (conf_th cfg) (Server.render cfg) cfg w save_dir_path)
      paths acc s.
Proof.
  intros Hdir. apply folder_loop_ext. intros p s0.
  unfold try_catch at 1.
  rewrite infer_single_image_created by assumption.
  cbv [bind ret try_catch guarded_run]. reflexivity.
Qed.

Lemma fp32_folder_loop cfg w save_dir_path paths acc s :
  folder_loop
    (fun image_path =>
       run_image (Fp32Server.postprocess_image cfg) cfg w image_path
         save_dir_path)
    paths acc s
  = folder_loop
      (guarded_run (score_th cfg) Fp32Server.render cfg w save_dir_path)
      paths acc s.
Proof.
  apply folder_loop_ext. intros p s0.
  rewrite try_catch_guarded. reflexivity.
Qed.

Lemma folder_loop_step f p paths acc s ir s1 :
  f p s = (Ok ir, s1) ->
  folder_loop f (p :: paths) acc s = folder_loop f paths (acc ++ [ir]) s1.
Proof.
  intros H. simpl. unfold bind, try_catch. rewrite H. reflexivity.
Qed.
(** ** A folder with an unreadable image *)

(** [infer_folder] of either file once the output directory is created
    and the folder listed. *)
Lemma server_infer_folder_listed cfg w folder_path save_dir_path paths s :
  creatable w save_dir_path = true ->
  get_images_from_folder w folder_path = Ok paths ->
  Server.infer_folder cfg w folder_path save_dir_path s
  = (reset_counters cfg ;;;
     modify (set_num_frames (length paths)) ;;;
     match paths with
     | [] => ret FolderEmpty
     | _ :: _ =>
       results <-
         folder_loop
           (guarded_run (conf_th cfg) (Server.render cfg) cfg w save_dir_path)
           paths [] ;;
       m <- generate_metrics ;;
       ret (FolderOk m results)
     end)%py s.
Proof.
  intros Hdir Hpaths. unfold Server.infer_folder.
  unfold bind at 1. rewrite makedirs_run, Hdir, Hpaths.
  cbv [bind lift reset_counters modify].
  destruct paths as [|p paths]; [reflexivity|].
  rewrite server_folder_loop by assumption. reflexivity.
Qed.

Lemma fp32_infer_folder_listed cfg w folder_path save_dir_path paths s :
  creatable w save_dir_path = true ->
  get_images_from_folder w folder_path = Ok paths ->
  Fp32Server.infer_folder cfg w folder_path save_dir_path s
  = (reset_counters cfg ;;;
     modify (set_num_frames (length paths)) ;;;
     match paths with
     | [] => ret FolderEmpty
     | _ :: _ =>
       results <-
         folder_loop
           (guarded_run (score_th cfg) Fp32Server.render cfg w save_dir_path)
           paths [] ;;
       m <- generate_metrics ;;
       Fp32Server.save_logs cfg w m
         (path_join save_dir_path "inference_logs.txt") ;;;
       ret (FolderOk m results)
     end)%py s.
Proof.
  intros Hdir Hpaths. unfold Fp32Server.infer_folder.
  unfold bind at 1. rewrite makedirs_run, Hdir, Hpaths.
  cbv [bind lift reset_counters modify].
  destruct paths as [|p paths]; [reflexivity|].
  rewrite fp32_folder_loop. reflexivity.
Qed.

(** [infer_folder] of either file stops before anything has changed when
    the output directory cannot be created. *)
Lemma infer_folder_not_created cfg w folder_path save_dir_path s :
  creatable w save_dir_path = false ->
  Server.infer_folder cfg w folder_path save_dir_path s = (Raise OSError, s) /\
  Fp32Server.infer_folder cfg w folder_path save_dir_path s
  = (Raise OSError, s).
Proof.
  intros H. unfold Server.infer_folder, Fp32Server.infer_folder, bind.
  rewrite makedirs_run, H. split; reflexivity.
Qed.

Lemma three_images_loop sth render cfg w dir p1 p2 p3 s :
  frame_ok cfg w p1 = true -> encodable w dir p1 = true ->
  imread w p2 = None ->
  frame_ok cfg w p3 = true -> encodable w dir p3 = true ->
  labels_counted cfg s ->
  exists o1 d1 o3 d3 s',
    folder_loop (guarded_run sth render cfg w dir) [p1; p2; p3] [] s
    = (Ok [ImageOk p1 o1 d1; ImageFailed p2 ValueError; ImageOk p3 o3 d3], s') /\
    total_objects s' = (total_objects s + length d1 + length d3)%nat /\
    total_time s'
    = add (add (add (add (total_time s) (preprocess_time w p1))
                    (engine_time w p1))
               (preprocess_time w p3)) (engine_time w p3) /\
    num_frames s' = num_frames s.
Proof.
  intros H1 E1 H2 H3 E3 Hwf.
  destruct (guarded_run_ok sth render cfg w dir p1 s H1 E1 Hwf)
    as (v1 & s1 & Hr1 & Ht1 & Htt1 & _ & Hn1 & Hwf1).
  pose proof (guarded_run_unreadable sth render cfg w dir p2 s1 H2) as Hr2.
  destruct (guarded_run_ok sth render cfg w dir p3 s1 H3 E3 Hwf1)
    as (v3 & s3 & Hr3 & Ht3 & Htt3 & _ & Hn3 & _).
  eexists _, (entries cfg render v1), _, (entries cfg render v3), s3.
  rewrite (folder_loop_step _ _ _ _ _ _ _ Hr1).
  rewrite (folder_loop_step _ _ _ _ _ _ _ Hr2).
  rewrite (folder_loop_step _ _ _ _ _ _ _ Hr3).
  simpl. split; [reflexivity|]. rewrite !entries_length.
  split; [lia|]. split; [congruence|congruence].
Qed.

(** The folder command over the three images up to the metrics: the
    state in which [generate_metrics] is called. *)
Lemma folder_of_three sth render cfg w dir p1 p2 p3 s0 :
  frame_ok cfg w p1 = true -> encodable w dir p1 = true ->
  imread w p2 = None ->
  frame_ok cfg w p3 = true -> encodable w dir p3 = true ->
  exists o1 d1 o3 d3 s3,
    (reset_counters cfg ;;;
     modify (set_num_frames 3) ;;;
     folder_loop (guarded_run sth render cfg w dir) [p1; p2; p3] [])%py s0
    = (Ok [ImageOk p1 o1 d1; ImageFailed p2 ValueError; ImageOk p3 o3 d3],
       s3) /\
    num_frames s3 = 3%nat /\
    total_objects s3 = (length d1 + length d3)%nat /\
    total_time s3
    = add (add (add (add zero (preprocess_time w p1)) (engine_time w p1))
               (preprocess_time w p3)) (engine_time w p3).
Proof.
  intros H1 E1 H2 H3 E3.
  pose proof (reset_counters_state cfg s0) as Hreset. cbv zeta in Hreset.
  destruct Hreset as (Ht0 & _ & _ & _ & Htt0 & _ & Hwf0 & _).
  unfold bind at 1. unfold bind at 1.
  destruct (reset_counters cfg s0) as [[[]|e] s1] eqn:Hres;
    [|discriminate Hres].
  simpl in Ht0, Htt0, Hwf0. unfold modify at 1.
  set (s2 := set_num_frames 3 s1).
  assert (Hwf2 : labels_counted cfg s2) by exact Hwf0.
  destruct (three_images_loop sth render cfg w dir p1 p2 p3 s2
              H1 E1 H2 H3 E3 Hwf2)
    as (o1 & d1 & o3 & d3 & s3 & Hloop & Htot & Htime & Hn).
  exists o1, d1, o3, d3, s3. split; [exact Hloop|].
  split; [rewrite Hn; reflexivity|].
  split; [rewrite Htot; simpl; rewrite Ht0; lia|].
  rewrite Htime. simpl. rewrite Htt0. reflexivity.
Qed.

(** C3 (amended).  For a folder command whose output directory can be
    created and whose three listed images are such that the second
    cannot be read and the other two go through the pipeline (readable,
    a raw output of the right shape, an output name with an encoder):
    with a non-zero accumulated time, [infer_folder] of both files
    returns aggregate success with three entries, exactly one of them
    marked failed; the metrics count [num_frames = 3], the length of the
    image list, while the objects and the durations are those of the two
    processed images ([detect_trt_fp32_server.py] then opens its report,
    and fails as a whole when it cannot).  With an accumulated time of
    zero [generate_metrics] raises and the folder command fails as a
    whole. *)
Theorem C3_folder_with_unreadable_image (cfg : config) (w : world)
    (folder_path save_dir_path p1 p2 p3 : string) (s : state) :
  creatable w save_dir_path = true ->
  get_images_from_folder w folder_path = Ok [p1; p2; p3] ->
  frame_ok cfg w p1 = true -> encodable w save_dir_path p1 = true ->
  imread w p2 = None ->
  frame_ok cfg w p3 = true -> encodable w save_dir_path p3 = true ->
  let spent :=
    add (add (add (add zero (preprocess_time w p1)) (engine_time w p1))
             (preprocess_time w p3)) (engine_time w p3) in
  let log_file := path_join save_dir_path "inference_logs.txt" in
  (is_zero spent = false ->
   three_image_outcome w p1 p2 p3
     (Server.infer_folder cfg w folder_path save_dir_path s) /\
   (can_open w log_file = true ->
    three_image_outcome w p1 p2 p3
      (Fp32Server.infer_folder cfg w folder_path save_dir_path s)) /\
   (can_open w log_file = false ->
    fst (Fp32Server.infer_folder cfg w folder_path save_dir_path s)
    = Raise OSError)) /\
  (is_zero spent = true ->
   fst (Server.infer_folder cfg w folder_path save_dir_path s)
   = Raise ZeroDivisionError /\
   fst (Fp32Server.infer_folder cfg w folder_path save_dir_path s)
   = Raise ZeroDivisionError).
Proof.
  intros Hdir Hpaths H1 E1 H2 H3 E3. cbv zeta.
  rewrite (server_infer_folder_listed _ _ _ _ _ _ Hdir Hpaths).
  rewrite (fp32_infer_folder_listed _ _ _ _ _ _ Hdir Hpaths).
  destruct (folder_of_three (conf_th cfg) (Server.render cfg) cfg w
              save_dir_path p1 p2 p3 s H1 E1 H2 H3 E3)
    as (o1 & d1 & o3 & d3 & s3 & Hloop & Hn & Htot & Htime).
  destruct (folder_of_three (score_th cfg) Fp32Server.render cfg w
              save_dir_path p1 p2 p3 s H1 E1 H2 H3 E3)
    as (o1' & d1' & o3' & d3' & s3' & Hloop' & Hn' & Htot' & Htime').
  simpl length. cbv [bind] in Hloop, Hloop' |- *.
  destruct (reset_counters cfg s) as [[[]|e] s1]; [|discriminate Hloop].
  destruct (modify (set_num_frames 3) s1) as [[[]|e] s2];
    [|discriminate Hloop].
  rewrite Hloop, Hloop'. split.
  - intros Hz. split; [|split].
    + rewrite generate_metrics_frames by (rewrite ?Hn, ?Htime; auto).
      unfold ret. eexists _, o1, d1, o3, d3. split; [reflexivity|]. simpl.
      split; [reflexivity|]. split; [exact Hn|]. split; [exact Htot|exact Htime].
    + intros Hopen.
      rewrite generate_metrics_frames by (rewrite ?Hn', ?Htime'; auto).
      unfold Fp32Server.save_logs. rewrite Hopen. unfold modify, ret.
      eexists _, o1', d1', o3', d3'. split; [reflexivity|]. simpl.
      split; [reflexivity|]. split; [exact Hn'|].
      split; [exact Htot'|exact Htime'].
    + intros Hopen.
      rewrite generate_metrics_frames by (rewrite ?Hn', ?Htime'; auto).
      unfold Fp32Server.save_logs. rewrite Hopen. reflexivity.
  - intros Hz. split.
    + rewrite generate_metrics_zero_time by (rewrite ?Hn, ?Htime; auto).
      reflexivity.
    + rewrite generate_metrics_zero_time by (rewrite ?Hn', ?Htime'; auto).
      reflexivity.
Qed.

Lemma C3_witness :
  get_images_from_folder
    (Scenario.world_with Scenario.three_images [Scenario.row_a]) "in"
  = Ok ["in/1.jpg"; "in/2.jpg"; "in/3.jpg"]%string /\
  imread (Scenario.world_with Scenario.three_images [Scenario.row_a])
    "in/2.jpg" = None /\
  three_image_outcome
    (Scenario.world_with Scenario.three_images [Scenario.row_a])
    "in/1.jpg" "in/2.jpg" "in/3.jpg"
    (Server.infer_folder Scenario.cfg
       (Scenario.world_with Scenario.three_images [Scenario.row_a])
       "in" "out" Scenario.fresh).
Proof.
  split; [reflexivity|]. split; [reflexivity|].
  apply (C3_folder_with_unreadable_image Scenario.cfg
           (Scenario.world_with Scenario.three_images [Scenario.row_a])
           "in" "out" "in/1.jpg" "in/2.jpg" "in/3.jpg" Scenario.fresh);
    vm_compute; reflexivity.
Defined.

(** C3 as stated fails on its last part: over three images of which the
    second cannot be read, the result has three entries, one failed, and
    aggregate success, but the metrics report 3 frames, not 2. *)
Lemma C3_counterexample :
  exists m results,
    fst (Server.infer_folder Scenario.cfg
           (Scenario.world_with Scenario.three_images [Scenario.row_a])
           "in" "out" Scenario.fresh)
    = Ok (FolderOk (Some m) results) /\
    is_failed <$> results = [false; true; false] /\
    m_total_objects m = 2%nat /\
    m_num_frames m = 3%nat /\
    m_num_frames m <> 2%nat.
Proof.
  eexists _, _. split; [vm_compute; reflexivity|].
  split; [reflexivity|]. split; [reflexivity|].
  split; [reflexivity|]. discriminate.
Qed.

(** ** Accumulation without a reset *)

Lemma infer_single_image_no_reset cfg w image_path save_dir_path s :
  creatable w save_dir_path = true ->
  Server.infer_single_image cfg w image_path save_dir_path false s
  = guarded_run (conf_th cfg) (Server.render cfg) cfg w save_dir_path
      image_path s.
Proof.
  intros H. rewrite infer_single_image_created by assumption. reflexivity.
Qed.

Lemma two_guarded_runs sth render cfg w dir p1 p2 s :
  labels_counted cfg s ->
  exists r1 s1 r2 s2 v1 v2,
    guarded_run sth render cfg w dir p1 s = (Ok r1, s1) /\
    guarded_run sth render cfg w dir p2 s1 = (Ok r2, s2) /\
    result_path r1 = p1 /\ result_path r2 = p2 /\
    counted_in cfg render r1 v1 /\ counted_in cfg render r2 v2 /\
    num_frames s2 = num_frames s /\
    total_objects s2 = (total_objects s + length v1 + length v2)%nat.
Proof.
  intros Hwf.
  destruct (guarded_run sth render cfg w dir p1 s) as [x1 s1] eqn:E1.
  destruct (guarded_run_effect _ _ _ _ _ _ _ _ _ Hwf E1)
    as (r1 & v1 & -> & Hp1 & Hd1 & Ht1 & Hn1 & Hwf1).
  destruct (guarded_run sth render cfg w dir p2 s1) as [x2 s2] eqn:E2.
  destruct (guarded_run_effect _ _ _ _ _ _ _ _ _ Hwf1 E2)
    as (r2 & v2 & -> & Hp2 & Hd2 & Ht2 & Hn2 & _).
  exists r1, s1, r2, s2, v1, v2.
  repeat split; auto; lia.
Qed.

Lemma generate_metrics_cases (s : state) :
  (exists e, generate_metrics s = (Raise e, s)) \/
  (exists m, generate_metrics s = (Ok m, s) /\
     (num_frames s <> 0%nat ->
      exists mt, m = Some mt /\ m_num_frames mt = num_frames s /\
                 m_total_objects mt = total_objects s)).
Proof.
  destruct (Nat.eq_dec (num_frames s) 0%nat) as [Hn|Hn].
  - right. exists None. rewrite generate_metrics_no_frame by assumption.
    split; [reflexivity|]. contradiction.
  - destruct (is_zero (total_time s)) eqn:Hz.
    + left. eexists. apply generate_metrics_zero_time; assumption.
    + right. eexists. rewrite generate_metrics_frames by assumption.
      split; [reflexivity|]. intros _. eexists. split; [reflexivity|].
      split; reflexivity.
Qed.

(** C9 (amended).  With [reset_counters=False] and an output directory
    that can be created, [infer_single_image] never changes [num_frames]:
    two images processed one after the other leave it as it was, and add
    to [total_objects] the two numbers of surviving detections they have
    counted, which are the detections a successful entry lists (a call
    whose final [cv2.imwrite] raises has counted its survivors and
    returns a failed entry).  When the directory cannot be created the
    call raises and changes nothing.  Within a folder command over two
    images, the only caller of that mode, [num_frames] is set to 2 before
    the loop and [total_objects] ends as the sum of the two numbers of
    surviving detections. *)
Theorem C9_accumulation_without_reset (cfg : config) (w : world)
    (folder_path save_dir_path p1 p2 : string) (s : state) :
  labels_counted cfg s ->
  (creatable w save_dir_path = true ->
   two_calls_outcome cfg w save_dir_path p1 p2 s) /\
  (creatable w save_dir_path = false ->
   Server.infer_single_image cfg w p1 save_dir_path false s
   = (Raise OSError, s)) /\
  (creatable w save_dir_path = true ->
   get_images_from_folder w folder_path = Ok [p1; p2] ->
   two_image_folder_outcome cfg p1 p2
     (Server.infer_folder cfg w folder_path save_dir_path s)).
Proof.
  intros Hwf. split; [|split].
  - intros Hdir. unfold two_calls_outcome.
    destruct (two_guarded_runs (conf_th cfg) (Server.render cfg) cfg w
                save_dir_path p1 p2 s Hwf)
      as (r1 & s1 & r2 & s2 & v1 & v2 & E1 & E2 & H).
    exists r1, s1, r2, s2, v1, v2.
    rewrite !infer_single_image_no_reset by assumption. auto.
  - apply infer_single_image_not_created.
  - intros Hdir Hpaths.
    rewrite (server_infer_folder_listed _ _ _ _ _ _ Hdir Hpaths).
    pose proof (reset_counters_state cfg s) as Hreset. cbv zeta in Hreset.
    destruct Hreset as (Ht0 & _ & _ & _ & _ & _ & Hwf0 & _).
    unfold bind at 1. unfold bind at 1.
    destruct (reset_counters cfg s) as [[[]|e] s1] eqn:Hres;
      [|discriminate Hres].
    simpl in Ht0, Hwf0. unfold modify at 1. simpl length.
    set (s2 := set_num_frames 2 s1).
    assert (Hwf2 : labels_counted cfg s2) by exact Hwf0.
    destruct (two_guarded_runs (conf_th cfg) (Server.render cfg) cfg w
                save_dir_path p1 p2 s2 Hwf2)
      as (r1 & s3 & r2 & s4 & v1 & v2 & E1 & E2 & Hp1 & Hp2 & Hc1 & Hc2
          & Hn & Htot).
    unfold bind at 1.
    rewrite (folder_loop_step _ _ _ _ _ _ _ E1).
    rewrite (folder_loop_step _ _ _ _ _ _ _ E2). simpl folder_loop.
    cbv [bind ret].
    assert (Hn4 : num_frames s4 = 2%nat) by (rewrite Hn; reflexivity).
    assert (Ht4 : total_objects s4 = (length v1 + length v2)%nat).
    { rewrite Htot. simpl. rewrite Ht0. lia. }
    exists r1, r2, v1, v2.
    split; [exact Hp1|]. split; [exact Hp2|].
    split; [exact Hc1|]. split; [exact Hc2|].
    destruct (generate_metrics_cases s4) as [[e Hg]|(m & Hg & Hm)];
      rewrite Hg; simpl.
    + split; [exact Hn4|]. split; [exact Ht4|]. discriminate.
    + split; [exact Hn4|]. split; [exact Ht4|].
      intros m' results [= <- <-]. split; [reflexivity|].
      destruct Hm as (mt & -> & Hmn & Hmt); [lia|].
      exists mt. split; [reflexivity|]. split; congruence.
Qed.

Lemma C9_witness :
  labels_counted Scenario.cfg Scenario.fresh /\
  creatable (Scenario.world_with Scenario.three_images [Scenario.row_a])
    "out" = true /\
  two_calls_outcome Scenario.cfg
    (Scenario.world_with Scenario.three_images [Scenario.row_a])
    "out" "in/1.jpg" "in/3.jpg" Scenario.fresh.
Proof.
  split; [apply scenario_labels_counted; reflexivity|].
  split; [reflexivity|].
  apply (C9_accumulation_without_reset Scenario.cfg
           (Scenario.world_with Scenario.three_images [Scenario.row_a])
           "in" "out" "in/1.jpg" "in/3.jpg" Scenario.fresh).
  - apply scenario_labels_counted. reflexivity.
  - reflexivity.
Defined.

(** C9 as stated fails: after two images processed one after the other
    without a reset, each with one surviving detection, [total_objects] is
    2 but [num_frames] is still 0. *)
Lemma C9_counterexample :
  let w := Scenario.world_with Scenario.three_images [Scenario.row_a] in
  let run1 :=
    Server.infer_single_image Scenario.cfg w "in/1.jpg" "out" false
      Scenario.fresh in
  let run2 :=
    Server.infer_single_image Scenario.cfg w "in/3.jpg" "out" false
      (snd run1) in
  (exists o1 d1 o2 d2,
     fst run1 = Ok (ImageOk "in/1.jpg" o1 [d1]) /\
     fst run2 = Ok (ImageOk "in/3.jpg" o2 [d2])) /\
  total_objects (snd run2) = 2%nat /\
  num_frames (snd run2) = 0%nat /\
  num_frames (snd run2) <> 2%nat.
Proof.
  cbv zeta. split.
  - eexists _, _, _, _. split; vm_compute; reflexivity.
  - split; [vm_compute; reflexivity|].
    split; [vm_compute; reflexivity|]. vm_compute. discriminate.
Qed.

(** An output name without an extension: the survivor of each image is
    counted, [cv2.imwrite] raises, and both entries are failed entries
    without detections. *)
Example counted_with_failed_entries :
  let w := Scenario.codec_world Scenario.three_images [Scenario.row_a] in
  let run1 :=
    Server.infer_single_image Scenario.cfg w "in/pic" "out" false
      Scenario.fresh in
  let run2 :=
    Server.infer_single_image Scenario.cfg w "in/pic" "out" false
      (snd run1) in
  fst run1 = Ok (ImageFailed "in/pic" CvError) /\
  fst run2 = Ok (ImageFailed "in/pic" CvError) /\
  total_objects (snd run2) = 2%nat.
Proof. vm_compute. auto. Qed.

(** ** The folder loop and the detection log *)

Lemma folder_loop_effect sth render cfg w dir paths :
  forall acc s,
    labels_counted cfg s ->
    exists results s',
      folder_loop (guarded_run sth render cfg w dir) paths acc s
      = (Ok (acc ++ results), s') /\
      result_path <$> results = paths /\
      Forall (fun r => exists v, result_detections r = entries cfg render v)
             results.
Proof.
  induction paths as [|p paths IH]; intros acc s Hwf.
  - exists [], s. rewrite app_nil_r. repeat split; constructor.
  - destruct (guarded_run sth render cfg w dir p s) as [x s1] eqn:E.
    destruct (guarded_run_effect _ _ _ _ _ _ _ _ _ Hwf E)
      as (ir & v & -> & Hp & Hd & _ & _ & Hwf1).
    apply counted_in_detections in Hd.
    rewrite (folder_loop_step _ _ _ _ _ _ _ E).
    destruct (IH (acc ++ [ir]) s1 Hwf1) as (results & s' & Hrun & Hpaths & Hall).
    exists (ir :: results), s'. rewrite Hrun, <- app_assoc.
    split; [reflexivity|]. split; [rewrite fmap_cons, Hp, Hpaths; reflexivity|].
    constructor; [eauto|exact Hall].
Qed.

Lemma server_entries_have_yolo cfg v :
  Forall has_yolo (entries cfg (Server.render cfg) v).
Proof.
  unfold entries. apply Forall_fmap, Forall_forall. intros c _.
  unfold compose, has_yolo, render_one. simpl. eauto.
Qed.

(** What [infer_folder] returns on success: one entry per image path, in
    the order of the paths, each detection with its normalised box. *)
Lemma server_infer_folder_results cfg w folder_path save_dir_path s m
    results s' :
  Server.infer_folder cfg w folder_path save_dir_path s
  = (Ok (FolderOk m results), s') ->
  result_path <$> results
  = path_join folder_path <$> List.filter is_image_name (listdir w folder_path) /\
  Forall (fun r => Forall has_yolo (result_detections r)) results.
Proof.
  destruct (creatable w save_dir_path) eqn:Hdir.
  2:{ rewrite (proj1 (infer_folder_not_created cfg w folder_path
                        save_dir_path s Hdir)). discriminate. }
  destruct (get_images_from_folder w folder_path) as [paths|e] eqn:Hlist.
  2:{ unfold Server.infer_folder, bind, lift.
      rewrite makedirs_run, Hdir, Hlist. discriminate. }
  rewrite (server_infer_folder_listed _ _ _ _ _ _ Hdir Hlist).
  assert (Hnames : paths = path_join folder_path
                             <$> List.filter is_image_name
                                   (listdir w folder_path)).
  { unfold get_images_from_folder, os_listdir in Hlist.
    destruct (can_listdir w folder_path); [|discriminate Hlist].
    injection Hlist as <-. reflexivity. }
  rewrite <- Hnames. clear Hnames Hlist.
  pose proof (reset_counters_state cfg s) as Hreset. cbv zeta in Hreset.
  destruct Hreset as (_ & _ & _ & _ & _ & _ & Hwf0 & _).
  unfold bind at 1. unfold bind at 1.
  destruct (reset_counters cfg s) as [[[]|e] s1] eqn:Hres;
    [|discriminate Hres].
  simpl in Hwf0. unfold modify at 1.
  set (s2 := set_num_frames (length paths) s1).
  assert (Hwf2 : labels_counted cfg s2) by exact Hwf0.
  destruct paths as [|p paths'] eqn:Hp; [discriminate|].
  rewrite <- Hp. unfold bind at 1.
  destruct (folder_loop_effect (conf_th cfg) (Server.render cfg) cfg w
              save_dir_path paths [] s2 Hwf2)
    as (rs & s3 & Hloop & Hpaths & Hall).
  rewrite Hloop. simpl app. cbv [bind ret].
  destruct (generate_metrics s3) as [[m'|e] s4]; [|discriminate].
  intros [= <- <- <-]. split; [exact Hpaths|].
  eapply Forall_impl; [exact Hall|]. intros r (v & ->).
  apply server_entries_have_yolo.
Qed.

Lemma write_rows_ok image_filename dets :
  Forall has_yolo dets ->
  forall sv rows,
    Server.csv_file sv = Some rows ->
    Server.write_rows image_filename dets sv
    = (Ok tt,
       Server.set_csv_file
         (Some (rows ++ (csv_row image_filename <$> dets))) sv).
Proof.
  induction 1 as [|d dets Hd _ IH]; intros sv rows Hsv; simpl.
  - rewrite app_nil_r, <- Hsv. destruct sv. reflexivity.
  - destruct Hd as [[[[cxn cyn] wn] hn] Hy].
    unfold csv_row at 1. unfold Server.detection_row. rewrite Hy.
    destruct (det_bbox d) as [[[x y] width] height].
    cbv [bind lift Server.writerow modify]. rewrite Hsv. simpl default.
    rewrite (IH _ (rows ++ [_])) by reflexivity.
    rewrite <- app_assoc. reflexivity.
Qed.

(** One call of [_write_detections_to_csv]: it returns, leaves the
    inferencer alone, keeps the rows already in the file and appends one
    row per detection. *)
Lemma write_detections_ok image_path dets sv :
  Forall has_yolo dets ->
  exists sv',
    Server._write_detections_to_csv image_path dets sv = (Ok tt, sv') /\
    Server.inferencer sv' = Server.inferencer sv /\
    default [] (Server.csv_file sv')
    = default [] (Server.csv_file sv)
      ++ (csv_row (basename image_path) <$> dets) /\
    (is_Some (Server.csv_file sv) -> is_Some (Server.csv_file sv')).
Proof.
  intros Hy. destruct dets as [|d dets].
  - exists sv. simpl. rewrite app_nil_r. auto.
  - unfold Server._write_detections_to_csv. cbv [bind modify].
    rewrite (write_rows_ok _ _ Hy _ (default [] (Server.csv_file sv)))
      by reflexivity.
    eexists. split; [reflexivity|]. simpl. eauto.
Qed.

Lemma write_results_ok results :
  Forall (fun r => Forall has_yolo (result_detections r)) results ->
  forall sv,
    exists sv',
      Server.write_results results sv = (Ok tt, sv') /\
      Server.inferencer sv' = Server.inferencer sv /\
      default [] (Server.csv_file sv')
      = default [] (Server.csv_file sv) ++ concat (result_rows <$> results) /\
      (is_Some (Server.csv_file sv) -> is_Some (Server.csv_file sv')).
Proof.
  induction 1 as [|r results Hr _ IH]; intros sv.
  - exists sv. simpl. rewrite app_nil_r. auto.
  - simpl. unfold bind.
    assert (Hstep : exists sv1,
              match r with
              | ImageOk input_path _ detections =>
                Server._write_detections_to_csv input_path detections
              | ImageFailed _ _ => ret tt
              end sv = (Ok tt, sv1) /\
              Server.inferencer sv1 = Server.inferencer sv /\
              default [] (Server.csv_file sv1)
              = default [] (Server.csv_file sv) ++ result_rows r /\
              (is_Some (Server.csv_file sv) -> is_Some (Server.csv_file sv1))).
    { destruct r as [p o dets|p e].
      - apply write_detections_ok. exact Hr.
      - exists sv. unfold result_rows. simpl. rewrite app_nil_r. auto. }
    destruct Hstep as (sv1 & -> & Hi1 & Hc1 & Hs1).
    destruct (IH sv1) as (sv' & -> & Hi & Hc & Hs).
    exists sv'. split; [reflexivity|]. split; [congruence|].
    split; [|auto]. rewrite Hc, Hc1, <- app_assoc. reflexivity.
Qed.

(** Entering [_process_folder] on an existing folder, up to the outcome of
    [infer_folder]. *)
Ltac run_folder_command Hex Hrun :=
  unfold Server._process_folder, try_catch; rewrite Hex;
  change (negb true) with false; cbv beta iota;
  unfold bind, Server.on_inferencer; rewrite Hrun.

Lemma process_folder_ok cfg w output_dir folder_path sv m results s' :
  path_exists w folder_path = true ->
  Server.infer_folder cfg w folder_path output_dir (Server.inferencer sv)
  = (Ok (FolderOk m results), s') ->
  exists sv',
    Server._process_folder cfg w output_dir folder_path sv = (Ok tt, sv') /\
    Server.inferencer sv' = s' /\
    default [] (Server.csv_file sv')
    = default [] (Server.csv_file sv) ++ concat (result_rows <$> results) /\
    (is_Some (Server.csv_file sv) -> is_Some (Server.csv_file sv')).
Proof.
  intros Hex Hrun.
  destruct (server_infer_folder_results _ _ _ _ _ _ _ _ Hrun) as [_ Hy].
  run_folder_command Hex Hrun.
  destruct (write_results_ok results Hy (Server.set_inferencer s' sv))
    as (sv' & -> & Hi & Hc & Hs).
  exists sv'. split; [reflexivity|]. split; [exact Hi|].
  split; [exact Hc|exact Hs].
Qed.

(** C4 (amended).  A folder command processes the images in the order in
    which [os.listdir] returns their names (no sort is applied), keeping
    the names with an image extension; the per-image results are in that
    same order, and so are the rows appended to the detection log, one
    block of rows per result. *)
Theorem C4_folder_processing_order (cfg : config) (w : world)
    (folder_path output_dir : string) (sv : Server.server)
    (m : option metrics) (results : list image_result) (s' : state) :
  Server.infer_folder cfg w folder_path output_dir (Server.inferencer sv)
  = (Ok (FolderOk m results), s') ->
  result_path <$> results
  = path_join folder_path <$> List.filter is_image_name (listdir w folder_path) /\
  (path_exists w folder_path = true ->
   exists sv',
     Server._process_folder cfg w output_dir folder_path sv = (Ok tt, sv') /\
     default [] (Server.csv_file sv')
     = default [] (Server.csv_file sv) ++ concat (result_rows <$> results)).
Proof.
  intros Hrun. split.
  - apply (server_infer_folder_results _ _ _ _ _ _ _ _ Hrun).
  - intros Hex.
    destruct (process_folder_ok _ _ _ _ _ _ _ _ Hex Hrun)
      as (sv' & Hp & _ & Hc & _).
    eauto.
Qed.

Lemma C4_witness :
  exists m results s',
    Server.infer_folder Scenario.cfg
      (Scenario.world_with Scenario.unsorted_images [Scenario.row_a])
      "in" "out" (Server.inferencer Scenario.fresh_server)
    = (Ok (FolderOk m results), s') /\
    result_path <$> results = ["in/b.jpg"; "in/a.jpg"]%string.
Proof.
  assert (H : exists m results s',
            Server.infer_folder Scenario.cfg
              (Scenario.world_with Scenario.unsorted_images [Scenario.row_a])
              "in" "out" (Server.inferencer Scenario.fresh_server)
            = (Ok (FolderOk m results), s'))
    by (eexists _, _, _; vm_compute; reflexivity).
  destruct H as (m & results & s' & H).
  exists m, results, s'. split; [exact H|].
  rewrite (proj1 (C4_folder_processing_order Scenario.cfg
                    (Scenario.world_with Scenario.unsorted_images
                       [Scenario.row_a])
                    "in" "out" Scenario.fresh_server m results s' H)).
  reflexivity.
Defined.

(** C4 as stated fails: when the folder lists ["b.jpg"] before ["a.jpg"],
    the image ["b.jpg"] is processed first, its result comes first and its
    row is appended first, although ["a.jpg"] precedes it
    lexicographically. *)
Lemma C4_counterexample :
  let w := Scenario.world_with Scenario.unsorted_images [Scenario.row_a] in
  (exists m r1 r2,
     fst (Server.infer_folder Scenario.cfg w "in" "out" Scenario.fresh)
     = Ok (FolderOk m [r1; r2]) /\
     result_path r1 = "in/b.jpg"%string /\
     result_path r2 = "in/a.jpg"%string) /\
  (exists row_b row_a,
     Server.csv_file
       (snd (Server._process_folder Scenario.cfg w "out" "in"
               Scenario.started_server))
     = Some [Server.csv_header;
             Server.CStr "b.jpg" :: row_b; Server.CStr "a.jpg" :: row_a]) /\
  String.compare "a.jpg" "b.jpg" = Lt.
Proof.
  cbv zeta. split; [|split].
  - eexists _, _, _. split; [vm_compute; reflexivity|].
    split; reflexivity.
  - eexists _, _. vm_compute. reflexivity.
  - reflexivity.
Qed.

(** ** The detection log over a session *)

Lemma infer_single_image_reset cfg w image_path save_dir_path s :
  creatable w save_dir_path = true ->
  exists r v s',
    Server.infer_single_image cfg w image_path save_dir_path true s
    = (Ok r, s') /\
    result_path r = image_path /\
    result_detections r = entries cfg (Server.render cfg) v.
Proof.
  intros Hdir. rewrite infer_single_image_created by assumption.
  pose proof (reset_counters_state cfg s) as Hreset. cbv zeta in Hreset.
  destruct Hreset as (_ & _ & _ & _ & _ & _ & Hwf0 & _).
  unfold bind at 1. unfold bind at 1.
  destruct (reset_counters cfg s) as [[[]|e] s1] eqn:Hres;
    [|discriminate Hres].
  simpl in Hwf0. unfold modify at 1.
  set (s2 := set_num_frames 1 s1).
  assert (Hwf2 : labels_counted cfg s2) by exact Hwf0.
  fold (guarded_run (conf_th cfg) (Server.render cfg) cfg w save_dir_path
          image_path).
  destruct (guarded_run (conf_th cfg) (Server.render cfg) cfg w save_dir_path
              image_path s2) as [x s3] eqn:E.
  destruct (guarded_run_effect _ _ _ _ _ _ _ _ _ Hwf2 E)
    as (r & v & -> & Hp & Hd & _).
  apply counted_in_detections in Hd as (v' & Hd).
  eauto 10.
Qed.

Lemma data_rows_of_result r :
  Forall has_yolo (result_detections r) -> Forall data_row (result_rows r).
Proof.
  intros H. unfold result_rows. apply Forall_fmap.
  eapply Forall_impl; [exact H|]. intros d Hd. simpl.
  exists (basename (result_path r)), d. auto.
Qed.


Lemma data_row_length r : data_row r -> length r = length Server.csv_header.
Proof.
  intros (name & d & [[[[cxn cyn] wn] hn] Hy] & ->).
  unfold csv_row, Server.detection_row. rewrite Hy.
  destruct (det_bbox d) as [[[x y] width] height]. reflexivity.
Qed.

(** An [image] command: the rows of the result of the image are
    appended; nothing is appended when the output directory cannot be
    created. *)
Lemma process_single_image_spec cfg w output_dir image_path sv :
  exists rows,
    appends sv (Server._process_single_image cfg w output_dir image_path sv)
      rows /\
    Forall data_row rows /\
    (path_exists w image_path = true ->
     creatable w output_dir = true ->
     exists r,
       fst (Server.infer_single_image cfg w image_path output_dir true
              (Server.inferencer sv)) = Ok r /\
       rows = result_rows r) /\
    (creatable w output_dir = false -> rows = []).
Proof.
  unfold Server._process_single_image, try_catch.
  destruct (path_exists w image_path) eqn:Hex.
  - change (negb true) with false. cbv beta iota.
    unfold bind, Server.on_inferencer.
    destruct (creatable w output_dir) eqn:Hdir.
    2:{ rewrite infer_single_image_not_created by assumption.
        exists []. unfold appends. simpl. rewrite app_nil_r.
        split; [repeat split; auto|]. split; [constructor|].
        split; [discriminate|reflexivity]. }
    destruct (infer_single_image_reset cfg w image_path output_dir
                (Server.inferencer sv) Hdir)
      as (r & v & s' & Hrun & Hp & Hd).
    rewrite Hrun.
    assert (Hy : Forall has_yolo (result_detections r))
      by (rewrite Hd; apply server_entries_have_yolo).
    exists (result_rows r).
    assert (Hstep : exists sv1,
              match r with
              | ImageOk _ _ detections =>
                Server._write_detections_to_csv image_path detections
              | ImageFailed _ _ => ret tt
              end (Server.set_inferencer s' sv) = (Ok tt, sv1) /\
              default [] (Server.csv_file sv1)
              = default [] (Server.csv_file sv) ++ result_rows r /\
              (is_Some (Server.csv_file sv) -> is_Some (Server.csv_file sv1))).
    { destruct r as [p o dets|p e]; simpl in Hp; subst.
      - destruct (write_detections_ok image_path dets
                    (Server.set_inferencer s' sv) Hy)
          as (sv1 & Hw & _ & Hc & Hs).
        exists sv1. auto.
      - eexists. split; [reflexivity|]. unfold result_rows. simpl.
        rewrite app_nil_r. auto. }
    destruct Hstep as (sv1 & -> & Hc & Hs).
    split; [unfold appends; repeat split; auto|].
    split; [apply data_rows_of_result, Hy|].
    split; [|discriminate].
    intros _ _. exists r. split; [reflexivity|reflexivity].
  - exists []. unfold appends. simpl. rewrite app_nil_r.
    split; [repeat split; auto|]. split; [constructor|].
    split; [discriminate|reflexivity].
Qed.

(** A [folder] command: the rows of the results are appended, or nothing
    when the inference fails as a whole. *)
Lemma process_folder_spec cfg w output_dir folder_path sv :
  exists rows,
    appends sv (Server._process_folder cfg w output_dir folder_path sv) rows /\
    Forall data_row rows.
Proof.
  destruct (path_exists w folder_path) eqn:Hex.
  - destruct (Server.infer_folder cfg w folder_path output_dir
                (Server.inferencer sv)) as [[[m results|]|e] s'] eqn:Hrun.
    + destruct (process_folder_ok _ _ _ _ _ _ _ _ Hex Hrun)
        as (sv' & Hp & _ & Hc & Hs).
      destruct (server_infer_folder_results _ _ _ _ _ _ _ _ Hrun) as [_ Hy].
      exists (concat (result_rows <$> results)). rewrite Hp.
      split; [unfold appends; repeat split; auto|].
      apply Forall_concat, Forall_fmap.
      eapply Forall_impl; [exact Hy|]. intros r Hr. simpl.
      apply data_rows_of_result, Hr.
    + exists []. run_folder_command Hex Hrun. unfold appends. simpl.
      rewrite app_nil_r. split; [repeat split; auto|constructor].
    + exists []. run_folder_command Hex Hrun. unfold appends. simpl.
      rewrite app_nil_r. split; [repeat split; auto|constructor].
  - exists []. unfold Server._process_folder, try_catch. rewrite Hex.
    unfold appends. simpl.
    rewrite app_nil_r. split; [repeat split; auto|constructor].
Qed.




(** ** Greedy suppression *)

Lemma forallb_overlap bboxes thr i (before : list nat) :
  forallb (fun kept_idx =>
             le (rectOverlap (nth i bboxes (0, 0, 0, 0))
                             (nth kept_idx bboxes (0, 0, 0, 0)))
                (Single.round thr)) before = true
  <-> ~ exists j, j ∈ before /\ overlap_exceeds bboxes thr i j.
Proof.
  rewrite forallb_forall. split.
  - intros Hall (j & Hj & Hex). unfold overlap_exceeds, box_at in Hex.
    rewrite Hall in Hex; [discriminate|]. apply list_elem_of_In, Hj.
  - intros Hno j Hj.
    destruct (le _ (Single.round thr)) eqn:E; [reflexivity|].
    exfalso. apply Hno. exists j. split; [apply list_elem_of_In, Hj|].
    exact E.
Qed.

(** The indices retained among the candidates of a frame, when the call
    does not raise. *)
Lemma retained_indices_ok cfg cands :
  ge (Single.round (conf_th cfg)) zero
  && ge (Single.round (nms_th cfg)) zero = true ->
  retained_indices cfg cands
  = nms_loop (cand_box <$> cands) (Single.round (nms_th cfg))
      (snd <$> GetMaxScoreIndex (Single.round <$> (cand_conf <$> cands))
                 (Single.round (conf_th cfg))) [].
Proof.
  intros H. unfold retained_indices. rewrite NMSBoxes_cases, H. reflexivity.
Qed.

Lemma retained_indices_error cfg cands :
  ge (Single.round (conf_th cfg)) zero
  && ge (Single.round (nms_th cfg)) zero = false ->
  retained_indices cfg cands = [].
Proof.
  intros H. unfold retained_indices. rewrite NMSBoxes_cases, H. reflexivity.
Qed.

(** What [postprocess_image] returns for a frame that is decoded: the
    entries of the candidates the suppression call retains. *)
Lemma postprocess_with_retained sth render cfg w image_path output height
    width out s im rw rh cands :
  has_nan output = false ->
  imread w image_path = Some im ->
  resized_img s = Some (rw, rh) ->
  rw <> 0 -> rh <> 0 ->
  decode_rows (conf_th cfg) sth width height
    (div (of_Z width) (of_Z rw)) (div (of_Z height) (of_Z rh)) output
  = Ok cands ->
  labels_counted cfg s ->
  cv_imwrite w out <> NoEncoder ->
  fst (postprocess_with sth render cfg w image_path output (height, width)
         out s)
  = Ok (entries cfg render (retained cfg cands)).
Proof.
  intros Hnan Him Hres Hrw Hrh Hdec Hwf Henc.
  rewrite (postprocess_with_ok _ _ _ _ _ _ _ _ _ _ _ _ _ _
             Hnan Him Hres Hrw Hrh Hdec Hwf).
  apply after_imwrite_ok, Henc.
Qed.

(** C7 (amended).  The suppression is greedy and joint over all
    candidates.  For every frame that is decoded, [postprocess_image] of
    either file hands the boxes and the confidences of all candidates to
    [cv2.dnn.NMSBoxes], with [conf_th] as the score threshold and
    [nms_th] as the overlap threshold, and returns the entries of the
    candidates at the indices the call retains; no candidate is retained
    when the call raises [cv2.error], which it does when a threshold is
    negative or a NaN.  The call works on C floats.  It first drops every
    candidate whose confidence is not strictly greater than [conf_th],
    both in single precision (so a candidate at the threshold is dropped
    without any overlap), visits the others by descending confidence,
    and retains a visited candidate exactly when no previously retained
    one has an overlap with it, computed in single precision, that
    exceeds [nms_th] converted to single precision.  Two overlapping
    boxes with confidences 0.9 and 0.8 and intersection over union 0.7
    leave only the 0.9 box at threshold 0.45, of the same class or of two
    classes, and zero candidates give an empty result. *)
Theorem C7_greedy_suppression (cfg : config) (cands : list candidate) :
  let bboxes := cand_box <$> cands in
  let scores := Single.round <$> (cand_conf <$> cands) in
  let score_threshold := Single.round (conf_th cfg) in
  let nms_threshold := Single.round (nms_th cfg) in
  let order := snd <$> GetMaxScoreIndex scores score_threshold in
  let kept := retained_indices cfg cands in
  (forall w image_path output height width out s im rw rh,
     has_nan output = false ->
     imread w image_path = Some im ->
     resized_img s = Some (rw, rh) -> rw <> 0 -> rh <> 0 ->
     labels_counted cfg s ->
     cv_imwrite w out <> NoEncoder ->
     (decode_rows (conf_th cfg) (conf_th cfg) width height
        (div (of_Z width) (of_Z rw)) (div (of_Z height) (of_Z rh)) output
      = Ok cands ->
      fst (Server.postprocess_image cfg w image_path output (height, width)
             out s)
      = Ok (entries cfg (Server.render cfg) (retained cfg cands))) /\
     (decode_rows (conf_th cfg) (score_th cfg) width height
        (div (of_Z width) (of_Z rw)) (div (of_Z height) (of_Z rh)) output
      = Ok cands ->
      fst (Fp32Server.postprocess_image cfg w image_path output
             (height, width) out s)
      = Ok (entries cfg Fp32Server.render (retained cfg cands)))) /\
  Forall2 (fun i c => cands !! i = Some c) kept (retained cfg cands) /\
  (ge score_threshold zero && ge nms_threshold zero = false -> kept = []) /\
  (ge score_threshold zero && ge nms_threshold zero = true ->
   (forall i, i ∈ order <->
              exists sc, scores !! i = Some sc /\
                         gt sc score_threshold = true) /\
   Sorted (fun i j => gt (nth j scores nan) (nth i scores nan) = false)
          order /\
   (forall i, i ∈ kept -> i ∈ order) /\
   (forall pre i post,
      order = pre ++ i :: post ->
      let before := nms_loop bboxes nms_threshold pre [] in
      before `prefix_of` kept /\
      (i ∈ kept <->
       ~ exists j, j ∈ before /\ overlap_exceeds bboxes (nms_th cfg) i j))) /\
  (forall cfg', retained cfg' [] = []) /\
  iou (0, 0, 100, 100) (0, 0, 100, 70) == 7 # 10 /\
  retained Scenario.cfg [Scenario.cand_b; Scenario.cand_a]
  = [Scenario.cand_a] /\
  fst (Server.postprocess_image Scenario.cfg
         (Scenario.world_with Scenario.three_images []) "in/1.jpg"
         [Scenario.row_b; Scenario.row_a] (640, 640) "out/1.jpg"
         Scenario.prepared)
  = Ok [fst (Server.render Scenario.cfg "person" Scenario.cand_a)] /\
  fst (Fp32Server.postprocess_image Scenario.cfg
         (Scenario.world_with Scenario.three_images []) "in/1.jpg"
         [Scenario.row_b_car; Scenario.row_a] (640, 640) "out/1.jpg"
         Scenario.prepared)
  = Ok [fst (Fp32Server.render "person" Scenario.cand_a)].
Proof.
  cbv zeta.
  split; [|split; [|split; [|split; [|split; [|split; [|split; [|split]]]]]]].
  - intros w image_path output height width out s im rw rh
      Hnan Him Hres Hrw Hrh Hwf Henc. split; intros Hdec.
    + eapply postprocess_with_retained; eassumption.
    + eapply postprocess_with_retained; eassumption.
  - apply retained_selects.
  - apply retained_indices_error.
  - intros Hok. rewrite (retained_indices_ok cfg cands Hok).
    split; [apply elem_of_order|]. split; [apply order_sorted|].
    split.
    + intros i H. apply nms_loop_elem in H as [H|H]; [|exact H].
      apply elem_of_nil in H. contradiction.
    + intros pre i post Horder. split.
      * rewrite Horder, nms_loop_app. apply nms_loop_prefix.
      * rewrite Horder.
        rewrite nms_loop_greedy
          by (rewrite <- Horder; apply scored_indices_NoDup).
        apply forallb_overlap.
  - intros cfg'. unfold retained. rewrite retained_indices_nil. reflexivity.
  - reflexivity.
  - vm_compute. reflexivity.
  - vm_compute. reflexivity.
  - vm_compute. reflexivity.
Qed.

Lemma C7_witness :
  let cands := [Scenario.cand_a; Scenario.cand_b] in
  ge (Single.round (conf_th Scenario.cfg)) zero
  && ge (Single.round (nms_th Scenario.cfg)) zero = true /\
  (1%nat ∈ retained_indices Scenario.cfg cands <->
   ~ exists j, j ∈ [0%nat] /\
       overlap_exceeds (cand_box <$> cands) (nms_th Scenario.cfg) 1 j).
Proof.
  cbv zeta. split; [reflexivity|].
  destruct (C7_greedy_suppression Scenario.cfg
              [Scenario.cand_a; Scenario.cand_b])
    as (_ & _ & _ & H & _).
  destruct (H eq_refl) as (_ & _ & _ & Hgreedy).
  destruct (Hgreedy [0%nat] 1%nat [] ltac:(vm_compute; reflexivity))
    as [_ Hiff].
  exact Hiff.
Defined.

(** C7 as stated fails twice.  A single candidate whose confidence equals
    the confidence threshold is emitted by the decoding loop and then
    dropped by the suppression call, although no box was retained before
    it.  And two candidates whose intersection over union, 0.450000015,
    exceeds the threshold 0.45 are both retained, because the overlap and
    the threshold are the same single-precision number. *)
Lemma C7_counterexample :
  (decode_rows (conf_th Scenario.cfg) (conf_th Scenario.cfg) 640 640
     (of_Z 1) (of_Z 1) [Scenario.row_boundary] = Ok [Scenario.cand_boundary] /\
   retained Scenario.cfg [Scenario.cand_boundary] = [] /\
   fst (Server.postprocess_image Scenario.cfg
          (Scenario.world_with Scenario.three_images []) "in/1.jpg"
          [Scenario.row_boundary] (640, 640) "out/1.jpg" Scenario.prepared)
   = Ok []) /\
  ((to_Q (nms_th Scenario.cfg)
    < iou (cand_box Scenario.cand_whole) (cand_box Scenario.cand_corner))%Q /\
   retained Scenario.cfg [Scenario.cand_whole; Scenario.cand_corner]
   = [Scenario.cand_whole; Scenario.cand_corner]).
Proof.
  split; [split; [|split]|split]; vm_compute; reflexivity.
Qed.

(** * Further properties of the two servers *)

(** ** Relations kept by every outcome *)

Section Preservation.

Context {S : Type} (R : S -> S -> Prop).
Hypothesis R_refl : forall s, R s s.
Hypothesis R_trans : forall a b c, R a b -> R b c -> R a c.

Lemma preserves_ret {A} (a : A) : preserves R (ret a).
Proof. intros s. apply R_refl. Qed.

Lemma preserves_raise {A} (e : exn) : preserves R (@raise S A e).
Proof. intros s. apply R_refl. Qed.

Lemma preserves_lift {A} (r : result A) : preserves R (lift r).
Proof. intros s. apply R_refl. Qed.

Lemma preserves_get : preserves R (@get S).
Proof. intros s. apply R_refl. Qed.

Lemma preserves_modify (f : S -> S) :
  (forall s, R s (f s)) -> preserves R (modify f).
Proof. intros H s. apply H. Qed.

Lemma preserves_bind {A B} (c : M S A) (k : A -> M S B) :
  preserves R c -> (forall a, preserves R (k a)) -> preserves R (bind c k).
Proof.
  intros Hc Hk s. unfold bind. specialize (Hc s).
  destruct (c s) as [[a|e] s1]; simpl in *.
  - eapply R_trans; [exact Hc|]. apply Hk.
  - exact Hc.
Qed.

Lemma preserves_try_catch {A} (c : M S A) (h : exn -> M S A) :
  preserves R c -> (forall e, preserves R (h e)) ->
  preserves R (try_catch c h).
Proof.
  intros Hc Hh s. unfold try_catch. specialize (Hc s).
  destruct (c s) as [[a|e] s1]; simpl in *.
  - exact Hc.
  - eapply R_trans; [exact Hc|]. apply Hh.
Qed.

End Preservation.

Lemma grows_refl (s : state) : grows s s.
Proof. unfold grows. repeat split; reflexivity. Qed.

Lemma grows_trans (a b c : state) : grows a b -> grows b c -> grows a c.
Proof.
  unfold grows. intros (H1 & H2 & H3) (K1 & K2 & K3).
  split; [congruence|]. split; lia.
Qed.

Create HintDb pipeline.

#[local] Hint Resolve grows_refl grows_trans : pipeline.
#[local] Hint Resolve preserves_ret preserves_raise preserves_lift
  preserves_get : pipeline.

Ltac keep_grows :=
  repeat
    match goal with
    | |- preserves grows (bind _ _) =>
      apply (preserves_bind grows grows_trans); [|intros ?]
    | |- preserves grows (try_catch _ _) =>
      apply (preserves_try_catch grows grows_trans); [|intros ?]
    | |- preserves grows (ret _) => apply (preserves_ret grows grows_refl)
    | |- preserves grows (raise _) => apply (preserves_raise grows grows_refl)
    | |- preserves grows (lift _) => apply (preserves_lift grows grows_refl)
    | |- preserves grows get => apply (preserves_get grows grows_refl)
    end.

Lemma field_update_grows (f : state -> state) :
  (forall s, objects_by_class (f s) = objects_by_class s /\
             total_objects (f s) = total_objects s /\
             invalid_outputs (f s) = invalid_outputs s) ->
  preserves grows (modify f).
Proof.
  intros H. apply preserves_modify. intros s.
  destruct (H s) as (H1 & H2 & H3). unfold grows.
  rewrite H1, H2, H3. repeat split; reflexivity.
Qed.

Lemma count_survivor_grows cfg c : preserves grows (count_survivor cfg c).
Proof.
  intros s. unfold count_survivor, bind, modify, get, grows. simpl.
  destruct (class_labels cfg !! cand_class c) as [name|]; simpl.
  - destruct (objects_by_class s !! name) as [n|] eqn:E; simpl.
    + split; [apply dom_insert_lookup_L; eauto|].
      repeat split; try reflexivity; lia.
    + repeat split; try reflexivity; lia.
  - repeat split; try reflexivity; lia.
Qed.

Lemma survivors_loop_grows cfg render cands idxs :
  forall dets im, preserves grows (survivors_loop cfg render cands idxs dets im).
Proof.
  induction idxs as [|i idxs IH]; intros dets im; simpl.
  - keep_grows.
  - destruct (cands !! i) as [c|].
    + keep_grows; [apply count_survivor_grows|].
      match goal with |- context [render ?name c] =>
        destruct (render name c) as [d ops] end.
      apply IH.
    + keep_grows. apply preserves_modify. intros s. unfold grows. simpl.
      repeat split; try reflexivity; lia.
Qed.

Lemma imwrite_grows w output_path im :
  preserves grows (imwrite w output_path im).
Proof.
  unfold imwrite. destruct (cv_imwrite w output_path); keep_grows.
  apply field_update_grows. intros s. simpl. auto.
Qed.

Lemma makedirs_grows w path : preserves grows (makedirs w path).
Proof.
  unfold makedirs. destruct (String.eqb path ""); keep_grows.
  destruct (can_makedirs w path); keep_grows.
Qed.

Lemma postprocess_with_grows sth render cfg w image_path output dims out :
  preserves grows
    (postprocess_with sth render cfg w image_path output dims out).
Proof.
  unfold postprocess_with. destruct (has_nan output).
  - keep_grows.
    + apply preserves_modify. intros s. unfold grows. simpl.
      repeat split; try reflexivity; lia.
    + destruct (imread w image_path); keep_grows. apply imwrite_grows.
  - destruct (imread w image_path) as [im|]; keep_grows.
    destruct dims as [height width]. keep_grows.
    match goal with |- context [resized_img ?x] =>
      destruct (resized_img x) as [[rw rh]|] end; keep_grows.
    + match goal with |- context [(0 <? ?n)%nat] =>
        destruct (0 <? n)%nat end; keep_grows.
      apply survivors_loop_grows.
    + apply imwrite_grows.
Qed.

Lemma preprocess_image_grows cfg w image_path :
  preserves grows (preprocess_image cfg w image_path).
Proof.
  unfold preprocess_image.
  destruct (imread w image_path); keep_grows.
  destruct (input_shape cfg !! 2%nat); keep_grows.
  destruct (input_shape cfg !! 3%nat); keep_grows.
  match goal with |- context [if ?b then _ else _] => destruct b end;
    keep_grows.
  apply field_update_grows. intros s. simpl. auto.
Qed.

Lemma run_image_grows sth render cfg w image_path save_dir_path :
  preserves grows
    (run_image (postprocess_with sth render cfg) cfg w image_path
       save_dir_path).
Proof.
  unfold run_image. keep_grows; [apply preprocess_image_grows| |].
  - apply field_update_grows. intros s. simpl. auto.
  - destruct (engine_output w image_path); keep_grows.
    + apply field_update_grows. intros s. simpl. auto.
    + apply field_update_grows. intros s. simpl. auto.
    + apply postprocess_with_grows.
Qed.

Lemma guarded_run_grows sth render cfg w save_dir_path image_path :
  preserves grows (guarded_run sth render cfg w save_dir_path image_path).
Proof. unfold guarded_run. keep_grows. apply run_image_grows. Qed.

Lemma reset_counters_keys cfg s :
  dom (objects_by_class (snd (reset_counters cfg s)))
  = list_to_set (class_labels cfg).
Proof.
  simpl. rewrite dom_list_to_map_L, <- list_fmap_compose.
  f_equal. apply list_fmap_id.
Qed.

Lemma generate_metrics_grows : preserves grows generate_metrics.
Proof.
  unfold generate_metrics. keep_grows.
  match goal with |- context [(0 <? ?n)%nat] => destruct (0 <? n)%nat end;
    keep_grows.
Qed.

Lemma folder_loop_grows (process : string -> M state image_result) paths :
  (forall p, preserves grows (process p)) ->
  forall acc, preserves grows (folder_loop process paths acc).
Proof.
  intros Hp. induction paths as [|p paths IH]; intros acc; simpl; keep_grows.
  - apply Hp.
  - apply IH.
Qed.

Lemma save_logs_grows cfg w m log_file :
  preserves grows (Fp32Server.save_logs cfg w m log_file).
Proof.
  unfold Fp32Server.save_logs. destruct m; keep_grows.
  destruct (can_open w log_file); keep_grows.
  apply field_update_grows. intros s. simpl. auto.
Qed.

Lemma server_infer_single_image_grows cfg w image_path save_dir_path :
  preserves grows
    (Server.infer_single_image cfg w image_path save_dir_path false).
Proof.
  unfold Server.infer_single_image. keep_grows.
  - apply makedirs_grows.
  - apply run_image_grows.
Qed.

(** After a reset followed by steps that keep [grows], the keys are the
    labels. *)
Lemma keys_after_reset {A} cfg (k : M state A) s :
  preserves grows k ->
  keyed_by_labels cfg (snd ((reset_counters cfg ;;; k)%py s)).
Proof.
  intros Hk name. unfold bind.
  pose proof (reset_counters_keys cfg s) as Hkeys.
  destruct (reset_counters cfg s) as [[[]|e] s1] eqn:E; [|discriminate E].
  simpl in Hkeys. destruct (Hk s1) as (Hdom & _).
  rewrite <- elem_of_dom, Hdom, Hkeys, elem_of_list_to_set. reflexivity.
Qed.

(** X1.  Whatever the state it starts from and whatever its outcome (a
    result, a failed entry or an exception), [postprocess_image] of either
    file and [infer_single_image] without a reset never add or remove a
    key of [objects_by_class] and never decrease [total_objects] or
    [invalid_outputs]. *)
Theorem X1_pipeline_never_undoes (cfg : config) (w : world)
    (image_path save_dir_path : string) (output : tensor) (dims : Z * Z)
    (out : string) :
  preserves grows
    (Server.postprocess_image cfg w image_path output dims out) /\
  preserves grows
    (Fp32Server.postprocess_image cfg w image_path output dims out) /\
  preserves grows
    (Server.infer_single_image cfg w image_path save_dir_path false).
Proof.
  split; [apply postprocess_with_grows|].
  split; [apply postprocess_with_grows|].
  apply server_infer_single_image_grows.
Qed.

Lemma new_inferencer_keyed cfg : keyed_by_labels cfg (new_inferencer cfg).
Proof.
  intros name. unfold new_inferencer.
  rewrite <- elem_of_dom, reset_counters_keys, elem_of_list_to_set.
  reflexivity.
Qed.

Lemma server_folder_body_grows cfg w path save_dir_path :
  preserves grows
    (image_paths <- lift (get_images_from_folder w path) ;;
     modify (set_num_frames (length image_paths)) ;;;
     match image_paths with
     | [] => ret FolderEmpty
     | _ :: _ =>
       results <-
         folder_loop
           (fun image_path =>
              Server.infer_single_image cfg w image_path save_dir_path false)
           image_paths [] ;;
       m <- generate_metrics ;;
       ret (FolderOk m results)
     end)%py.
Proof.
  keep_grows.
  - apply field_update_grows. intros s0. simpl. auto.
  - match goal with |- context [match ?l with [] => _ | _ :: _ => _ end] =>
      destruct l end; keep_grows.
    + apply folder_loop_grows. intros p.
      apply server_infer_single_image_grows.
    + apply generate_metrics_grows.
Qed.

Lemma fp32_folder_body_grows cfg w path save_dir_path :
  preserves grows
    (image_paths <- lift (get_images_from_folder w path) ;;
     modify (set_num_frames (length image_paths)) ;;;
     match image_paths with
     | [] => ret FolderEmpty
     | _ :: _ =>
       results <-
         folder_loop
           (fun image_path =>
              run_image (Fp32Server.postprocess_image cfg) cfg w image_path
                save_dir_path)
           image_paths [] ;;
       m <- generate_metrics ;;
       Fp32Server.save_logs cfg w m
         (path_join save_dir_path "inference_logs.txt") ;;;
       ret (FolderOk m results)
     end)%py.
Proof.
  keep_grows.
  - apply field_update_grows. intros s0. simpl. auto.
  - match goal with |- context [match ?l with [] => _ | _ :: _ => _ end] =>
      destruct l end; keep_grows.
    + apply folder_loop_grows. intros p. apply run_image_grows.
    + apply generate_metrics_grows.
    + apply save_logs_grows.
Qed.

(** X2.  The keys of [objects_by_class] are exactly the class labels in
    the inferencer as constructed, and after an [image] command (a call
    of [infer_single_image] that resets) and after [infer_folder] of
    either file, whatever the outcome: from any state when the output
    directory can be created, since the counters are reset then, and
    from a state whose keys are the labels when it cannot, since nothing
    changes then.  A class name such as "Unknown" is a key only when it
    is one of the labels. *)
Theorem X2_class_keys_are_the_labels (cfg : config) (w : world)
    (path save_dir_path : string) (s : state) :
  keyed_by_labels cfg (new_inferencer cfg) /\
  (creatable w save_dir_path = true \/ keyed_by_labels cfg s ->
   keyed_by_labels cfg
     (snd (Server.infer_single_image cfg w path save_dir_path true s)) /\
   keyed_by_labels cfg
     (snd (Server.infer_folder cfg w path save_dir_path s)) /\
   keyed_by_labels cfg
     (snd (Fp32Server.infer_folder cfg w path save_dir_path s))).
Proof.
  split; [apply new_inferencer_keyed|]. intros H.
  destruct (creatable w save_dir_path) eqn:Hdir.
  - clear H. split; [|split].
    + rewrite infer_single_image_created by assumption.
      change (keyed_by_labels cfg
                (snd ((reset_counters cfg ;;;
                       (modify (set_num_frames 1) ;;;
                        guarded_run (conf_th cfg) (Server.render cfg) cfg w
                          save_dir_path path))%py s))).
      apply keys_after_reset. keep_grows; [|apply guarded_run_grows].
      apply field_update_grows. intros s0. simpl. auto.
    + unfold Server.infer_folder. unfold bind at 1.
      rewrite makedirs_run, Hdir.
      apply keys_after_reset, server_folder_body_grows.
    + unfold Fp32Server.infer_folder. unfold bind at 1.
      rewrite makedirs_run, Hdir.
      apply keys_after_reset, fp32_folder_body_grows.
  - destruct H as [H|H]; [discriminate H|].
    rewrite infer_single_image_not_created by assumption.
    destruct (infer_folder_not_created cfg w path save_dir_path s Hdir)
      as [-> ->].
    auto.
Qed.

Lemma X2_witness :
  creatable (Scenario.world_with Scenario.three_images [Scenario.row_a])
    "out" = true /\
  keyed_by_labels Scenario.cfg
    (snd (Server.infer_folder Scenario.cfg
            (Scenario.world_with Scenario.three_images [Scenario.row_a])
            "in" "out" Scenario.prepared)).
Proof.
  split; [reflexivity|].
  apply (X2_class_keys_are_the_labels Scenario.cfg
           (Scenario.world_with Scenario.three_images [Scenario.row_a])
           "in" "out" Scenario.prepared).
  left. reflexivity.
Defined.

(** ** File names through a folder command *)

#[local] Arguments String.append !s1 s2 /.

Lemma basename_from_app (a b : string) :
  forall acc,
    basename_from acc (a +:+ b) = basename_from (basename_from acc a) b.
Proof.
  induction a as [|c a IH]; intros acc; simpl; [reflexivity|].
  destruct (is_slash c); apply IH.
Qed.

Lemma append_empty_r (s : string) : s +:+ "" = s.
Proof. induction s as [|c s IH]; simpl; [reflexivity|]. rewrite IH. reflexivity. Qed.

Lemma append_assoc (a b c : string) : (a +:+ b) +:+ c = a +:+ (b +:+ c).
Proof. induction a as [|x a IH]; simpl; [reflexivity|]. rewrite IH. reflexivity. Qed.

Lemma basename_from_no_slash (b : string) :
  has_slash b = false -> forall acc, basename_from acc b = acc +:+ b.
Proof.
  induction b as [|c b IH]; simpl; intros H acc.
  - symmetry. apply append_empty_r.
  - apply orb_false_iff in H as [Hc Hb]. rewrite Hc, IH by assumption.
    rewrite append_assoc. reflexivity.
Qed.

Lemma has_slash_app (a b : string) :
  has_slash (a +:+ b) = has_slash a || has_slash b.
Proof.
  induction a as [|c a IH]; simpl; [reflexivity|].
  rewrite IH. apply orb_assoc.
Qed.

Lemma basename_from_has_no_slash (p : string) :
  forall acc, has_slash acc = false -> has_slash (basename_from acc p) = false.
Proof.
  induction p as [|c p IH]; simpl; intros acc H; [exact H|].
  destruct (is_slash c) eqn:E; apply IH; [reflexivity|].
  rewrite has_slash_app, H. simpl. rewrite E. reflexivity.
Qed.

Lemma rev_app_slash_basename (a : string) :
  forall racc,
    match String.rev_app a racc with
    | String x _ => is_slash x
    | EmptyString => false
    end = true ->
    (a = ""%string /\
     match racc with String x _ => is_slash x | EmptyString => false end = true)
    \/ (forall acc, basename_from acc a = ""%string).
Proof.
  induction a as [|c a IH]; intros racc H; simpl in H.
  - left. auto.
  - right. intros acc. simpl.
    destruct (IH _ H) as [[-> Hc]|Hall].
    + simpl in Hc. rewrite Hc. reflexivity.
    + destruct (is_slash c); apply Hall.
Qed.

Lemma last_is_slash_basename (a : string) :
  last_is_slash a = true -> forall acc, basename_from acc a = ""%string.
Proof.
  intros H. destruct (rev_app_slash_basename a ""%string H) as [[_ Hf]|Hall].
  - discriminate.
  - exact Hall.
Qed.

Lemma basename_path_join (a b : string) :
  has_slash b = false -> basename (path_join a b) = b.
Proof.
  intros Hb. unfold basename, path_join.
  assert (Hempty : String.eqb a "" || last_is_slash a = true ->
                   basename_from "" a = ""%string).
  { intros H. apply orb_true_iff in H as [H|H].
    - apply String.eqb_eq in H. subst a. reflexivity.
    - apply last_is_slash_basename, H. }
  destruct b as [|c b].
  - destruct (String.eqb a "" || last_is_slash a) eqn:E.
    + apply Hempty. reflexivity.
    + rewrite basename_from_app. reflexivity.
  - simpl in Hb. apply orb_false_iff in Hb as [Hc Hb]. rewrite Hc.
    destruct (String.eqb a "" || last_is_slash a) eqn:E.
    + rewrite basename_from_app, Hempty by reflexivity.
      rewrite basename_from_no_slash; [reflexivity|].
      simpl. rewrite Hc. exact Hb.
    + rewrite basename_from_app, basename_from_app. simpl.
      rewrite Hc. rewrite basename_from_no_slash by exact Hb. reflexivity.
Qed.

Section Returns.

Context {S A : Type} (Q : A -> Prop).

Lemma returns_only_ret (a : A) : Q a -> returns_only (S := S) Q (ret a).
Proof. intros H s a' [= <-]. exact H. Qed.

Lemma returns_only_raise (e : exn) : returns_only (S := S) Q (raise e).
Proof. intros s a [=]. Qed.

Lemma returns_only_bind {B} (c : M S B) (k : B -> M S A) :
  (forall b, returns_only Q (k b)) -> returns_only Q (bind c k).
Proof.
  intros Hk s a. unfold bind. destruct (c s) as [[b|e] s1]; simpl.
  - apply Hk.
  - discriminate.
Qed.

Lemma returns_only_try_catch (c : M S A) (h : exn -> M S A) :
  returns_only Q c -> (forall e, returns_only Q (h e)) ->
  returns_only Q (try_catch c h).
Proof.
  intros Hc Hh s a. unfold try_catch. specialize (Hc s).
  destruct (c s) as [[b|e] s1]; simpl in *.
  - exact (Hc a).
  - apply Hh.
Qed.

End Returns.

Lemma run_image_output_named postprocess cfg w image_path save_dir_path :
  returns_only
    (fun r => result_path r = image_path /\ output_named save_dir_path r)
    (run_image postprocess cfg w image_path save_dir_path).
Proof.
  unfold run_image. apply returns_only_bind. intros dims.
  apply returns_only_bind. intros [].
  destruct (engine_output w image_path); [|apply returns_only_raise].
  repeat (apply returns_only_bind; intros ?).
  apply returns_only_ret. simpl. auto.
Qed.

Lemma folder_loop_all (Q : image_result -> Prop)
    (process : string -> M state image_result) paths :
  (forall p, returns_only Q (process p)) ->
  (forall p e, Q (ImageFailed p e)) ->
  forall acc, Forall Q acc ->
    returns_only (Forall Q) (folder_loop process paths acc).
Proof.
  intros Hp Hf. induction paths as [|p paths IH]; intros acc Hacc; simpl.
  - apply returns_only_ret, Hacc.
  - intros s rs. unfold bind.
    destruct (try_catch (process p) (fun e => ret (ImageFailed p e)) s)
      as [[r|e] s1] eqn:E; [|discriminate].
    apply IH. apply Forall_app. split; [exact Hacc|].
    constructor; [|constructor].
    eapply (returns_only_try_catch Q (process p)
              (fun e => ret (ImageFailed p e))); [apply Hp| |].
    + intros e0. apply returns_only_ret, Hf.
    + rewrite E. reflexivity.
Qed.

Lemma folder_loop_paths (process : string -> M state image_result) paths :
  (forall p, returns_only (fun r => result_path r = p) (process p)) ->
  forall acc s rs,
    fst (folder_loop process paths acc s) = Ok rs ->
    exists results, rs = acc ++ results /\ result_path <$> results = paths.
Proof.
  intros Hp. induction paths as [|p paths IH]; intros acc s rs; simpl.
  - intros [= <-]. exists []. rewrite app_nil_r. auto.
  - unfold bind.
    destruct (try_catch (process p) (fun e => ret (ImageFailed p e)) s)
      as [[r|e] s1] eqn:E; [|discriminate].
    intros H. destruct (IH _ _ _ H) as (results & -> & Hpaths).
    exists (r :: results). split.
    + rewrite <- app_assoc. reflexivity.
    + simpl. f_equal; [|exact Hpaths].
      eapply (returns_only_try_catch (fun r => result_path r = p) (process p)
                (fun e => ret (ImageFailed p e))); [apply Hp| |].
      * intros e0. apply returns_only_ret. reflexivity.
      * rewrite E. reflexivity.
Qed.

Lemma server_single_output_named cfg w image_path save_dir_path reset :
  returns_only
    (fun r => result_path r = image_path /\ output_named save_dir_path r)
    (Server.infer_single_image cfg w image_path save_dir_path reset).
Proof.
  unfold Server.infer_single_image. apply returns_only_bind. intros _.
  apply returns_only_bind. intros _.
  apply returns_only_try_catch.
  - apply run_image_output_named.
  - intros e. apply returns_only_ret. simpl. auto.
Qed.

Lemma returns_only_weaken {S A} (Q Q' : A -> Prop) (c : M S A) :
  (forall a, Q a -> Q' a) -> returns_only Q c -> returns_only Q' c.
Proof. intros HQ Hc s a H. apply HQ, (Hc s a H). Qed.

Lemma server_infer_folder_loop cfg w folder_path save_dir_path s m results :
  fst (Server.infer_folder cfg w folder_path save_dir_path s)
  = Ok (FolderOk m results) ->
  exists s0 paths,
    get_images_from_folder w folder_path = Ok paths /\
    fst (folder_loop
           (fun image_path =>
              Server.infer_single_image cfg w image_path save_dir_path false)
           paths [] s0) = Ok results.
Proof.
  unfold Server.infer_folder, bind, reset_counters, modify, lift.
  destruct (makedirs w save_dir_path s) as [[[]|e0] s'] eqn:Hmk;
    [|discriminate].
  destruct (get_images_from_folder w folder_path) as [[|p paths]|e0] eqn:Hp;
    [discriminate| |discriminate].
  match goal with
  | |- context [folder_loop ?f ?ps ?acc ?s0] =>
    destruct (folder_loop f ps acc s0) as [[rs|e] s1] eqn:E; [|discriminate];
    destruct (generate_metrics s1) as [[m'|e] s2]; [|discriminate];
    intros [= <- <-]; exists s0, ps; rewrite E; auto
  end.
Qed.

Lemma fp32_infer_folder_loop cfg w folder_path save_dir_path s m results :
  fst (Fp32Server.infer_folder cfg w folder_path save_dir_path s)
  = Ok (FolderOk m results) ->
  exists s0 paths,
    get_images_from_folder w folder_path = Ok paths /\
    fst (folder_loop
           (fun image_path =>
              run_image (Fp32Server.postprocess_image cfg) cfg w image_path
                save_dir_path)
           paths [] s0) = Ok results.
Proof.
  unfold Fp32Server.infer_folder, bind, reset_counters, modify, lift.
  destruct (makedirs w save_dir_path s) as [[[]|e0] s'] eqn:Hmk;
    [|discriminate].
  destruct (get_images_from_folder w folder_path) as [[|p paths]|e0] eqn:Hp;
    [discriminate| |discriminate].
  match goal with
  | |- context [folder_loop ?f ?ps ?acc ?s0] =>
    destruct (folder_loop f ps acc s0) as [[rs|e] s1] eqn:E; [|discriminate];
    destruct (generate_metrics s1) as [[m'|e] s2]; [|discriminate];
    destruct (Fp32Server.save_logs cfg w m' _ s2) as [[[]|e] s3];
      [|discriminate];
    intros [= <- <-]; exists s0, ps; rewrite E; auto
  end.
Qed.

Lemma folder_loop_entries w folder_path save_dir_path
    (process : string -> M state image_result) s paths results :
  Forall (fun name => has_slash name = false) (listdir w folder_path) ->
  (forall p, returns_only
               (fun r => result_path r = p /\ output_named save_dir_path r)
               (process p)) ->
  get_images_from_folder w folder_path = Ok paths ->
  fst (folder_loop process paths [] s) = Ok results ->
  Forall (entry_of_listing w folder_path save_dir_path) results.
Proof.
  intros Hslash Hp Hlist Hrun.
  assert (Hnames : paths = path_join folder_path
                             <$> List.filter is_image_name
                                   (listdir w folder_path)).
  { unfold get_images_from_folder, os_listdir in Hlist.
    destruct (can_listdir w folder_path); [|discriminate Hlist].
    injection Hlist as <-. reflexivity. }
  assert (Hnamed : Forall (output_named save_dir_path) results).
  { eapply (folder_loop_all (output_named save_dir_path) process);
      [| |constructor|exact Hrun].
    - intros p. eapply returns_only_weaken; [|apply Hp]. intros a [_ H]; exact H.
    - intros p e. exact I. }
  destruct (folder_loop_paths process paths)
    with (acc := @nil image_result) (s := s) (rs := results)
    as (results' & Heq & Hpaths); [|exact Hrun|].
  { intros p. eapply returns_only_weaken; [|apply Hp]. intros a [H _]; exact H. }
  simpl in Heq. subst results'.
  apply Forall_forall. intros r Hr.
  assert (Hin : result_path r ∈ paths).
  { rewrite <- Hpaths. apply list_elem_of_fmap. exists r. auto. }
  rewrite Hnames in Hin.
  apply list_elem_of_fmap in Hin as (name & Hname & Hlisted).
  apply list_elem_of_In, filter_In in Hlisted as [Hlisted Himg].
  apply list_elem_of_In in Hlisted.
  assert (Hns : has_slash name = false).
  { rewrite Forall_forall in Hslash. apply Hslash, Hlisted. }
  exists name. repeat split; try assumption.
  - rewrite Hname. apply basename_path_join, Hns.
  - rewrite Forall_forall in Hnamed. specialize (Hnamed r Hr).
    rewrite H in Hnamed. simpl in Hnamed. rewrite Hnamed, Hname.
    rewrite (basename_path_join folder_path name Hns). reflexivity.
  - rewrite Forall_forall in Hnamed. specialize (Hnamed r Hr).
    rewrite H in Hnamed. simpl in Hnamed. rewrite Hnamed, Hname.
    rewrite (basename_path_join folder_path name Hns).
    apply basename_path_join, Hns.
Qed.

(** X3.  The files of a folder command are named after the directory
    listing.  When no listed name holds a slash, every entry of the result
    of [infer_folder], in both servers, belongs to a listed image name:
    its input path is the folder joined with that name, and a successful
    entry is written to the output directory under the same name. *)
Theorem X3_folder_entries_named (cfg : config) (w : world)
    (folder_path save_dir_path : string) (s : state) :
  Forall (fun name => has_slash name = false) (listdir w folder_path) ->
  (forall m results,
     fst (Server.infer_folder cfg w folder_path save_dir_path s)
     = Ok (FolderOk m results) ->
     Forall (entry_of_listing w folder_path save_dir_path) results) /\
  (forall m results,
     fst (Fp32Server.infer_folder cfg w folder_path save_dir_path s)
     = Ok (FolderOk m results) ->
     Forall (entry_of_listing w folder_path save_dir_path) results).
Proof.
  intros Hslash. split; intros m results Hrun.
  - apply server_infer_folder_loop in Hrun as (s0 & paths & Hlist & Hloop).
    eapply folder_loop_entries; [exact Hslash| |exact Hlist|exact Hloop].
    intros p. apply server_single_output_named.
  - apply fp32_infer_folder_loop in Hrun as (s0 & paths & Hlist & Hloop).
    eapply folder_loop_entries; [exact Hslash| |exact Hlist|exact Hloop].
    intros p. apply run_image_output_named.
Qed.

Lemma X3_witness :
  let w := Scenario.world_with Scenario.unsorted_images [Scenario.row_a] in
  Forall (fun name => has_slash name = false) (listdir w "in") /\
  forall m results,
    fst (Server.infer_folder Scenario.cfg w "in" "out" Scenario.fresh)
    = Ok (FolderOk m results) ->
    Forall (entry_of_listing w "in" "out") results.
Proof.
  assert (H : Forall (fun name => has_slash name = false)
                (listdir (Scenario.world_with Scenario.unsorted_images
                            [Scenario.row_a]) "in"))
    by (repeat constructor).
  split; [exact H|].
  exact (proj1 (X3_folder_entries_named Scenario.cfg
                  (Scenario.world_with Scenario.unsorted_images
                     [Scenario.row_a]) "in" "out" Scenario.fresh H)).
Defined.

(** ** What an image command leaves on disk *)

Lemma annotated_refl (im : image) : annotated im im 0.
Proof. unfold annotated. repeat split; try reflexivity. lia. Qed.

Lemma annotated_draw (im0 im : image) (n : nat) (op : draw_op) :
  annotated im0 im n ->
  annotated im0 (draw op im) (n + if is_rectangle op then 1 else 0).
Proof.
  intros (Hh & Hw & Hp & Hr). unfold annotated, rectangles in *. simpl.
  repeat split; try assumption.
  - apply prefix_app_r, Hp.
  - rewrite List.filter_app, length_app, Hr. simpl.
    destruct (is_rectangle op); simpl; lia.
Qed.

Lemma annotated_ops (im0 : image) (ops : list draw_op) :
  forall im n,
    annotated im0 im n ->
    annotated im0 (foldl (fun im' op => draw op im') im ops)
      (n + length (List.filter is_rectangle ops)).
Proof.
  induction ops as [|op ops IH]; intros im n H; simpl.
  - replace (n + 0)%nat with n by lia. exact H.
  - apply (annotated_draw _ _ _ op) in H. apply IH in H.
    destruct (is_rectangle op); simpl;
      [replace (n + S (length (List.filter is_rectangle ops)))%nat
         with (n + 1 + length (List.filter is_rectangle ops))%nat by lia
      |replace (n + length (List.filter is_rectangle ops))%nat
         with (n + 0 + length (List.filter is_rectangle ops))%nat by lia];
      exact H.
Qed.

Lemma draw_all_annotated cfg render (im0 : image) survivors :
  one_rectangle render ->
  forall im n,
    annotated im0 im n ->
    annotated im0 (draw_all cfg render survivors im) (n + length survivors).
Proof.
  intros Hone. unfold draw_all.
  induction survivors as [|c survivors IH]; intros im n H; simpl.
  - replace (n + 0)%nat with n by lia. exact H.
  - apply (annotated_ops _ (snd (render_one cfg render c))) in H.
    unfold render_one in H at 2. rewrite Hone in H.
    apply IH in H.
    replace (n + S (length survivors))%nat
      with (n + 1 + length survivors)%nat by lia.
    exact H.
Qed.

Lemma server_one_rectangle cfg : one_rectangle (Server.render cfg).
Proof.
  intros name c. unfold Server.render. simpl.
  destruct (cand_box c) as [[[x y] bw] bh]. simpl.
  destruct (text_nonempty _); reflexivity.
Qed.

Lemma fp32_one_rectangle : one_rectangle Fp32Server.render.
Proof.
  intros name c. unfold Fp32Server.render. simpl.
  destruct (cand_box c) as [[[x y] bw] bh]. reflexivity.
Qed.

Lemma emit_box_within cth sth width height scale_x scale_y detect c :
  decode_row cth sth width height scale_x scale_y detect = Emit c ->
  box_within width height (cand_box c).
Proof.
  intros Hrow. apply decode_row_emit in Hrow.
  destruct Hrow as [_ _ _ _ _ Hy Hp]. unfold box_within.
  destruct (cand_yolo c) as [[[cx cy] w] h].
  destruct (cand_box c) as [[[x y] bw] bh].
  destruct Hy as (_ & _ & Hbox). apply scaled_box_clamped in Hbox. lia.
Qed.

(** The files after [cv2.imwrite] and the return that follows. *)
Lemma after_imwrite_written {A} w out im (dets : A) s :
  match after_imwrite w out dets with
  | Ok dets' =>
    dets' = dets /\ cv_imwrite w out <> NoEncoder /\
    written (with_written w out im s) = stored w out im (written s)
  | Raise _ => written (with_written w out im s) = written s
  end.
Proof.
  unfold after_imwrite, with_written, stored.
  destruct (cv_imwrite w out); simpl; [| |reflexivity];
    (split; [reflexivity|]; split; [discriminate|reflexivity]).
Qed.

(** The files of one call of [postprocess_image], whatever its outcome. *)
Lemma postprocess_with_written sth render cfg w image_path output dims out
    s r s' :
  labels_counted cfg s ->
  postprocess_with sth render cfg w image_path output dims out s = (r, s') ->
  frame_written sth cfg render w image_path output dims out s r s'.
Proof.
  intros Hwf Hrun. unfold frame_written.
  destruct (has_nan output) eqn:Hnan.
  - rewrite postprocess_with_nan in Hrun by assumption.
    destruct (imread w image_path) as [im|]; injection Hrun as <- <-.
    + match goal with |- context [with_written w out ?i ?s0] =>
        pose proof (after_imwrite_written w out i (@nil detection) s0) as Hw
      end.
      destruct (after_imwrite w out []) as [dets|e]; [|exact Hw].
      destruct Hw as (-> & Henc & Hw).
      exists []. split; [reflexivity|]. split; [exact Henc|].
      split; [exact Hw|]. split; [reflexivity|].
      split; [exists []; unfold retained; rewrite retained_indices_nil;
              reflexivity|constructor].
    + reflexivity.
  - destruct (imread w image_path) as [im|] eqn:Him.
    2:{ unfold postprocess_with in Hrun. rewrite Hnan, Him in Hrun.
        injection Hrun as <- <-. auto. }
    destruct dims as [height width].
    destruct (resized_img s) as [[rw rh]|] eqn:Hres.
    2:{ unfold postprocess_with, bind, get in Hrun.
        rewrite Hnan, Him, Hres in Hrun.
        injection Hrun as <- <-. reflexivity. }
    destruct (Z.eq_dec rw 0) as [->|Hrw].
    { unfold postprocess_with, bind, get, lift in Hrun.
      rewrite Hnan, Him, Hres in Hrun. simpl in Hrun.
      injection Hrun as <- <-. reflexivity. }
    destruct (Z.eq_dec rh 0) as [->|Hrh].
    { unfold postprocess_with, bind, get, lift, py_truediv_int in Hrun.
      rewrite Hnan, Him, Hres in Hrun.
      rewrite (proj2 (Z.eqb_neq rw 0) Hrw) in Hrun. simpl in Hrun.
      injection Hrun as <- <-. reflexivity. }
    destruct (decode_rows (conf_th cfg) sth width height
                (div (of_Z width) (of_Z rw)) (div (of_Z height) (of_Z rh))
                output) as [cands|e] eqn:Hdec.
    2:{ unfold postprocess_with, bind, get, lift, py_truediv_int in Hrun.
        rewrite Hnan, Him, Hres in Hrun.
        rewrite (proj2 (Z.eqb_neq rw 0) Hrw),
                (proj2 (Z.eqb_neq rh 0) Hrh), Hdec in Hrun.
        injection Hrun as <- <-. reflexivity. }
    rewrite (postprocess_with_ok _ _ _ _ _ _ _ _ _ _ _ _ _ _
               Hnan Him Hres Hrw Hrh Hdec Hwf) in Hrun.
    injection Hrun as <- <-.
    assert (Hcount : written (count_all cfg (retained cfg cands) s)
                     = written s).
    { pose proof (count_all_same_run cfg (retained cfg cands) s) as H.
      unfold same_run in H. tauto. }
    match goal with |- context [with_written w out ?i ?s0] =>
      pose proof (after_imwrite_written w out i
                    (entries cfg render (retained cfg cands)) s0) as Hw
    end.
    destruct (after_imwrite w out _) as [dets|e];
      [|rewrite Hw; exact Hcount].
    destruct Hw as (-> & Henc & Hw).
    exists (retained cfg cands).
    split; [reflexivity|]. split; [exact Henc|].
    split; [rewrite Hw, Hcount; reflexivity|].
    split; [discriminate|]. split; [exists cands; reflexivity|].
    apply Forall_forall. intros c Hc. apply retained_subset in Hc.
    pose proof (decode_rows_emitted _ _ _ _ _ _ _ _ Hdec) as Hem.
    rewrite Forall_forall in Hem. destruct (Hem c Hc) as (detect & _ & Hrow).
    exists detect, (div (of_Z width) (of_Z rw)),
      (div (of_Z height) (of_Z rh)). exact Hrow.
Qed.

Lemma entries_boxes cfg render survivors (P : box -> Prop) :
  faithful render ->
  Forall (fun c => P (cand_box c)) survivors ->
  Forall (fun d => P (det_bbox d)) (entries cfg render survivors).
Proof.
  intros Hf H. unfold entries. apply Forall_fmap.
  eapply Forall_impl; [exact H|]. intros c Hc. simpl.
  unfold render_one. destruct (Hf (class_name_of cfg c) c) as (_ & -> & _).
  exact Hc.
Qed.

(** One step of the pipeline, an exception turned into a failed entry. *)
Lemma guarded_run_outcome sth render cfg w save_dir_path image_path s :
  faithful render -> one_rectangle render ->
  labels_counted cfg s ->
  exists r s',
    guarded_run sth render cfg w save_dir_path image_path s = (Ok r, s') /\
    image_outcome w s s' r.
Proof.
  intros Hf Hone Hwf.
  unfold guarded_run, try_catch, run_image, preprocess_image.
  destruct (imread w image_path) as [img|] eqn:Him.
  2:{ eexists _, _. split; [reflexivity|]. reflexivity. }
  destruct (input_shape cfg !! 2%nat) as [d2|];
    [|eexists _, _; split; reflexivity].
  destruct (input_shape cfg !! 3%nat) as [d3|];
    [|eexists _, _; split; reflexivity].
  destruct ((d2 <=? 0) || (d3 <=? 0));
    [eexists _, _; split; reflexivity|].
  destruct (engine_output w image_path) as [output|] eqn:Heng.
  2:{ eexists _, _. split; reflexivity. }
  cbv [bind modify ret add_total_time add_inference_time].
  match goal with
  | |- context [postprocess_with _ _ _ _ _ _ _ ?o ?s2] =>
    set (s2' := s2); set (out := o)
  end.
  assert (Hwf2 : labels_counted cfg s2') by exact Hwf.
  destruct (postprocess_with sth render cfg w image_path output
              (im_height img, im_width img) out s2') as [r1 s3] eqn:Hpost.
  pose proof (postprocess_with_written _ _ _ _ _ _ _ _ _ _ _ Hwf2 Hpost) as Hw.
  unfold frame_written in Hw. destruct r1 as [dets|e].
  - rewrite Him in Hw.
    destruct Hw as (survivors & -> & Henc & Hwr & Hnan & _ & Hsrc).
    eexists _, _. split; [reflexivity|]. simpl.
    eexists img, _. split; [exact Him|]. split; [exact Henc|].
    split; [exact Hwr|]. split.
    + rewrite entries_length.
      destruct (has_nan output).
      * rewrite (Hnan eq_refl). simpl.
        apply (annotated_draw img img 0 (PutText _ _ _)), annotated_refl.
      * apply (draw_all_annotated cfg render img survivors Hone img 0),
          annotated_refl.
    + apply entries_boxes; [exact Hf|].
      eapply Forall_impl; [exact Hsrc|].
      intros c (detect & sx & sy & Hrow). simpl in Hrow.
      eapply emit_box_within, Hrow.
  - eexists _, _. split; [reflexivity|]. simpl. exact Hw.
Qed.

Lemma reset_then_one_frame cfg s :
  let s1 := snd ((reset_counters cfg ;;; modify (set_num_frames 1))%py s) in
  labels_counted cfg s1 /\ written s1 = written s /\ logs s1 = logs s /\
  total_objects s1 = 0%nat /\ invalid_outputs s1 = 0%nat /\
  num_frames s1 = 1%nat.
Proof.
  pose proof (reset_counters_state cfg s) as H. simpl in H.
  cbv [bind modify reset_counters] in *. simpl in *.
  destruct H as (_ & _ & _ & _ & _ & _ & Hl & _).
  repeat split; auto.
Qed.

Lemma server_single_image_outcome cfg w image_path save_dir_path s :
  creatable w save_dir_path = true ->
  exists r s',
    Server.infer_single_image cfg w image_path save_dir_path true s
    = (Ok r, s') /\
    image_outcome w s s' r.
Proof.
  intros Hdir.
  destruct (reset_then_one_frame cfg s) as (Hl & Hw & _).
  rewrite infer_single_image_created by assumption.
  set (s1 := snd ((reset_counters cfg ;;; modify (set_num_frames 1))%py s)) in *.
  destruct (guarded_run_outcome (conf_th cfg) (Server.render cfg) cfg w
              save_dir_path image_path s1
              (server_render_faithful cfg) (server_one_rectangle cfg) Hl)
    as (r & s' & Hrun & Hout).
  exists r, s'. split.
  - rewrite <- Hrun. reflexivity.
  - unfold image_outcome in *. rewrite <- Hw. exact Hout.
Qed.

(** X4.  What an image request leaves on disk.  When the output
    directory cannot be created, [infer_single_image] of
    [detect_trt_server.py] with its default reset raises the exception of
    [os.makedirs] and changes nothing.  Otherwise it returns an entry.  A
    failed entry has written no image.  A successful entry has passed
    exactly one image to [cv2.imwrite], for its output path and under a
    name that has an encoder: the input image with its shape unchanged,
    one more rectangle for each detection of the entry, and every box of
    the entry inside that image. *)
Theorem X4_image_request_on_disk (cfg : config) (w : world)
    (image_path save_dir_path : string) (s : state) :
  (creatable w save_dir_path = false ->
   Server.infer_single_image cfg w image_path save_dir_path true s
   = (Raise OSError, s)) /\
  (creatable w save_dir_path = true ->
   exists r s',
     Server.infer_single_image cfg w image_path save_dir_path true s
     = (Ok r, s') /\
     image_outcome w s s' r).
Proof.
  split; [apply infer_single_image_not_created|].
  apply server_single_image_outcome.
Qed.

Lemma X4_witness :
  let w := Scenario.world_with Scenario.three_images [Scenario.row_a] in
  creatable w "out" = true /\
  exists r s',
    Server.infer_single_image Scenario.cfg w "in/1.jpg" "out" true
      Scenario.fresh = (Ok r, s') /\
    image_outcome w Scenario.fresh s' r.
Proof.
  assert (H : creatable
                (Scenario.world_with Scenario.three_images [Scenario.row_a])
                "out" = true) by reflexivity.
  split; [exact H|].
  exact (proj2 (X4_image_request_on_disk Scenario.cfg
                  (Scenario.world_with Scenario.three_images [Scenario.row_a])
                  "in/1.jpg" "out" Scenario.fresh) H).
Defined.
(** ** The outcome of a folder command *)

(** *** The reports are left alone by the pipeline *)

Lemma same_logs_refl (s : state) : same_logs s s.
Proof. reflexivity. Qed.

Lemma same_logs_trans (a b c : state) :
  same_logs a b -> same_logs b c -> same_logs a c.
Proof. unfold same_logs. congruence. Qed.

Lemma imwrite_logs w output_path im :
  preserves same_logs (imwrite w output_path im).
Proof.
  intros s. unfold imwrite, same_logs.
  destruct (cv_imwrite w output_path); reflexivity.
Qed.

Ltac keep_logs :=
  repeat
    match goal with
    | |- preserves same_logs (bind _ _) =>
      apply (preserves_bind same_logs same_logs_trans); [|intros ?]
    | |- preserves same_logs (ret _) =>
      apply (preserves_ret same_logs same_logs_refl)
    | |- preserves same_logs (raise _) =>
      apply (preserves_raise same_logs same_logs_refl)
    | |- preserves same_logs (lift _) =>
      apply (preserves_lift same_logs same_logs_refl)
    | |- preserves same_logs get =>
      apply (preserves_get same_logs same_logs_refl)
    | |- preserves same_logs (modify _) =>
      apply preserves_modify; intros ?; reflexivity
    | |- preserves same_logs (imwrite _ _ _) => apply imwrite_logs
    end.

Lemma count_survivor_logs cfg c : preserves same_logs (count_survivor cfg c).
Proof.
  intros s. unfold count_survivor, bind, modify, get, same_logs. simpl.
  destruct (class_labels cfg !! cand_class c) as [name|]; simpl;
    [|reflexivity].
  destruct (objects_by_class s !! name); reflexivity.
Qed.

Lemma survivors_loop_logs cfg render cands idxs :
  forall dets im,
    preserves same_logs (survivors_loop cfg render cands idxs dets im).
Proof.
  induction idxs as [|i idxs IH]; intros dets im; simpl.
  - keep_logs.
  - destruct (cands !! i) as [c|].
    + keep_logs; [apply count_survivor_logs|].
      match goal with |- context [render ?name c] =>
        destruct (render name c) as [d ops] end.
      apply IH.
    + keep_logs.
Qed.

Lemma postprocess_with_logs sth render cfg w image_path output dims out :
  preserves same_logs
    (postprocess_with sth render cfg w image_path output dims out).
Proof.
  unfold postprocess_with. destruct (has_nan output).
  - keep_logs. destruct (imread w image_path); keep_logs.
  - destruct (imread w image_path) as [im|]; keep_logs.
    destruct dims as [height width]. keep_logs.
    match goal with |- context [resized_img ?x] =>
      destruct (resized_img x) as [[rw rh]|] end; keep_logs.
    match goal with |- context [(0 <? ?n)%nat] =>
      destruct (0 <? n)%nat end; keep_logs.
    apply survivors_loop_logs.
Qed.

Lemma run_image_logs sth render cfg w image_path save_dir_path :
  preserves same_logs
    (run_image (postprocess_with sth render cfg) cfg w image_path
       save_dir_path).
Proof.
  unfold run_image, preprocess_image, add_total_time, add_inference_time.
  keep_logs.
  - destruct (imread w image_path); keep_logs.
    destruct (input_shape cfg !! 2%nat); keep_logs.
    destruct (input_shape cfg !! 3%nat); keep_logs.
    match goal with |- context [if ?b then _ else _] => destruct b end;
      keep_logs.
  - destruct (engine_output w image_path); keep_logs.
    apply postprocess_with_logs.
Qed.

Lemma guarded_run_logs sth render cfg w save_dir_path image_path s :
  logs (snd (guarded_run sth render cfg w save_dir_path image_path s))
  = logs s.
Proof.
  pose proof (run_image_logs sth render cfg w image_path save_dir_path s)
    as H.
  unfold guarded_run, try_catch. unfold same_logs in H.
  destruct (run_image _ cfg w image_path save_dir_path s) as [[r|e] s1];
    exact H.
Qed.

(** *** The loop and the command *)

Lemma detections_total_app (l k : list image_result) :
  detections_total (l ++ k) = (detections_total l + detections_total k)%nat.
Proof.
  unfold detections_total. rewrite !fmap_app, sum_list_with_app. reflexivity.
Qed.

Lemma detections_total_cons (r : image_result) (l : list image_result) :
  detections_total (r :: l)
  = (length (result_detections r) + detections_total l)%nat.
Proof. reflexivity. Qed.

Lemma generate_metrics_raises (s : state) (e : exn) (s' : state) :
  generate_metrics s = (Raise e, s') ->
  e = ZeroDivisionError /\ s' = s /\ is_zero (total_time s) = true.
Proof.
  unfold generate_metrics, bind, get, lift, ret, py_truediv, py_truediv_int.
  destruct (0 <? num_frames s)%nat eqn:Hn; [|discriminate].
  destruct (is_zero (total_time s)) eqn:Hz.
  - intros [= <- <-]. auto.
  - apply Nat.ltb_lt in Hn.
    destruct (Z.of_nat (num_frames s) =? 0) eqn:Hq; [|discriminate].
    apply Z.eqb_eq in Hq. lia.
Qed.

(** The detections an entry lists were counted, and nothing else was
    unless the entry failed in its final [cv2.imwrite]. *)
Lemma counted_in_length cfg render r survivors :
  counted_in cfg render r survivors ->
  (length (result_detections r) <= length survivors)%nat /\
  (~ failed_writing r -> length survivors = length (result_detections r)).
Proof.
  destruct r as [p o dets|p e]; simpl.
  - intros [_ Hlen]. rewrite Hlen. split; [lia|reflexivity].
  - intros [Hs|He]; subst; (split; [simpl; lia|]).
    + reflexivity.
    + intros H. exfalso. apply H. exists p. reflexivity.
Qed.

(** The loop of [infer_folder] from a state in which every label is
    counted. *)
Lemma folder_loop_outcome sth render cfg w dir paths :
  faithful render -> one_rectangle render ->
  forall acc s,
    labels_counted cfg s ->
    exists results s',
      folder_loop (guarded_run sth render cfg w dir) paths acc s
      = (Ok (acc ++ results), s') /\
      result_path <$> results = paths /\
      (total_objects s + detections_total results <= total_objects s')%nat /\
      (Forall (fun r => ~ failed_writing r) results ->
       total_objects s' = (total_objects s + detections_total results)%nat) /\
      num_frames s' = num_frames s /\
      logs s' = logs s /\
      labels_counted cfg s' /\
      exists ims,
        written s' = stored_all w ims (written s) /\
        fst <$> ims = omap output_of results.
Proof.
  intros Hf Hone. induction paths as [|p paths IH]; intros acc s Hwf.
  - exists [], s. simpl. rewrite app_nil_r.
    split; [reflexivity|]. split; [reflexivity|].
    change (detections_total []) with 0%nat.
    split; [lia|]. split; [intros _; lia|].
    split; [reflexivity|]. split; [reflexivity|]. split; [exact Hwf|].
    exists []. auto.
  - destruct (guarded_run_outcome sth render cfg w dir p s Hf Hone Hwf)
      as (r & s1 & Hrun & Hout).
    destruct (guarded_run_effect _ _ _ _ _ _ _ _ _ Hwf Hrun)
      as (ir & survivors & Hir & Hpath & Hdets & Htot & Hnf & Hwf1).
    injection Hir as <-.
    pose proof (guarded_run_logs sth render cfg w dir p s) as Hlog.
    rewrite Hrun in Hlog. simpl in Hlog.
    destruct (counted_in_length _ _ _ _ Hdets) as [Hle Heq].
    destruct (IH (acc ++ [r]) s1 Hwf1)
      as (results & s' & Hloop & Hpaths & Htot' & Hex' & Hnf' & Hlog' & Hwf'
          & ims & Hw & Hims).
    exists (r :: results), s'.
    split; [|split; [|split; [|split; [|split; [|split; [|split]]]]]].
    + simpl. unfold bind. rewrite try_catch_guarded, Hrun.
      rewrite Hloop, <- app_assoc. reflexivity.
    + rewrite fmap_cons, Hpath, Hpaths. reflexivity.
    + rewrite detections_total_cons. lia.
    + intros Hall. apply Forall_cons in Hall as [Hr Hall].
      rewrite detections_total_cons, (Hex' Hall), Htot, (Heq Hr). lia.
    + rewrite Hnf', Hnf. reflexivity.
    + rewrite Hlog', Hlog. reflexivity.
    + exact Hwf'.
    + unfold image_outcome in Hout. destruct r as [ip op dets|ip e].
      * destruct Hout as (im0 & im & _ & _ & Hw1 & _).
        exists ((op, im) :: ims). rewrite Hw, Hw1.
        split; [reflexivity|].
        rewrite fmap_cons, Hims. reflexivity.
      * exists ims. rewrite Hw, Hout. split; [reflexivity|exact Hims].
Qed.

(** The command up to the metrics, once the directory is created and the
    folder listed. *)
Lemma folder_body_outcome sth render cfg w dir paths s :
  faithful render -> one_rectangle render ->
  exists results s2,
    (reset_counters cfg ;;;
     modify (set_num_frames (length paths)) ;;;
     folder_loop (guarded_run sth render cfg w dir) paths [])%py s
    = (Ok results, s2) /\
    result_path <$> results = paths /\
    num_frames s2 = length paths /\
    (detections_total results <= total_objects s2)%nat /\
    (Forall (fun r => ~ failed_writing r) results ->
     total_objects s2 = detections_total results) /\
    logs s2 = logs s /\
    exists ims,
      written s2 = stored_all w ims (written s) /\
      fst <$> ims = omap output_of results.
Proof.
  intros Hf Hone.
  pose proof (reset_counters_state cfg s) as Hreset.
  set (s0 := snd (reset_counters cfg s)) in *.
  cbv zeta in Hreset.
  destruct Hreset as (Ht0 & _ & _ & Hn0 & _ & _ & Hl0 & _ & Hw0 & Hlg0).
  assert (Hr : reset_counters cfg s = (Ok tt, s0)) by reflexivity.
  unfold bind at 1. rewrite Hr.
  unfold bind at 1. unfold modify at 1.
  set (s1 := set_num_frames (length paths) s0) in *.
  assert (Hl1 : labels_counted cfg s1) by exact Hl0.
  assert (Ht1 : total_objects s1 = 0%nat) by exact Ht0.
  assert (Hn1 : num_frames s1 = length paths) by reflexivity.
  assert (Hw1 : written s1 = written s) by exact Hw0.
  assert (Hlg1 : logs s1 = logs s) by exact Hlg0.
  clearbody s1 s0.
  destruct (folder_loop_outcome sth render cfg w dir paths Hf Hone [] s1 Hl1)
    as (results & s2 & Hloop & Hpaths & Htot & Hex & Hnf & Hlog & _ & ims
        & Hw & Hims).
  simpl app in Hloop. exists results, s2.
  split; [exact Hloop|]. split; [exact Hpaths|].
  split; [rewrite Hnf; exact Hn1|]. split; [lia|].
  split; [intros Hall; rewrite (Hex Hall); lia|].
  split; [rewrite Hlog; exact Hlg1|].
  exists ims. rewrite Hw, Hw1. auto.
Qed.

(** The command when the folder cannot be listed: the counters are reset
    and the exception of [os.listdir] escapes. *)
Lemma infer_folder_not_listed cfg w folder_path save_dir_path s :
  creatable w save_dir_path = true ->
  can_listdir w folder_path = false ->
  Server.infer_folder cfg w folder_path save_dir_path s
  = (Raise OSError, snd (reset_counters cfg s)) /\
  Fp32Server.infer_folder cfg w folder_path save_dir_path s
  = (Raise OSError, snd (reset_counters cfg s)).
Proof.
  intros Hdir Hlist.
  unfold Server.infer_folder, Fp32Server.infer_folder, bind, lift,
    get_images_from_folder, os_listdir.
  rewrite makedirs_run, Hdir, Hlist. split; reflexivity.
Qed.

Lemma get_images_listed w folder_path :
  can_listdir w folder_path = true ->
  get_images_from_folder w folder_path
  = Ok (path_join folder_path
          <$> List.filter is_image_name (listdir w folder_path)).
Proof.
  intros H. unfold get_images_from_folder, os_listdir. rewrite H.
  reflexivity.
Qed.

(** X5.  The outcome of a folder command, for both servers and from any
    state.  The exception of [os.makedirs] escapes before anything has
    changed, and that of [os.listdir] once the counters are reset.  An
    empty folder resets the counters and writes nothing.  Otherwise the
    result has one entry per listed image, in the order of the listing;
    the frame counter is the number of listed images, failed ones
    included; the object counter, which the metrics report, is at least
    the number of detections of the entries, and equal to it unless an
    entry failed in its final [cv2.imwrite]; one image is passed to
    [cv2.imwrite] per successful entry, in order, for its output path.
    The other exceptions that escape are the division by an accumulated
    time of zero and, in [detect_trt_fp32_server.py], that of opening the
    report, which is otherwise the file [inference_logs.txt] of the
    output directory. *)
Theorem X5_folder_outcome (cfg : config) (w : world)
    (folder_path save_dir_path : string) (s : state) :
  folder_outcome cfg w folder_path save_dir_path None s
    (Server.infer_folder cfg w folder_path save_dir_path s) /\
  folder_outcome cfg w folder_path save_dir_path
    (Some (path_join save_dir_path "inference_logs.txt")) s
    (Fp32Server.infer_folder cfg w folder_path save_dir_path s).
Proof.
  destruct (creatable w save_dir_path) eqn:Hdir.
  2:{ destruct (infer_folder_not_created cfg w folder_path save_dir_path s
                  Hdir) as [-> ->].
      unfold folder_outcome. rewrite Hdir. simpl.
      split; (split; [reflexivity|]; left; auto). }
  destruct (can_listdir w folder_path) eqn:Hcan.
  2:{ destruct (infer_folder_not_listed cfg w folder_path save_dir_path s
                  Hdir Hcan) as [-> ->].
      unfold folder_outcome. rewrite Hdir, Hcan. simpl.
      split; (split; [reflexivity|]; right; left; auto). }
  pose proof (get_images_listed w folder_path Hcan) as Hlist.
  set (paths := path_join folder_path
                  <$> List.filter is_image_name (listdir w folder_path))
    in Hlist.
  rewrite (server_infer_folder_listed _ _ _ _ _ _ Hdir Hlist).
  rewrite (fp32_infer_folder_listed _ _ _ _ _ _ Hdir Hlist).
  unfold folder_outcome. rewrite Hdir, Hlist.
  destruct paths as [|p ps] eqn:Hp.
  { pose proof (reset_counters_state cfg s) as Hreset. cbv zeta in Hreset.
    destruct Hreset as (Ht0 & _ & _ & Hn0 & _ & _ & _ & _ & Hw0 & Hlg0).
    cbv [bind modify ret reset_counters] in *. simpl in *. auto 10. }
  rewrite <- Hp.
  assert (Hne : exists p' ps', Ok paths = @Ok (list string) (p' :: ps'))
    by (rewrite Hp; eauto).
  split.
  - destruct (folder_body_outcome (conf_th cfg) (Server.render cfg) cfg w
                save_dir_path paths s (server_render_faithful cfg)
                (server_one_rectangle cfg))
      as (results & s2 & Hbody & Hpaths & Hn & Hle & Heq & Hlog & Hims).
    assert (Hrun : forall k : list image_result -> M state folder_result,
              (reset_counters cfg ;;;
               modify (set_num_frames (length paths)) ;;;
               results <- folder_loop
                            (guarded_run (conf_th cfg) (Server.render cfg)
                               cfg w save_dir_path) paths [] ;;
               k results)%py s = k results s2).
    { intros k. cbv [bind] in Hbody |- *.
      destruct (reset_counters cfg s) as [[[]|e] s0]; [|discriminate Hbody].
      destruct (modify _ s0) as [[[]|e] s1]; [|discriminate Hbody].
      rewrite Hbody. reflexivity. }
    rewrite Hrun. cbv [bind ret].
    destruct (generate_metrics s2) as [[m|e] s3] eqn:Hgm.
    + destruct (generate_metrics_cases s2) as [[e He]|(m' & Hm & Hmt)];
        [rewrite He in Hgm; discriminate|].
      rewrite Hm in Hgm. injection Hgm as <- <-. simpl.
      assert (Hnz : num_frames s2 <> 0%nat)
        by (rewrite Hn, Hp; discriminate).
      destruct (Hmt Hnz) as (mt & -> & Hmn & Hmo).
      split; [reflexivity|]. split; [rewrite Hpaths; reflexivity|].
      split; [intros ->; rewrite Hp in Hpaths; discriminate|].
      split; [rewrite Hn, <- Hpaths, length_fmap; reflexivity|].
      split; [exact Hle|]. split; [exact Heq|]. split; [exact Hims|].
      exists mt. split; [reflexivity|].
      split; [rewrite Hmn, Hn, <- Hpaths, length_fmap; reflexivity|].
      split; [exact Hmo|exact Hlog].
    + apply generate_metrics_raises in Hgm as (-> & -> & Hz). simpl.
      split; [exact Hlog|]. right. right.
      split; [reflexivity|]. split; [exact Hne|]. left. auto.
  - destruct (folder_body_outcome (score_th cfg) Fp32Server.render cfg w
                save_dir_path paths s fp32_render_faithful
                fp32_one_rectangle)
      as (results & s2 & Hbody & Hpaths & Hn & Hle & Heq & Hlog & Hims).
    assert (Hrun : forall k : list image_result -> M state folder_result,
              (reset_counters cfg ;;;
               modify (set_num_frames (length paths)) ;;;
               results <- folder_loop
                            (guarded_run (score_th cfg) Fp32Server.render
                               cfg w save_dir_path) paths [] ;;
               k results)%py s = k results s2).
    { intros k. cbv [bind] in Hbody |- *.
      destruct (reset_counters cfg s) as [[[]|e] s0]; [|discriminate Hbody].
      destruct (modify _ s0) as [[[]|e] s1]; [|discriminate Hbody].
      rewrite Hbody. reflexivity. }
    rewrite Hrun. cbv [bind ret].
    destruct (generate_metrics s2) as [[m|e] s3] eqn:Hgm.
    + destruct (generate_metrics_cases s2) as [[e He]|(m' & Hm & Hmt)];
        [rewrite He in Hgm; discriminate|].
      rewrite Hm in Hgm. injection Hgm as <- <-.
      assert (Hnz : num_frames s2 <> 0%nat)
        by (rewrite Hn, Hp; discriminate).
      destruct (Hmt Hnz) as (mt & -> & Hmn & Hmo).
      unfold Fp32Server.save_logs.
      destruct (can_open w (path_join save_dir_path "inference_logs.txt"))
        eqn:Hopen.
      * unfold modify. simpl.
        split; [reflexivity|]. split; [rewrite Hpaths; reflexivity|].
        split; [intros ->; rewrite Hp in Hpaths; discriminate|].
        split; [rewrite Hn, <- Hpaths, length_fmap; reflexivity|].
        split; [exact Hle|]. split; [exact Heq|]. split; [exact Hims|].
        exists mt. split; [reflexivity|].
        split; [rewrite Hmn, Hn, <- Hpaths, length_fmap; reflexivity|].
        split; [exact Hmo|]. split; [reflexivity|].
        rewrite Hlog. reflexivity.
      * simpl. split; [exact Hlog|]. right. right.
        split; [reflexivity|]. split; [exact Hne|]. right.
        split; [reflexivity|]. eexists. split; [reflexivity|exact Hopen].
    + apply generate_metrics_raises in Hgm as (-> & -> & Hz). simpl.
      split; [exact Hlog|]. right. right.
      split; [reflexivity|]. split; [exact Hne|]. left. auto.
Qed.

(** ** The command loop of [detect_trt_server.py] *)

Lemma process_command_returns cfg w output_dir c sv :
  fst (Server.process_command cfg w output_dir c sv) = Ok tt.
Proof.
  destruct c as [p|p]; simpl.
  - destruct (process_single_image_spec cfg w output_dir p sv)
      as (rows & (H & _) & _). exact H.
  - destruct (process_folder_spec cfg w output_dir p sv)
      as (rows & (H & _) & _). exact H.
Qed.

Lemma guarded_process_command cfg w output_dir c sv :
  try_catch (Server.process_command cfg w output_dir c) (fun _ => ret tt) sv
  = Server.process_command cfg w output_dir c sv.
Proof.
  pose proof (process_command_returns cfg w output_dir c sv) as H.
  unfold try_catch.
  destruct (Server.process_command cfg w output_dir c sv) as [[[]|e] sv'];
    [reflexivity|discriminate H].
Qed.

Lemma console_loop_commands cfg w output_dir lines :
  forall sv,
    ServerConsole._process_commands cfg w output_dir lines sv
    = (Ok (snd (dispatched lines)),
       snd (Server.process_commands cfg w output_dir (fst (dispatched lines))
              sv)).
Proof.
  induction lines as [|line lines IH]; intros sv; simpl; [reflexivity|].
  destruct (ServerConsole.read_command line) as [c| |]; simpl.
  - unfold bind. rewrite guarded_process_command.
    pose proof (process_command_returns cfg w output_dir c sv) as H.
    destruct (Server.process_command cfg w output_dir c sv) as [[[]|e] sv'];
      [|discriminate H].
    apply IH.
  - reflexivity.
  - apply IH.
Qed.

Lemma dispatched_until_quit pre q post :
  ServerConsole.read_command q = ServerConsole.Quit ->
  dispatched (pre ++ q :: post) = dispatched (pre ++ [q]) /\
  snd (dispatched (pre ++ [q])) = false.
Proof.
  intros Hq. induction pre as [|line pre [IH1 IH2]]; simpl.
  - rewrite Hq. auto.
  - destruct (ServerConsole.read_command line); simpl; auto.
    rewrite IH1, IH2. auto.
Qed.

(** X6.  The command loop on the lines typed at the prompt is the loop
    over the commands read before the first [quit]: no exception escapes
    a command, the lines that read as neither an image nor a folder
    command cost nothing, and nothing typed after [quit] is looked at;
    the loop then returns with [running] false. *)
Theorem X6_console_loop (cfg : config) (w : world) (output_dir : string)
    (sv : Server.server) :
  (forall lines,
     ServerConsole._process_commands cfg w output_dir lines sv
     = (Ok (snd (dispatched lines)),
        snd (Server.process_commands cfg w output_dir
               (fst (dispatched lines)) sv))) /\
  (forall pre q post,
     ServerConsole.read_command q = ServerConsole.Quit ->
     ServerConsole._process_commands cfg w output_dir (pre ++ q :: post) sv
     = ServerConsole._process_commands cfg w output_dir (pre ++ [q]) sv /\
     fst (ServerConsole._process_commands cfg w output_dir (pre ++ q :: post)
            sv) = Ok false).
Proof.
  split.
  - intros lines. apply console_loop_commands.
  - intros pre q post Hq.
    destruct (dispatched_until_quit pre q post Hq) as [H1 H2].
    rewrite !console_loop_commands, H1. split; [reflexivity|].
    simpl. rewrite H2. reflexivity.
Qed.

Lemma X6_witness :
  ServerConsole.read_command "  QUIT " = ServerConsole.Quit /\
  fst (ServerConsole._process_commands Scenario.cfg Desk.nothing_there "out"
         (["help"] ++ "  QUIT " :: ["image --image a.jpg"])
         Scenario.started_server) = Ok false.
Proof.
  assert (H : ServerConsole.read_command "  QUIT " = ServerConsole.Quit)
    by (vm_compute; reflexivity).
  split; [exact H|].
  exact (proj2 (proj2 (X6_console_loop Scenario.cfg Desk.nothing_there "out"
                         Scenario.started_server)
                  ["help"] "  QUIT "
                  ["image --image a.jpg"] H)).
Defined.

Lemma process_command_missing cfg w output_dir c sv :
  path_exists w (command_path c) = false ->
  Server.process_command cfg w output_dir c sv = (Ok tt, sv).
Proof.
  intros H. destruct c as [p|p]; simpl in *.
  - unfold Server._process_single_image, try_catch. rewrite H. reflexivity.
  - unfold Server._process_folder, try_catch. rewrite H. reflexivity.
Qed.

(** X7.  A session in which no command names an existing path leaves the
    server as it was: the counters of the inferencer are not even reset,
    and the log is untouched. *)
Theorem X7_missing_paths_change_nothing (cfg : config) (w : world)
    (output_dir : string) (lines : list string) (sv : Server.server) :
  Forall (fun c => path_exists w (command_path c) = false)
         (fst (dispatched lines)) ->
  snd (ServerConsole._process_commands cfg w output_dir lines sv) = sv.
Proof.
  rewrite console_loop_commands. simpl.
  generalize (fst (dispatched lines)) as cs. intros cs H. revert sv.
  induction H as [|c cs Hc _ IH]; intros sv; simpl; [reflexivity|].
  unfold bind. rewrite (process_command_missing _ _ _ _ _ Hc). apply IH.
Qed.

Lemma X7_witness :
  Forall (fun c => path_exists Desk.nothing_there (command_path c) = false)
         (fst (dispatched Desk.typed)) /\
  snd (ServerConsole._process_commands Scenario.cfg Desk.nothing_there "out"
         Desk.typed Scenario.started_server) = Scenario.started_server.
Proof.
  assert (H : Forall (fun c => path_exists Desk.nothing_there (command_path c)
                               = false)
                (fst (dispatched Desk.typed)))
    by (vm_compute; repeat constructor).
  split; [exact H|].
  exact (X7_missing_paths_change_nothing Scenario.cfg Desk.nothing_there "out"
           Desk.typed Scenario.started_server H).
Defined.

(** ** What a line of the prompt can ask for *)

Lemma lower_char_idem (c : ascii) : lower_char (lower_char c) = lower_char c.
Proof. destruct c as [[] [] [] [] [] [] [] []]; reflexivity. Qed.

Lemma lower_is_lower_case (s : string) : all_chars lower_case (lower s) = true.
Proof.
  induction s as [|c s IH]; simpl; [reflexivity|].
  unfold lower_case at 1. rewrite lower_char_idem, Ascii.eqb_refl. exact IH.
Qed.

Lemma lower_case_fixed (s : string) :
  all_chars lower_case s = true -> lower s = s.
Proof.
  induction s as [|c s IH]; simpl; [reflexivity|].
  intros H. apply andb_true_iff in H as [Hc Hs].
  apply Ascii.eqb_eq in Hc. rewrite Hc, IH by exact Hs. reflexivity.
Qed.

Lemma all_chars_app (P : ascii -> bool) (a b : string) :
  all_chars P (a +:+ b) = all_chars P a && all_chars P b.
Proof.
  induction a as [|c a IH]; simpl; [reflexivity|].
  rewrite IH. apply andb_assoc.
Qed.

Lemma eqb_empty_false (s : string) : String.eqb s "" = false -> s <> ""%string.
Proof. intros H ->. discriminate H. Qed.

(** The words of [str.split]: non-empty, without white space, and made of
    characters of the string. *)
Lemma split_from_words (s : string) :
  forall cur,
    all_chars not_space cur = true ->
    Forall word (PyStr.split_from cur s).
Proof.
  induction s as [|c s IH]; intros cur Hcur; simpl.
  - destruct (String.eqb cur "") eqn:E; constructor; [|constructor].
    split; [apply eqb_empty_false, E|exact Hcur].
  - destruct (PyStr.is_space c) eqn:Hc.
    + destruct (String.eqb cur "") eqn:E.
      * apply IH. reflexivity.
      * constructor; [|apply IH; reflexivity].
        split; [apply eqb_empty_false, E|exact Hcur].
    + apply IH. rewrite all_chars_app, Hcur. simpl.
      unfold not_space. rewrite Hc. reflexivity.
Qed.

Lemma split_from_chars (P : ascii -> bool) (s : string) :
  forall cur,
    all_chars P cur = true -> all_chars P s = true ->
    Forall (fun t => all_chars P t = true) (PyStr.split_from cur s).
Proof.
  induction s as [|c s IH]; intros cur Hcur Hs; simpl.
  - destruct (String.eqb cur ""); constructor; [exact Hcur|constructor].
  - simpl in Hs. apply andb_true_iff in Hs as [Hc Hs].
    destruct (PyStr.is_space c).
    + destruct (String.eqb cur "").
      * apply IH; [reflexivity|exact Hs].
      * constructor; [exact Hcur|apply IH; [reflexivity|exact Hs]].
    + apply IH; [|exact Hs]. rewrite all_chars_app, Hcur. simpl.
      rewrite Hc. reflexivity.
Qed.

Lemma flag_argument_elem flag args p :
  ServerConsole.flag_argument flag args = Some p -> p ∈ args.
Proof.
  unfold ServerConsole.flag_argument.
  destruct (length args <? 3)%nat; [discriminate|].
  destruct (PyStr.index flag args) as [i|]; [|discriminate].
  apply list_elem_of_lookup_2.
Qed.

Lemma read_command_word line c :
  ServerConsole.read_command line = ServerConsole.Dispatch c ->
  command_path c ∈ PyStr.split (lower (PyStr.strip line)).
Proof.
  unfold ServerConsole.read_command.
  destruct (PyStr.startswith _ "image").
  { destruct (ServerConsole.flag_argument "--image" _) as [p|] eqn:E;
      [|discriminate].
    intros [= <-]. simpl. apply flag_argument_elem in E. exact E. }
  destruct (PyStr.startswith _ "folder").
  { destruct (ServerConsole.flag_argument "--folder" _) as [p|] eqn:E;
      [|discriminate].
    intros [= <-]. simpl. apply flag_argument_elem in E. exact E. }
  destruct (String.eqb _ "quit"); discriminate.
Qed.

(** X8.  The path a line of the prompt hands to the pipeline is one of
    the words of the line after [strip] and [lower]: it is not empty, it
    holds no white space, and it holds no upper-case letter, whatever the
    case of what was typed. *)
Theorem X8_dispatched_path_is_lower_case (line : string)
    (c : Server.command) :
  ServerConsole.read_command line = ServerConsole.Dispatch c ->
  command_path c ∈ PyStr.split (lower (PyStr.strip line)) /\
  word (command_path c) /\
  lower (command_path c) = command_path c.
Proof.
  intros H. apply read_command_word in H. split; [exact H|]. split.
  - pose proof (split_from_words (lower (PyStr.strip line)) "" eq_refl) as Hw.
    rewrite Forall_forall in Hw. apply Hw, H.
  - apply lower_case_fixed.
    pose proof (split_from_chars lower_case (lower (PyStr.strip line)) ""
                  eq_refl (lower_is_lower_case _)) as Hl.
    rewrite Forall_forall in Hl. apply Hl, H.
Qed.

Lemma X8_witness :
  ServerConsole.read_command "  Image --image In/1.JPG "
  = ServerConsole.Dispatch (Server.ImageCommand "in/1.jpg") /\
  lower "in/1.jpg" = "in/1.jpg".
Proof.
  assert (H : ServerConsole.read_command "  Image --image In/1.JPG "
              = ServerConsole.Dispatch (Server.ImageCommand "in/1.jpg"))
    by (vm_compute; reflexivity).
  split; [exact H|].
  exact (proj2 (proj2 (X8_dispatched_path_is_lower_case _ _ H))).
Defined.

(** ** The output directory of the server *)

Lemma path_join_detections (b : string) :
  path_join ServerConsole.detections_dir b
  = match b with
    | String c _ => if is_slash c then b else "Detections/" +:+ b
    | EmptyString => "Detections/"
    end.
Proof. destruct b as [|c b]; [reflexivity|]. simpl. destruct (is_slash c); reflexivity. Qed.

Lemma append_longer (a b : string) : b <> ""%string -> a +:+ b <> a.
Proof.
  intros Hb H. induction a as [|c a IH].
  - exact (Hb H).
  - injection H as H. exact (IH H).
Qed.

(** X9.  The directory the server writes to.  A name that is already
    taken under [Detections] is never reused: the directory chosen then
    differs from the existing one.  A name that is free is used as it is;
    without a name the directory is [Detections/results_] followed by the
    time stamp.  The log is the file [detections.csv] of the chosen
    directory. *)
Theorem X9_output_directory (w : world) (timestamp : string) :
  (forall name,
     name <> ""%string ->
     path_exists w (path_join ServerConsole.detections_dir name) = true ->
     ServerConsole.choose_output_dir w timestamp (Some name)
     <> path_join ServerConsole.detections_dir name) /\
  (forall name,
     path_exists w (path_join ServerConsole.detections_dir name) = false ->
     ServerConsole.choose_output_dir w timestamp (Some name)
     = path_join ServerConsole.detections_dir
         (if String.eqb name "" then "results_" +:+ timestamp else name)) /\
  ServerConsole.choose_output_dir w timestamp None
  = "Detections/results_" +:+ timestamp /\
  (forall output_dir,
     basename (ServerConsole.csv_path output_dir) = "detections.csv"%string).
Proof.
  split; [|split; [|split]].
  - intros [|c name] Hne Hex; [contradiction|].
    unfold ServerConsole.choose_output_dir. rewrite Hex.
    rewrite !path_join_detections. simpl.
    destruct (is_slash c).
    + change (String c (name +:+ String "_" timestamp))
        with (String c name +:+ String "_" timestamp).
      apply append_longer. discriminate.
    + intros H. injection H as H.
      change (String c (name +:+ String "_" timestamp))
        with (String c name +:+ String "_" timestamp) in H.
      repeat (injection H as H).
      revert H. apply append_longer. discriminate.
  - intros [|c name] Hex; [reflexivity|].
    unfold ServerConsole.choose_output_dir. rewrite Hex. reflexivity.
  - reflexivity.
  - intros output_dir. unfold ServerConsole.csv_path.
    apply basename_path_join. reflexivity.
Qed.

Lemma X9_witness :
  path_exists Desk.second_run
    (path_join ServerConsole.detections_dir "run1") = true /\
  ServerConsole.choose_output_dir Desk.second_run "20240101_120000"
    (Some "run1"%string)
  <> path_join ServerConsole.detections_dir "run1".
Proof.
  assert (H : path_exists Desk.second_run
                (path_join ServerConsole.detections_dir "run1") = true)
    by reflexivity.
  split; [exact H|].
  apply (proj1 (X9_output_directory Desk.second_run "20240101_120000")
           "run1"%string); [discriminate|exact H].
Defined.

(** ** Well-formed command lines *)

Lemma rev_app_append (a b : string) :
  String.rev_app a b = String.rev_app a "" +:+ b.
Proof.
  revert b. induction a as [|c a IH]; intros b; simpl; [reflexivity|].
  rewrite (IH (String c b)), (IH (String c "")).
  rewrite append_assoc. reflexivity.
Qed.

Lemma rev_app_snoc (a : string) (c : ascii) :
  forall acc,
    String.rev_app (a +:+ String c "") acc = String c (String.rev_app a acc).
Proof.
  induction a as [|x a IH]; intros acc; simpl; [reflexivity|].
  apply IH.
Qed.

Lemma rev_snoc (a : string) (c : ascii) :
  String.rev (a +:+ String c "") = String c (String.rev a).
Proof. apply rev_app_snoc. Qed.

Lemma rev_cons (c : ascii) (a : string) :
  String.rev (String c a) = String.rev a +:+ String c "".
Proof. unfold String.rev. simpl. apply rev_app_append. Qed.

Lemma rev_involutive (s : string) : String.rev (String.rev s) = s.
Proof.
  induction s as [|c s IH]; [reflexivity|].
  rewrite rev_cons, rev_snoc, IH. reflexivity.
Qed.

Lemma word_last (w : string) :
  word w -> exists a c, w = a +:+ String c "" /\ not_space c = true.
Proof.
  intros [Hne Hns]. induction w as [|x w IH]; [contradiction|].
  simpl in Hns. apply andb_true_iff in Hns as [Hx Hw].
  destruct w as [|y w].
  - exists ""%string, x. auto.
  - destruct IH as (a & c & Ha & Hc); [discriminate|exact Hw|].
    exists (String x a), c. simpl. rewrite <- Ha. auto.
Qed.

Lemma unwords_last (ws : list string) :
  Forall word ws -> ws <> [] ->
  exists a c, unwords ws = a +:+ String c "" /\ not_space c = true.
Proof.
  induction 1 as [|w ws Hw Hws IH]; intros Hne; [contradiction|].
  destruct ws as [|w' ws'].
  - apply word_last, Hw.
  - destruct IH as (a & c & Ha & Hc); [discriminate|].
    exists (w +:+ " " +:+ a), c. split; [|exact Hc].
    change (unwords (w :: w' :: ws')) with (w +:+ " " +:+ unwords (w' :: ws')).
    rewrite Ha, !append_assoc. reflexivity.
Qed.

Lemma unwords_first (ws : list string) :
  Forall word ws -> ws <> [] ->
  exists c rest, unwords ws = String c rest /\ not_space c = true.
Proof.
  intros H Hne. destruct H as [|w ws [Hw Hns] _]; [contradiction|].
  destruct w as [|c w]; [contradiction|].
  simpl in Hns. apply andb_true_iff in Hns as [Hc _].
  destruct ws; simpl; eauto.
Qed.

Lemma strip_unwords (ws : list string) :
  Forall word ws -> PyStr.strip (unwords ws) = unwords ws.
Proof.
  intros H. destruct ws as [|w ws]; [reflexivity|].
  assert (Hne : w :: ws <> []) by discriminate.
  destruct (unwords_first _ H Hne) as (c & rest & Hf & Hc).
  destruct (unwords_last _ H Hne) as (a & x & Hl & Hx).
  unfold PyStr.strip.
  assert (Hls : PyStr.lstrip (unwords (w :: ws)) = unwords (w :: ws)).
  { rewrite Hf. simpl. unfold not_space in Hc.
    destruct (PyStr.is_space c); [discriminate|reflexivity]. }
  rewrite Hls. unfold PyStr.rstrip. rewrite Hl, rev_snoc. simpl.
  unfold not_space in Hx. destruct (PyStr.is_space x); [discriminate|].
  rewrite <- rev_snoc. apply rev_involutive.
Qed.

Lemma lower_app (a b : string) : lower (a +:+ b) = lower a +:+ lower b.
Proof.
  induction a as [|c a IH]; simpl; [reflexivity|]. rewrite IH. reflexivity.
Qed.

Lemma lower_unwords (ws : list string) :
  lower (unwords ws) = unwords (lower <$> ws).
Proof.
  induction ws as [|w ws IH]; [reflexivity|].
  destruct ws as [|w' ws']; [reflexivity|].
  change (unwords (w :: w' :: ws')) with (w +:+ " " +:+ unwords (w' :: ws')).
  rewrite !lower_app, IH. reflexivity.
Qed.

Lemma is_space_lower_char (c : ascii) :
  PyStr.is_space (lower_char c) = PyStr.is_space c.
Proof. destruct c as [[] [] [] [] [] [] [] []]; reflexivity. Qed.

Lemma lower_word (w : string) : word w -> word (lower w).
Proof.
  intros [Hne Hns]. split.
  - destruct w; [contradiction|discriminate].
  - clear Hne. induction w as [|c w IH]; [reflexivity|].
    simpl in *. apply andb_true_iff in Hns as [Hc Hw].
    unfold not_space at 1. rewrite is_space_lower_char.
    fold (not_space c). rewrite Hc. apply IH, Hw.
Qed.

Lemma split_from_word (w s : string) :
  all_chars not_space w = true ->
  forall cur, PyStr.split_from cur (w +:+ s) = PyStr.split_from (cur +:+ w) s.
Proof.
  induction w as [|c w IH]; intros Hw cur; simpl.
  - rewrite append_empty_r. reflexivity.
  - simpl in Hw. apply andb_true_iff in Hw as [Hc Hw].
    unfold not_space in Hc. destruct (PyStr.is_space c); [discriminate|].
    rewrite IH by exact Hw. rewrite append_assoc. reflexivity.
Qed.

Lemma split_from_space (cur s : string) :
  cur <> ""%string ->
  PyStr.split_from cur (String " " s) = cur :: PyStr.split_from "" s.
Proof. intros H. destruct cur; [contradiction|reflexivity]. Qed.

(** [split] undoes the joining of words by single spaces. *)
Lemma split_unwords (ws : list string) :
  Forall word ws -> PyStr.split (unwords ws) = ws.
Proof.
  unfold PyStr.split. induction 1 as [|w ws [Hne Hns] Hws IH]; [reflexivity|].
  destruct ws as [|w' ws'].
  - simpl. rewrite <- (append_empty_r w) at 1.
    rewrite split_from_word by exact Hns. simpl.
    destruct w; [contradiction|reflexivity].
  - change (unwords (w :: w' :: ws')) with (w +:+ " " +:+ unwords (w' :: ws')).
    rewrite split_from_word by exact Hns.
    change ("" +:+ w) with w.
    change (" " +:+ unwords (w' :: ws'))
      with (String " " (unwords (w' :: ws'))).
    rewrite split_from_space by exact Hne. rewrite IH. reflexivity.
Qed.

Lemma index_skip (flag : string) (pre rest : list string) :
  flag ∉ pre ->
  PyStr.index flag (pre ++ flag :: rest) = Some (length pre).
Proof.
  induction pre as [|x pre IH]; intros Hn; simpl.
  - rewrite String.eqb_refl. reflexivity.
  - destruct (String.eqb x flag) eqn:E.
    + apply String.eqb_eq in E. subst x. exfalso. apply Hn. left.
    + rewrite IH; [reflexivity|]. intros Hin. apply Hn. right. exact Hin.
Qed.

Lemma flag_argument_found (flag cmd p : string) (pre post : list string) :
  cmd <> flag -> flag ∉ pre ->
  ServerConsole.flag_argument flag (cmd :: pre ++ flag :: p :: post) = Some p.
Proof.
  intros Hcmd Hpre. unfold ServerConsole.flag_argument.
  replace (length (cmd :: pre ++ flag :: p :: post) <? 3)%nat with false.
  2:{ symmetry. apply Nat.ltb_ge. simpl. rewrite length_app. simpl. lia. }
  change (cmd :: pre ++ flag :: p :: post)
    with ((cmd :: pre) ++ flag :: p :: post).
  rewrite index_skip.
  - rewrite lookup_app_r by (simpl; lia).
    replace (length (cmd :: pre) + 1 - length (cmd :: pre))%nat with 1%nat
      by lia.
    reflexivity.
  - intros Hin. apply elem_of_cons in Hin as [Heq|Hin]; [|exact (Hpre Hin)].
    exact (Hcmd (eq_sym Heq)).
Qed.

Lemma read_unwords (cmd flag p : string) (pre post : list string) :
  Forall word (cmd :: pre ++ flag :: p :: post) ->
  lower cmd <> lower flag ->
  lower flag ∉ (lower <$> pre) ->
  lower (PyStr.strip (unwords (cmd :: pre ++ flag :: p :: post)))
  = unwords (lower cmd :: (lower <$> pre)
               ++ lower flag :: lower p :: (lower <$> post)) /\
  ServerConsole.flag_argument (lower flag)
    (PyStr.split
       (unwords (lower cmd :: (lower <$> pre)
                   ++ lower flag :: lower p :: (lower <$> post))))
  = Some (lower p).
Proof.
  intros Hw Hne Hpre. split.
  - rewrite strip_unwords by exact Hw. rewrite lower_unwords.
    rewrite fmap_cons, fmap_app, !fmap_cons. reflexivity.
  - rewrite split_unwords.
    + apply flag_argument_found; assumption.
    + assert (Hl : Forall word (lower <$> (cmd :: pre ++ flag :: p :: post))).
      { apply Forall_fmap. eapply Forall_impl; [exact Hw|].
        intros x Hx. apply lower_word, Hx. }
      rewrite fmap_cons, fmap_app, !fmap_cons in Hl. exact Hl.
Qed.

(** X10.  A well-formed line is understood.  The word [image], any words
    that are not [--image], then [--image], a path and any further words,
    separated by single spaces, ask for the image at the path in lower
    case; likewise for [folder] and [--folder].  The keyword, the flag
    and the other words may be typed in any case. *)
Theorem X10_well_formed_line (cmd flag : string) (pre post : list string)
    (p : string) :
  Forall word (cmd :: pre ++ flag :: p :: post) ->
  (lower cmd = "image"%string -> lower flag = "--image"%string ->
   "--image"%string ∉ (lower <$> pre) ->
   ServerConsole.read_command (unwords (cmd :: pre ++ flag :: p :: post))
   = ServerConsole.Dispatch (Server.ImageCommand (lower p))) /\
  (lower cmd = "folder"%string -> lower flag = "--folder"%string ->
   "--folder"%string ∉ (lower <$> pre) ->
   ServerConsole.read_command (unwords (cmd :: pre ++ flag :: p :: post))
   = ServerConsole.Dispatch (Server.FolderCommand (lower p))).
Proof.
  intros Hw. split; intros Hcmd Hflag Hpre.
  - destruct (read_unwords cmd flag p pre post Hw) as [Hl Ha].
    + rewrite Hcmd, Hflag. discriminate.
    + rewrite Hflag. exact Hpre.
    + rewrite Hcmd, Hflag in Hl, Ha.
      unfold ServerConsole.read_command. rewrite Hl, Ha.
      destruct (lower <$> pre); reflexivity.
  - destruct (read_unwords cmd flag p pre post Hw) as [Hl Ha].
    + rewrite Hcmd, Hflag. discriminate.
    + rewrite Hflag. exact Hpre.
    + rewrite Hcmd, Hflag in Hl, Ha.
      unfold ServerConsole.read_command. rewrite Hl, Ha.
      destruct (lower <$> pre); reflexivity.
Qed.

Lemma X10_witness :
  Forall word ("IMAGE" :: ["now"] ++ "--Image" :: "In/Cat.JPG" :: ["please"]) /\
  ServerConsole.read_command
    (unwords ("IMAGE" :: ["now"] ++ "--Image" :: "In/Cat.JPG" :: ["please"]))
  = ServerConsole.Dispatch (Server.ImageCommand (lower "In/Cat.JPG")).
Proof.
  assert (H : Forall word
                ("IMAGE" :: ["now"] ++ "--Image" :: "In/Cat.JPG" :: ["please"]))
    by (repeat constructor; discriminate).
  split; [exact H|].
  apply (proj1 (X10_well_formed_line "IMAGE" "--Image" ["now"] ["please"]
                  "In/Cat.JPG" H)); [reflexivity|reflexivity|].
  intros Hin. apply list_elem_of_singleton in Hin. discriminate Hin.
Defined.

(** ** The single-image path of [detect_trt_fp32_server.py] *)

Lemma fp32_single_outcome cfg w image_path save_dir_path s1 s :
  creatable w save_dir_path = true ->
  labels_counted cfg s1 ->
  total_objects s1 = 0%nat -> num_frames s1 = 1%nat ->
  total_time s1 = zero ->
  written s1 = written s -> logs s1 = logs s ->
  exists r s',
    try_catch (Fp32Single.run_single cfg w image_path save_dir_path)
      (fun e => ret (Fp32Single.SingleFailed image_path e)) s1 = (Ok r, s') /\
    single_outcome cfg w image_path save_dir_path s (Ok r, s') /\
    num_frames s' = 1%nat.
Proof.
  intros Hcr Hwf Ht0 Hn1 Htt Hw1 Hl1.
  assert (Hfail : forall e s0,
            written s0 = written s -> logs s0 = logs s ->
            num_frames s0 = 1%nat ->
            exists r s',
              (Ok (Fp32Single.SingleFailed image_path e), s0) = (Ok r, s') /\
              single_outcome cfg w image_path save_dir_path s (Ok r, s') /\
              num_frames s' = 1%nat).
  { intros e s0 Hw Hl Hn. eexists _, _. split; [reflexivity|].
    split; [|exact Hn]. unfold single_outcome. cbn [fst snd]. auto. }
  unfold try_catch, Fp32Single.run_single, preprocess_image.
  destruct (imread w image_path) as [img|] eqn:Him;
    [|apply Hfail; assumption].
  destruct (input_shape cfg !! 2%nat) as [d2|]; [|apply Hfail; assumption].
  destruct (input_shape cfg !! 3%nat) as [d3|]; [|apply Hfail; assumption].
  destruct ((d2 <=? 0) || (d3 <=? 0)); [apply Hfail; assumption|].
  destruct (engine_output w image_path) as [output|] eqn:Heng;
    [|apply Hfail; assumption].
  cbv [bind modify ret add_total_time].
  match goal with
  | |- context [Fp32Server.postprocess_image _ _ _ _ _ ?o ?s2] =>
    set (s2' := s2); set (out := o)
  end.
  assert (Hwf2 : labels_counted cfg s2') by exact Hwf.
  unfold Fp32Server.postprocess_image.
  destruct (postprocess_with (score_th cfg) Fp32Server.render cfg w image_path
              output (im_height img, im_width img) out s2')
    as [r1 s3] eqn:Hpost.
  pose proof (postprocess_with_written _ _ _ _ _ _ _ _ _ _ _ Hwf2 Hpost) as Hwr.
  destruct (postprocess_with_effect _ _ _ _ _ _ _ _ _ _ _ Hwf2 Hpost)
    as (survivors & Heff).
  pose proof (postprocess_with_logs (score_th cfg) Fp32Server.render cfg w
                image_path output (im_height img, im_width img) out s2')
    as Hlogs.
  unfold same_logs in Hlogs. rewrite Hpost in Hlogs. simpl in Hlogs.
  destruct Heff as [Hres Htot _ _ _ _ _ (Htime & Hinf & Hnf & _)].
  unfold frame_written in Hwr. destruct r1 as [dets|e].
  2:{ apply Hfail; [rewrite Hwr; exact Hw1|rewrite Hlogs; exact Hl1
                   |rewrite Hnf; exact Hn1]. }
  rewrite Him in Hwr. destruct Hwr as (sv & Hdets & Henc & Hwr & Hnan & _).
  assert (Hlen : total_objects s3 = length dets).
  { rewrite Htot, Hres, entries_length. simpl. rewrite Ht0. reflexivity. }
  assert (Hn3 : num_frames s3 = 1%nat) by (rewrite Hnf; exact Hn1).
  assert (Htime3 : total_time s3
                   = add (add zero (preprocess_time w image_path))
                         (engine_time w image_path)).
  { rewrite Htime. simpl. rewrite Htt. reflexivity. }
  assert (Hinf3 : inference_time s3 = engine_time w image_path)
    by (rewrite Hinf; reflexivity).
  assert (Hw3 : exists im, written s3 = stored w out im (written s) /\
                           annotated img im (length dets)).
  { eexists. split; [rewrite Hwr; simpl; rewrite Hw1; reflexivity|].
    rewrite Hdets, entries_length.
    destruct (has_nan output).
    - rewrite (Hnan eq_refl). simpl.
      apply (annotated_draw img img 0 (PutText _ _ _)), annotated_refl.
    - apply (draw_all_annotated cfg Fp32Server.render img sv
               fp32_one_rectangle img 0), annotated_refl. }
  destruct Hw3 as (im & Hw3 & Hann).
  assert (Hl3 : logs s3 = logs s) by (rewrite Hlogs; exact Hl1).
  destruct (is_zero (total_time s3)) eqn:Hz.
  - rewrite generate_metrics_zero_time by (rewrite ?Hn3; auto).
    eexists _, _. split; [reflexivity|]. unfold single_outcome.
    split; [|exact Hn3]. cbn [fst snd].
    split; [exact Hcr|]. split; [reflexivity|]. split; [exact Hl3|].
    right. split; [|exists im; exact Hw3].
    left. split; [reflexivity|]. rewrite <- Htime3. exact Hz.
  - rewrite generate_metrics_frames by (rewrite ?Hn3; auto).
    unfold Fp32Server.save_logs, modify, raise.
    destruct (can_open w (path_join save_dir_path "inference_logs.txt"))
      eqn:Hopen.
    + eexists _, _. split; [reflexivity|]. unfold single_outcome.
      split; [|exact Hn3]. cbn [fst snd].
      split; [exact Hcr|]. split; [reflexivity|]. split; [reflexivity|].
      split.
      * exists img, im. split; [exact Him|]. split; [exact Henc|].
        split; [exact Hw3|exact Hann].
      * eexists. split; [reflexivity|].
        cbn [m_num_frames m_total_objects m_inference_time m_total_time logs
             set_logs].
        rewrite Hn3, Hlen, Hinf3, Htime3, Hl3. repeat split; try reflexivity.
        exact Hopen.
    + eexists _, _. split; [reflexivity|]. unfold single_outcome.
      split; [|exact Hn3]. cbn [fst snd].
      split; [exact Hcr|]. split; [reflexivity|]. split; [exact Hl3|].
      right. split; [|exists im; exact Hw3].
      right. split; [reflexivity|exact Hopen].
Qed.

(** The directory is created first: its failure leaves the method, and
    the rest of the method runs from the reset counters. *)
Lemma fp32_infer_single_image_run cfg w image_path save_dir_path s :
  Fp32Single.infer_single_image cfg w image_path save_dir_path s
  = if creatable w save_dir_path
    then try_catch (Fp32Single.run_single cfg w image_path save_dir_path)
           (fun e => ret (Fp32Single.SingleFailed image_path e))
           (set_num_frames 1 (snd (reset_counters cfg s)))
    else (Raise OSError, s).
Proof.
  unfold Fp32Single.infer_single_image, bind. rewrite makedirs_run.
  destruct (creatable w save_dir_path); reflexivity.
Qed.

Lemma fp32_infer_single_image_created cfg w image_path save_dir_path s :
  creatable w save_dir_path = true ->
  exists r s',
    Fp32Single.infer_single_image cfg w image_path save_dir_path s
    = (Ok r, s') /\
    single_outcome cfg w image_path save_dir_path s (Ok r, s') /\
    num_frames s' = 1%nat.
Proof.
  intros Hcr. rewrite fp32_infer_single_image_run, Hcr.
  pose proof (reset_counters_state cfg s) as Hreset.
  cbv zeta in Hreset.
  destruct Hreset as (Ht0 & _ & _ & _ & Htt & _ & Hl & _ & Hw & Hlg).
  apply fp32_single_outcome; try assumption; reflexivity.
Qed.

(** X11.  [infer_single_image] of [detect_trt_fp32_server.py].  When the
    output directory cannot be created (its path is empty, or
    [os.makedirs] fails) the exception leaves the method and nothing has
    changed.  Otherwise the method returns a dictionary and leaves the
    frame counter at one.  On success the image was read, OpenCV has an
    encoder for the output name, the annotated image is what
    [cv2.imwrite] leaves under the base name of the input, the metrics
    count one frame, exactly the detections returned and the time of this
    engine call, and the report replaces [inference_logs.txt] beside the
    image.  On failure no report is written; the image is written only
    when the failure is the division by an accumulated time of zero or
    the opening of the report, which come after [cv2.imwrite]. *)
Theorem X11_fp32_single_image (cfg : config) (w : world)
    (image_path save_dir_path : string) (s : state) :
  single_outcome cfg w image_path save_dir_path s
    (Fp32Single.infer_single_image cfg w image_path save_dir_path s) /\
  (creatable w save_dir_path = true ->
   exists r s',
     Fp32Single.infer_single_image cfg w image_path save_dir_path s
     = (Ok r, s') /\
     num_frames s' = 1%nat).
Proof.
  destruct (creatable w save_dir_path) eqn:Hcr.
  - destruct (fp32_infer_single_image_created cfg w image_path save_dir_path
                s Hcr) as (r & s' & Hrun & Hout & Hn).
    rewrite Hrun. split; [exact Hout|]. intros _. exists r, s'. auto.
  - rewrite fp32_infer_single_image_run, Hcr.
    split; [|discriminate]. unfold single_outcome. simpl. auto.
Qed.

Lemma X11_witness :
  let w := Scenario.world_with Scenario.three_images [Scenario.row_a] in
  creatable w "out" = true /\
  exists r s',
    Fp32Single.infer_single_image Scenario.cfg w "in/1.jpg" "out"
      Scenario.fresh = (Ok r, s') /\
    num_frames s' = 1%nat.
Proof.
  split; [reflexivity|].
  exact (proj2 (X11_fp32_single_image Scenario.cfg
                  (Scenario.world_with Scenario.three_images [Scenario.row_a])
                  "in/1.jpg" "out" Scenario.fresh) eq_refl).
Defined.

(** With an output name OpenCV cannot encode, the call returns a failed
    entry that carries the error of [cv2.imwrite]; with a report that
    cannot be opened, it returns a failed entry after the image is on
    disk. *)
Example fp32_single_without_encoder :
  fst (Fp32Single.infer_single_image Scenario.cfg
         (Scenario.codec_world Scenario.three_images [Scenario.row_a])
         "in/pic" "out" Scenario.fresh)
  = Ok (Fp32Single.SingleFailed "in/pic" CvError).
Proof. vm_compute. reflexivity. Qed.

(** ** Where the image command of the second server writes *)

Lemma rev_append (a b : string) :
  String.rev (a +:+ b) = String.rev b +:+ String.rev a.
Proof.
  induction a as [|c a IH]; simpl.
  - rewrite append_empty_r. reflexivity.
  - rewrite !rev_cons, IH, append_assoc. reflexivity.
Qed.

Lemma has_slash_rev (s : string) : has_slash (String.rev s) = has_slash s.
Proof.
  induction s as [|c s IH]; [reflexivity|].
  rewrite rev_cons, has_slash_app, IH. simpl.
  rewrite orb_false_r. apply orb_comm.
Qed.

Lemma drop_until_slash_app (a b : string) :
  has_slash a = false ->
  drop_until_slash (a +:+ String "/" b) = String "/" b.
Proof.
  induction a as [|c a IH]; simpl; intros H; [reflexivity|].
  apply orb_false_iff in H as [Hc Ha]. rewrite Hc. apply IH, Ha.
Qed.

(** [dirname] of a directory joined with a file name. *)
Lemma dirname_join (d f : string) :
  d <> ""%string -> last_is_slash d = false -> has_slash f = false ->
  dirname (d +:+ "/" +:+ f) = d.
Proof.
  intros Hd Hlast Hf. unfold dirname.
  rewrite rev_append.
  change ("/" +:+ f) with (String "/" f) at 1.
  rewrite rev_cons, append_assoc.
  change (String "/" "" +:+ String.rev d) with (String "/" (String.rev d)).
  rewrite drop_until_slash_app by (rewrite has_slash_rev; exact Hf).
  simpl. unfold last_is_slash in Hlast.
  destruct (String.rev d) as [|c r] eqn:E.
  - exfalso. apply Hd. rewrite <- (rev_involutive d), E. reflexivity.
  - simpl. rewrite Hlast. rewrite <- E. apply rev_involutive.
Qed.

Lemma path_join_file (d b : string) :
  d <> ""%string -> last_is_slash d = false -> has_slash b = false ->
  path_join d b = d +:+ "/" +:+ b.
Proof.
  intros Hd Hlast Hb. unfold path_join. rewrite Hlast.
  replace (String.eqb d "") with false
    by (symmetry; apply String.eqb_neq, Hd).
  destruct b as [|c b]; [reflexivity|].
  simpl in Hb. apply orb_false_iff in Hb as [-> _]. reflexivity.
Qed.

(** X12.  The image command of [detect_trt_fp32_server.py] uses the
    directory of [--output] only.  For an [--output] made of a directory
    and a file name, the command returns a dictionary when the directory
    can be created, and the annotated image of a successful result is
    what [cv2.imwrite] leaves in that directory under the base name of
    the input image: it lands on the path given as [--output] exactly
    when the two file names agree. *)
Theorem X12_output_file_name_is_not_used (cfg : config) (w : world)
    (image d f : string) (s : state) :
  d <> ""%string -> last_is_slash d = false -> has_slash f = false ->
  dirname (d +:+ "/" +:+ f) = d /\
  (can_makedirs w d = true ->
   exists r s',
     Fp32Single._handle_image_command cfg w image (d +:+ "/" +:+ f) s
     = (Ok r, s')) /\
  forall r s',
    Fp32Single._handle_image_command cfg w image (d +:+ "/" +:+ f) s
    = (Ok r, s') ->
    forall input_path output_path m detections,
      r = Fp32Single.SingleOk input_path output_path m detections ->
      output_path = d +:+ "/" +:+ basename image /\
      cv_imwrite w output_path <> NoEncoder /\
      (exists im, written s' = stored w output_path im (written s)) /\
      (output_path = d +:+ "/" +:+ f <-> basename image = f).
Proof.
  intros Hd Hlast Hf.
  pose proof (dirname_join d f Hd Hlast Hf) as Hdir.
  split; [exact Hdir|].
  unfold Fp32Single._handle_image_command. rewrite Hdir.
  assert (Hcr : creatable w d = can_makedirs w d).
  { unfold creatable.
    replace (String.eqb d "") with false
      by (symmetry; apply String.eqb_neq, Hd).
    reflexivity. }
  split.
  - intros Hmk. rewrite <- Hcr in Hmk.
    destruct (fp32_infer_single_image_created cfg w image d s Hmk)
      as (r & s' & Hrun & _).
    exists r, s'. exact Hrun.
  - intros r s' Hrun ip op m dets ->.
    destruct (creatable w d) eqn:Hmk.
    2:{ rewrite fp32_infer_single_image_run, Hmk in Hrun. discriminate Hrun. }
    destruct (fp32_infer_single_image_created cfg w image d s Hmk)
      as (r0 & s0 & Hrun0 & Hout & _).
    rewrite Hrun in Hrun0. injection Hrun0 as <- <-.
    unfold single_outcome in Hout. cbn [fst snd] in Hout.
    destruct Hout as (_ & _ & -> & (im0 & im & _ & Henc & Hw & _) & _).
    assert (Hb : has_slash (basename image) = false)
      by (apply basename_from_has_no_slash; reflexivity).
    rewrite (path_join_file d (basename image) Hd Hlast Hb) in *.
    split; [reflexivity|]. split; [exact Henc|].
    split; [exists im; exact Hw|].
    split.
    + intros H. apply String.app_inj in H. injection H as H. exact H.
    + intros ->. reflexivity.
Qed.

Lemma X12_witness :
  dirname ("out" +:+ "/" +:+ "result.jpg") = "out"%string /\
  exists r s',
    Fp32Single._handle_image_command Scenario.cfg
      (Scenario.world_with Scenario.three_images [Scenario.row_a])
      "in/1.jpg" ("out" +:+ "/" +:+ "result.jpg") Scenario.fresh
    = (Ok r, s').
Proof.
  pose proof (X12_output_file_name_is_not_used Scenario.cfg
                (Scenario.world_with Scenario.three_images [Scenario.row_a])
                "in/1.jpg" "out" "result.jpg" Scenario.fresh
                ltac:(discriminate) eq_refl eq_refl) as (Hdir & Hret & _).
  split; [exact Hdir|]. exact (Hret eq_refl).
Defined.

(** ** The comparison script *)

Lemma compare_loop_saved d folder1 folder2 save_folder images2 images1 :
  forall saved,
    let run := CompareDetections.compare_loop d folder1 folder2 save_folder
                 images2 images1 saved in
    exists names files,
      fst run = saved ++ files /\
      Forall2 (combined_from d folder1 folder2 save_folder) names files /\
      names `prefix_of`
        List.filter (fun img_name => bool_decide (img_name ∈ images2)) images1 /\
      (snd run = None ->
       names
       = List.filter (fun img_name => bool_decide (img_name ∈ images2)) images1).
Proof.
  induction images1 as [|name images1 IH]; intros saved; simpl.
  - exists [], []. rewrite app_nil_r.
    split; [reflexivity|]. split; [constructor|]. split; reflexivity.
  - destruct (bool_decide (name ∈ images2)); [|apply IH].
    assert (Hstop : forall why : CompareDetections.abort,
              exists names files,
                saved = saved ++ files /\
                Forall2 (combined_from d folder1 folder2 save_folder)
                  names files /\
                names `prefix_of`
                  name :: List.filter
                            (fun img_name => bool_decide (img_name ∈ images2))
                            images1 /\
                (Some why = None ->
                 names
                 = name :: List.filter
                             (fun img_name => bool_decide (img_name ∈ images2))
                             images1)).
    { intros why. exists [], []. rewrite app_nil_r.
      split; [reflexivity|]. split; [constructor|].
      split; [apply prefix_nil|discriminate]. }
    destruct (CompareDetections.size_of d (path_join folder1 name))
      as [size1|] eqn:H1; [|apply Hstop].
    destruct (CompareDetections.size_of d (path_join folder2 name))
      as [size2|] eqn:H2; [|apply Hstop].
    destruct (CompareDetections.combine size1 size2) as [sb|e] eqn:Hc;
      [|apply Hstop].
    destruct (IH (saved ++ [(path_join save_folder name, sb)]))
      as (names & files & Hrun & Hall & Hpre & Hdone).
    exists (name :: names), ((path_join save_folder name, sb) :: files).
    split; [rewrite Hrun, <- app_assoc; reflexivity|].
    split; [constructor; [|exact Hall]|].
    + split; [reflexivity|]. exists size1, size2. auto.
    + split; [apply prefix_cons, Hpre|].
      intros Hn. rewrite (Hdone Hn). reflexivity.
Qed.

Lemma StronglySorted_filter {A} (R : relation A) (f : A -> bool) (l : list A) :
  StronglySorted R l -> StronglySorted R (List.filter f l).
Proof.
  induction 1 as [|x l Hl IH Hx]; simpl; [constructor|].
  destruct (f x); [|exact IH].
  constructor; [exact IH|].
  apply Forall_forall. intros y Hy.
  apply list_elem_of_In, filter_In in Hy as [Hy _].
  rewrite Forall_forall in Hx. apply Hx, list_elem_of_In, Hy.
Qed.

Lemma elem_of_jpg_images d folder name :
  name ∈ CompareDetections.jpg_images d folder <->
  name ∈ CompareDetections.entries_of d folder /\ is_jpg name = true.
Proof.
  unfold CompareDetections.jpg_images.
  rewrite merge_sort_Permutation.
  rewrite !list_elem_of_In, filter_In. reflexivity.
Qed.

Lemma elem_of_common_images d folder1 folder2 name :
  name ∈ common_images d folder1 folder2 <->
  name ∈ CompareDetections.entries_of d folder1 /\
  name ∈ CompareDetections.entries_of d folder2 /\
  is_jpg name = true.
Proof.
  unfold common_images.
  rewrite list_elem_of_In, filter_In, <- list_elem_of_In.
  rewrite bool_decide_eq_true, !elem_of_jpg_images. tauto.
Qed.

Lemma common_images_sorted d folder1 folder2 :
  StronglySorted String.le (common_images d folder1 folder2).
Proof.
  apply StronglySorted_filter, StronglySorted_merge_sort; apply _.
Qed.

Lemma NoDup_filter' {A} (f : A -> bool) (l : list A) :
  NoDup l -> NoDup (List.filter f l).
Proof.
  induction 1 as [|x l Hx Hl IH]; simpl; [constructor|].
  destruct (f x); [|exact IH].
  constructor; [|exact IH].
  intros Hin. apply Hx.
  apply list_elem_of_In, filter_In in Hin as [Hin _].
  apply list_elem_of_In, Hin.
Qed.

Lemma common_images_NoDup d folder1 folder2 :
  NoDup (CompareDetections.entries_of d folder1) ->
  NoDup (common_images d folder1 folder2).
Proof.
  intros H. unfold common_images, CompareDetections.jpg_images.
  apply NoDup_filter'. rewrite merge_sort_Permutation.
  apply NoDup_filter', H.
Qed.

(** X13.  The files [compare_images] saves.  They are saved for the first
    names of the list of common names, one file per name in the order of
    that list, each under its name in the output folder and built from
    the two images of that name; when no exception stops the script every
    common name has its file.  The list of common names is sorted, and a
    name is on it exactly when it is listed in both folders and ends in
    [.jpg] in any case. *)
Theorem X13_compared_files (d : CompareDetections.disk)
    (folder1 folder2 save_folder : string) :
  let run := CompareDetections.compare_images d folder1 folder2 save_folder in
  (exists names,
     Forall2 (combined_from d folder1 folder2 save_folder) names (fst run) /\
     names `prefix_of` common_images d folder1 folder2 /\
     (snd run = None -> names = common_images d folder1 folder2)) /\
  StronglySorted String.le (common_images d folder1 folder2) /\
  (forall name,
     name ∈ common_images d folder1 folder2 <->
     name ∈ CompareDetections.entries_of d folder1 /\
     name ∈ CompareDetections.entries_of d folder2 /\
     is_jpg name = true).
Proof.
  split; [|split].
  - destruct (compare_loop_saved d folder1 folder2 save_folder
                (CompareDetections.jpg_images d folder2)
                (CompareDetections.jpg_images d folder1) [])
      as (names & files & Hrun & Hall & Hpre & Hdone).
    exists names. unfold CompareDetections.compare_images.
    simpl in Hrun. rewrite Hrun. auto.
  - apply common_images_sorted.
  - apply elem_of_common_images.
Qed.

(** X14.  The comparison does not depend on which folder is given first,
    as far as the names go: for two folders whose listings hold no name
    twice, the list of common names is the same in both orders. *)
Theorem X14_common_names_symmetric (d : CompareDetections.disk)
    (folder1 folder2 : string) :
  NoDup (CompareDetections.entries_of d folder1) ->
  NoDup (CompareDetections.entries_of d folder2) ->
  common_images d folder1 folder2 = common_images d folder2 folder1.
Proof.
  intros H1 H2.
  apply (StronglySorted_unique String.le); try apply common_images_sorted.
  apply NoDup_Permutation; try (apply common_images_NoDup; assumption).
  intros name. rewrite !elem_of_common_images. tauto.
Qed.

Lemma X14_witness :
  NoDup (CompareDetections.entries_of Shelf.disk "old") /\
  NoDup (CompareDetections.entries_of Shelf.disk "new") /\
  common_images Shelf.disk "old" "new" = common_images Shelf.disk "new" "old".
Proof.
  assert (H1 : NoDup (CompareDetections.entries_of Shelf.disk "old"))
    by (apply (bool_decide_unpack _); vm_compute; exact I).
  assert (H2 : NoDup (CompareDetections.entries_of Shelf.disk "new"))
    by (apply (bool_decide_unpack _); vm_compute; exact I).
  split; [exact H1|]. split; [exact H2|].
  exact (X14_common_names_symmetric Shelf.disk "old" "new" H1 H2).
Defined.

Lemma resize_height size new_height img :
  CompareDetections.resize size new_height = Ok img ->
  snd img = new_height /\ 1 <= fst img /\ 1 <= new_height.
Proof.
  unfold CompareDetections.resize.
  destruct (CompareDetections.scaled_width _ _ _) as [width|e]; [|discriminate].
  destruct ((width <? 1) || (new_height <? 1)) eqn:E; [discriminate|].
  intros [= <-]. apply orb_false_iff in E as [E1 E2].
  apply Z.ltb_ge in E1, E2. simpl. auto.
Qed.

(** X15.  The shape of a combined image.  The two halves and the canvas
    have one height, the smaller of the two heights of the images
    opened; the canvas is as wide as the two halves together; images of
    equal height are pasted as they are, and halves that were resized
    are at least one pixel wide. *)
Theorem X15_combined_shape (size1 size2 : Z * Z)
    (sb : CompareDetections.side_by_side) :
  CompareDetections.combine size1 size2 = Ok sb ->
  snd (CompareDetections.canvas sb) = Z.min (snd size1) (snd size2) /\
  snd (CompareDetections.left_size sb) = snd (CompareDetections.canvas sb) /\
  snd (CompareDetections.right_size sb) = snd (CompareDetections.canvas sb) /\
  fst (CompareDetections.canvas sb)
  = fst (CompareDetections.left_size sb)
    + fst (CompareDetections.right_size sb) /\
  (snd size1 = snd size2 ->
   CompareDetections.left_size sb = size1 /\
   CompareDetections.right_size sb = size2) /\
  (snd size1 <> snd size2 ->
   1 <= fst (CompareDetections.left_size sb) /\
   1 <= fst (CompareDetections.right_size sb) /\
   1 <= snd (CompareDetections.canvas sb)).
Proof.
  unfold CompareDetections.combine.
  destruct (snd size1 =? snd size2) eqn:E; simpl.
  - apply Z.eqb_eq in E. intros [= <-]. simpl.
    repeat split; auto; lia.
  - apply Z.eqb_neq in E.
    destruct (CompareDetections.resize size1 _) as [img1|e] eqn:H1;
      [|discriminate].
    destruct (CompareDetections.resize size2 _) as [img2|e] eqn:H2;
      [|discriminate].
    intros [= <-]. simpl.
    apply resize_height in H1 as (Hh1 & Hw1 & Hn1).
    apply resize_height in H2 as (Hh2 & Hw2 & Hn2).
    repeat split; try lia; try contradiction.
Qed.

Lemma X15_witness :
  CompareDetections.combine (200, 100) (100, 50)
  = Ok {| CompareDetections.left_size := (100, 50);
          CompareDetections.right_size := (100, 50);
          CompareDetections.canvas := (200, 50) |} /\
  snd (CompareDetections.canvas
         {| CompareDetections.left_size := (100, 50);
            CompareDetections.right_size := (100, 50);
            CompareDetections.canvas := (200, 50) |})
  = Z.min (snd (200, 100)) (snd (100, 50)).
Proof.
  assert (H : CompareDetections.combine (200, 100) (100, 50)
              = Ok {| CompareDetections.left_size := (100, 50);
                      CompareDetections.right_size := (100, 50);
                      CompareDetections.canvas := (200, 50) |})
    by (vm_compute; reflexivity).
  split; [exact H|].
  exact (proj1 (X15_combined_shape (200, 100) (100, 50) _ H)).
Defined.

(** ** The download scripts *)






(** ** Suppression, seen from the result *)

Lemma ForallOrdPairs_snoc {A} (R : A -> A -> Prop) (l : list A) (x : A) :
  ForallOrdPairs R l -> Forall (fun a => R a x) l ->
  ForallOrdPairs R (l ++ [x]).
Proof.
  induction 1 as [|a l Ha Hl IH]; intros Hx; simpl.
  - constructor; constructor.
  - apply Forall_cons in Hx as [Hax Hx]. constructor.
    + apply Forall_app. split; [exact Ha|]. constructor; [exact Hax|constructor].
    + apply IH, Hx.
Qed.

Lemma ForallOrdPairs_Forall2 {A B} (R : A -> A -> Prop) (R' : B -> B -> Prop)
    (P : A -> B -> Prop) (l : list A) (k : list B) :
  (forall a b a' b', P a a' -> P b b' -> R a b -> R' a' b') ->
  Forall2 P l k -> ForallOrdPairs R l -> ForallOrdPairs R' k.
Proof.
  intros HR H. induction H as [|a a' l k Ha Hlk IH]; intros Hl.
  - constructor.
  - inversion Hl as [|? ? Hal Hl']; subst. constructor; [|apply IH, Hl'].
    clear IH Hl Hl'. induction Hlk as [|b b' l k Hb Hlk IH]; [constructor|].
    apply Forall_cons in Hal as [Hab Hal].
    constructor; [eapply HR; eassumption|apply IH, Hal].
Qed.

Lemma nms_loop_apart bboxes thr order :
  forall acc,
    ForallOrdPairs
      (fun i j => le (rectOverlap (box_at bboxes j) (box_at bboxes i)) thr
                  = true) acc ->
    ForallOrdPairs
      (fun i j => le (rectOverlap (box_at bboxes j) (box_at bboxes i)) thr
                  = true) (nms_loop bboxes thr order acc).
Proof.
  induction order as [|idx order IH]; intros acc Hacc; simpl; [exact Hacc|].
  destruct (forallb _ acc) eqn:E; apply IH; [|exact Hacc].
  apply ForallOrdPairs_snoc; [exact Hacc|].
  apply Forall_forall. intros k Hk.
  rewrite forallb_forall in E. apply E, list_elem_of_In, Hk.
Qed.

Lemma retained_indices_apart cfg cands :
  ForallOrdPairs (indices_apart (cand_box <$> cands) (nms_th cfg))
    (retained_indices cfg cands).
Proof.
  unfold retained_indices. rewrite NMSBoxes_cases.
  destruct (_ && _); [|constructor].
  apply nms_loop_apart. constructor.
Qed.

Lemma retained_apart cfg cands :
  ForallOrdPairs
    (fun c1 c2 => le (rectOverlap (cand_box c2) (cand_box c1))
                    (Single.round (nms_th cfg)) = true)
    (retained cfg cands).
Proof.
  eapply (ForallOrdPairs_Forall2
            (indices_apart (cand_box <$> cands) (nms_th cfg)) _
            (fun i c => cands !! i = Some c));
    [|apply retained_selects|apply retained_indices_apart].
  intros i j c1 c2 Hi Hj. unfold indices_apart, box_at.
  assert (Hnth : forall k c, cands !! k = Some c ->
                   nth k (cand_box <$> cands) (0, 0, 0, 0) = cand_box c).
  { intros k c Hk. apply nth_lookup_Some with (d := (0, 0, 0, 0)).
    rewrite list_lookup_fmap, Hk. reflexivity. }
  intros H.
  replace (cand_box c1) with (nth i (cand_box <$> cands) (0, 0, 0, 0))
    by (apply Hnth, Hi).
  replace (cand_box c2) with (nth j (cand_box <$> cands) (0, 0, 0, 0))
    by (apply Hnth, Hj).
  exact H.
Qed.

Lemma entries_apart cfg render cands :
  faithful render ->
  ForallOrdPairs (apart (nms_th cfg)) (entries cfg render (retained cfg cands)).
Proof.
  intros Hf. unfold entries.
  eapply (ForallOrdPairs_Forall2 _ _
            (fun c d => d = fst (render_one cfg render c)));
    [|apply Forall2_fmap_r, Forall_Forall2_diag, Forall_forall; reflexivity
     |apply retained_apart].
  intros c1 c2 d1 d2 -> -> H. unfold apart, render_one.
  destruct (Hf (class_name_of cfg c1) c1) as (_ & -> & _).
  destruct (Hf (class_name_of cfg c2) c2) as (_ & -> & _).
  exact H.
Qed.

Lemma postprocess_with_apart sth render cfg w image_path output dims out
    s dets s' :
  faithful render ->
  labels_counted cfg s ->
  postprocess_with sth render cfg w image_path output dims out s
  = (Ok dets, s') ->
  ForallOrdPairs (apart (nms_th cfg)) dets.
Proof.
  intros Hf Hwf Hrun.
  pose proof (postprocess_with_written _ _ _ _ _ _ _ _ _ _ _ Hwf Hrun) as H.
  unfold frame_written in H.
  destruct (imread w image_path).
  - destruct H as (survivors & -> & _ & _ & _ & (cands & ->) & _).
    apply entries_apart, Hf.
  - destruct H as [-> _]. constructor.
Qed.

(** X17.  No two detections of a result overlap by more than the
    suppression threshold, as the suppression routine measures it.  In
    the list [postprocess_image] returns, in both servers, the overlap of
    the box of every entry with the box of every earlier entry, computed
    as [cv2.dnn.NMSBoxes] computes it (one minus the Jaccard distance,
    in single precision), is at most [nms_th] converted to single
    precision. *)
Theorem X17_detections_are_apart (cfg : config) (w : world)
    (image_path : string) (output : tensor) (dims : Z * Z) (out : string)
    (s : state) :
  labels_counted cfg s ->
  (forall dets s',
     Server.postprocess_image cfg w image_path output dims out s
     = (Ok dets, s') ->
     ForallOrdPairs (apart (nms_th cfg)) dets) /\
  (forall dets s',
     Fp32Server.postprocess_image cfg w image_path output dims out s
     = (Ok dets, s') ->
     ForallOrdPairs (apart (nms_th cfg)) dets).
Proof.
  intros Hwf. split; intros dets s' Hrun.
  - eapply postprocess_with_apart;
      [apply server_render_faithful|exact Hwf|exact Hrun].
  - eapply postprocess_with_apart;
      [apply fp32_render_faithful|exact Hwf|exact Hrun].
Qed.

Lemma X17_witness :
  labels_counted Scenario.cfg Scenario.prepared /\
  forall dets s',
    Server.postprocess_image Scenario.cfg
      (Scenario.world_with Scenario.three_images []) "in/1.jpg"
      [Scenario.row_a; Scenario.row_unlabelled] (640, 640) "out/1.jpg"
      Scenario.prepared
    = (Ok dets, s') ->
    ForallOrdPairs (apart (nms_th Scenario.cfg)) dets.
Proof.
  assert (H : labels_counted Scenario.cfg Scenario.prepared)
    by (apply scenario_labels_counted; reflexivity).
  split; [exact H|].
  exact (proj1 (X17_detections_are_apart Scenario.cfg
                  (Scenario.world_with Scenario.three_images []) "in/1.jpg"
                  [Scenario.row_a; Scenario.row_unlabelled] (640, 640)
                  "out/1.jpg" Scenario.prepared H)).
Defined.

(** ** The log and the files *)

Lemma row_file_csv_row (name : string) (d : detection) :
  has_yolo d -> row_file (csv_row name d) = Some name.
Proof.
  intros [[[[cx cy] bw] bh] Hy]. unfold csv_row, Server.detection_row.
  rewrite Hy. destruct (det_bbox d) as [[[x y] width] height]. reflexivity.
Qed.

Lemma process_single_image_files cfg w output_dir image_path sv :
  path_exists w image_path = true ->
  creatable w output_dir = true ->
  exists r s' sv',
    Server.infer_single_image cfg w image_path output_dir true
      (Server.inferencer sv) = (Ok r, s') /\
    Server._process_single_image cfg w output_dir image_path sv
    = (Ok tt, sv') /\
    Server.inferencer sv' = s' /\
    default [] (Server.csv_file sv')
    = default [] (Server.csv_file sv) ++ result_rows r /\
    Forall has_yolo (result_detections r).
Proof.
  intros Hex Hdir. unfold Server._process_single_image, try_catch. rewrite Hex.
  change (negb true) with false. cbv beta iota.
  unfold bind, Server.on_inferencer.
  destruct (infer_single_image_reset cfg w image_path output_dir
              (Server.inferencer sv) Hdir) as (r & v & s' & Hrun & Hp & Hd).
  rewrite Hrun.
  assert (Hy : Forall has_yolo (result_detections r))
    by (rewrite Hd; apply server_entries_have_yolo).
  exists r, s'.
  destruct r as [p o dets|p e]; simpl in Hp; subst.
  - destruct (write_detections_ok image_path dets
                (Server.set_inferencer s' sv) Hy)
      as (sv1 & Hw & Hinf & Hc & _).
    exists sv1. rewrite Hw. repeat split; auto.
  - eexists. split; [reflexivity|]. split; [reflexivity|].
    split; [reflexivity|]. unfold result_rows. simpl.
    rewrite app_nil_r. auto.
Qed.

Lemma process_single_image_not_created cfg w output_dir image_path sv :
  path_exists w image_path = true ->
  creatable w output_dir = false ->
  Server._process_single_image cfg w output_dir image_path sv = (Ok tt, sv).
Proof.
  intros Hex Hdir. unfold Server._process_single_image, try_catch. rewrite Hex.
  change (negb true) with false. cbv beta iota.
  unfold bind, Server.on_inferencer.
  rewrite infer_single_image_not_created by assumption.
  destruct sv. reflexivity.
Qed.

(** X18.  The log and the files agree.  After an image command on an
    existing path, every row the command has appended to the log carries
    the base name of the input image, and when there is such a row the
    output directory could be created, OpenCV has an encoder for the
    output name, and the command has passed exactly one image to
    [cv2.imwrite], for the path that is the output directory joined with
    that same name. *)
Theorem X18_rows_name_the_written_file (cfg : config) (w : world)
    (output_dir image_path : string) (sv : Server.server) :
  path_exists w image_path = true ->
  let sv' := snd (Server._process_single_image cfg w output_dir image_path sv) in
  exists rows,
    default [] (Server.csv_file sv')
    = default [] (Server.csv_file sv) ++ rows /\
    Forall (fun row => row_file row = Some (basename image_path)) rows /\
    (rows <> [] ->
     creatable w output_dir = true /\
     cv_imwrite w (path_join output_dir (basename image_path)) <> NoEncoder /\
     exists im,
       written (Server.inferencer sv')
       = stored w (path_join output_dir (basename image_path)) im
           (written (Server.inferencer sv)) /\
       basename (path_join output_dir (basename image_path))
       = basename image_path).
Proof.
  intros Hex. cbv zeta.
  destruct (creatable w output_dir) eqn:Hdir.
  2:{ rewrite process_single_image_not_created by assumption.
      exists []. simpl. rewrite app_nil_r. split; [reflexivity|].
      split; [constructor|]. intros H. contradiction. }
  destruct (process_single_image_files cfg w output_dir image_path sv Hex Hdir)
    as (r & s' & sv' & Hrun & Hcmd & Hinf & Hcsv & Hy).
  rewrite Hcmd. simpl. exists (result_rows r). split; [exact Hcsv|].
  pose proof (server_single_output_named cfg w image_path output_dir true
                (Server.inferencer sv) r) as Hnamed.
  rewrite Hrun in Hnamed. destruct (Hnamed eq_refl) as [Hpath Hout].
  destruct (server_single_image_outcome cfg w image_path output_dir
              (Server.inferencer sv) Hdir) as (r0 & s0 & Hrun0 & Himg).
  rewrite Hrun in Hrun0. injection Hrun0 as <- <-.
  unfold image_outcome in Himg.
  split.
  - unfold result_rows. rewrite Hpath. apply Forall_fmap.
    eapply Forall_impl; [exact Hy|]. intros d Hd.
    apply row_file_csv_row, Hd.
  - intros Hrows. split; [reflexivity|]. destruct r as [ip op dets|ip e].
    + simpl in Hout, Hpath. subst ip op.
      destruct Himg as (im0 & im & _ & Henc & Hw & _).
      split; [exact Henc|].
      exists im. rewrite Hinf. split; [exact Hw|].
      apply basename_path_join, basename_from_has_no_slash. reflexivity.
    + exfalso. apply Hrows. reflexivity.
Qed.

Lemma X18_witness :
  let w := Scenario.world_with Scenario.three_images [Scenario.row_a] in
  path_exists w "in/1.jpg" = true /\
  exists rows,
    default [] (Server.csv_file
                  (snd (Server._process_single_image Scenario.cfg w "out"
                          "in/1.jpg" Scenario.started_server)))
    = default [] (Server.csv_file Scenario.started_server) ++ rows /\
    Forall (fun row => row_file row = Some (basename "in/1.jpg")) rows.
Proof.
  assert (H : path_exists
                (Scenario.world_with Scenario.three_images [Scenario.row_a])
                "in/1.jpg" = true) by reflexivity.
  split; [exact H|].
  destruct (X18_rows_name_the_written_file Scenario.cfg
              (Scenario.world_with Scenario.three_images [Scenario.row_a])
              "out" "in/1.jpg" Scenario.started_server H)
    as (rows & Hcsv & Hrows & _).
  exists rows. split; [exact Hcsv|exact Hrows].
Defined.
